(** * Weblate [trans.models.translation]: a shallow embedding

    The [Translation] model of Weblate couples a database row (statistics,
    stored blob revision, soft lock) with a file in a git working tree.  This
    development embeds the methods of [trans/models/translation.py] that lock
    a translation, re-synchronise the unit index from the repository, commit
    pending changes and merge uploaded files, and proves what they guarantee.

    Python objects become records, Django tables become lists of rows that
    querysets filter, and methods become computations in a state-and-exception
    monad over the interpreter state (the object [self], the database, the git
    repositories and a log of outward effects). *)

From Stdlib Require Import ZArith List Ascii String Bool Lia ListSet.
From Stdlib Require Import Floats.
Import ListNotations.

Local Open Scope string_scope.
Local Open Scope Z_scope.

(* ================================================================== *)
(** * Data model *)
(* ================================================================== *)

(** [django.contrib.auth.models.User], the fields [get_author_name] reads. *)
Record User := {
  user_pk : Z;
  username : string;
  user_full_name : string;       (* what [get_full_name()] returns *)
  user_email : string
}.

(** [lang.models.Language]. *)
Record Language := {
  lang_pk : Z;
  lang_code : string;
  lang_name : string
}.

(** [trans.models.project.Project], the configuration the methods consult. *)
Record Project := {
  project_pk : Z;
  project_name : string;
  commit_message : string;       (* per-project message template *)
  committer_name : string;
  committer_email : string;
  push_on_commit : bool
}.

(** [trans.models.subproject.SubProject]; every subproject owns one git
    repository, and an empty [template] means there is no template file. *)
Record SubProject := {
  subproject_pk : Z;
  subproject_name : string;
  project : Project;
  template : string;
  file_format : string;
  allow_translation_propagation : bool
}.

(** The columns of [Translation]. Timestamps are seconds on the clock. *)
Record Translation := {
  pk : Z;
  subproject : SubProject;
  language : Language;
  revision : string;
  filename : string;
  translated : Z;
  fuzzy : Z;
  total : Z;
  language_code : string;
  lock_user : option User;
  lock_time : Z
}.

(** A unit of a translate-toolkit store (one entry of a translation file). *)
Record StoreUnit := {
  tu_id : string;
  tu_source : string;
  tu_context : string;
  tu_target : string;
  tu_fuzzy : bool;
  tu_header : bool;
  tu_comments : list string
}.

(** A parsed file: its units in file order, and whether the store class
    derives from [poheader.poheader]. *)
Record Store := {
  store_units : list StoreUnit;
  store_poheader : bool
}.

(** [trans.models.unit.Unit]: a row of the unit index. *)
Record Unit := {
  unit_id : Z;
  unit_translation : Translation;
  unit_checksum : string;
  unit_position : Z;
  unit_translated : bool;
  unit_fuzzy : bool
}.

(** The rows of [Check], [Suggestion] and [Comment] are keyed alike: project,
    optional language ([None] for source-level rows) and checksum. *)
Record DepRow := {
  dep_project : Project;
  dep_language : option Language;
  dep_checksum : string;
  dep_payload : string;          (* check name, suggested text, comment *)
  dep_user : option User
}.

Inductive ChangeAction := ACTION_UPDATE | ACTION_CHANGE | ACTION_NEW.

(** [trans.models.unitdata.Change]: the audit trail. *)
Record Change := {
  change_translation : Z;        (* pk of the translation *)
  change_action : ChangeAction;
  change_user : option User;
  change_timestamp : Z
}.

(** The tables the methods query. [db_changes] is newest first, which is the
    default ordering of [Change]. *)
Record DB := {
  db_translations : list Translation;
  db_units : list Unit;
  db_checks : list DepRow;
  db_suggestions : list DepRow;
  db_comments : list DepRow;
  db_changes : list Change
}.

(** Numbers as Python has them: the percentage accessors return the [int] 0
    or a [float]. *)
Inductive PyNum := PyInt (z : Z) | PyFloat (f : float).

(** The commit message: the project's template and the values substituted
    into it (the [%] formatting itself is not modelled). *)
Record CommitMessage := {
  msg_template : string;
  msg_language : string;
  msg_language_name : string;
  msg_subproject : string;
  msg_project : string;
  msg_total : Z;
  msg_fuzzy : Z;
  msg_fuzzy_percent : PyNum;
  msg_translated : Z;
  msg_translated_percent : PyNum
}.

(** A file of a repository: the subproject that owns the repository and the
    file name inside it. *)
Definition Path := (Z * string)%type.

Definition path_eqb (p q : Path) : bool :=
  (fst p =? fst q) && String.eqb (snd p) (snd q).

Record Commit := {
  commit_path : Path;
  commit_author : string;
  commit_date : Z;
  commit_msg : CommitMessage;
  commit_blob : Store
}.

(** The git repositories of all subprojects. [repo_tree] is the tree of HEAD,
    [repo_worktree] the files on disk, [repo_config] the [user.name] and
    [user.email] settings per repository, [repo_commits] the log (newest
    first).  [repo_busy] scripts the environment: for each coming
    [git commit], whether it fails with [GitCommandError]; an exhausted
    script means success. *)
Record Repo := {
  repo_tree : Path -> option Store;
  repo_worktree : Path -> option Store;
  repo_config : Z -> string -> option string;
  repo_commits : list Commit;
  repo_busy : list bool
}.

(** Effects that leave the process. *)
Inductive Event :=
| EvSleep                              (* sleep_while_git_locked() *)
| EvPush (sp : Z)                      (* subproject.do_push(force_commit=False) *)
| EvNotifyNewString (profile tr : Z)   (* subscription.notify_new_string(self) *)
| EvCacheDelete (sp : Z) (code rqtype : string)   (* cache.delete(cache_key) *)
| EvGitLockAcquire (sp : Z)
| EvGitLockRelease (sp : Z).

(** The interpreter state a method runs in: the object it is called on, with
    its private [_store] cache, the database, the repositories, the clock
    and the effect log (newest first). *)
Record State := {
  self : Translation;
  _store : option Store;
  db : DB;
  repo : Repo;
  clock : Z;
  events : list Event
}.

Inductive exn :=
| GitCommandError
| KeyError
| IOError
| ValueError
| AttributeError
| ZeroDivisionError
| UnicodeDecodeError.

(** [weblate.appsettings]. *)
Record AppSettings := {
  LOCK_TIME : Z;
  AUTO_LOCK_TIME : Z;
  AUTO_LOCK : bool;
  LAZY_COMMITS : bool
}.

(** [request], as far as the model reads it. *)
Record Request := { request_user : User }.

(* ================================================================== *)
(** * Field updates and comparisons *)
(* ================================================================== *)

Definition set_revision (r : string) (t : Translation) : Translation :=
  {| pk := pk t; subproject := subproject t; language := language t;
     revision := r; filename := filename t; translated := translated t;
     fuzzy := fuzzy t; total := total t; language_code := language_code t;
     lock_user := lock_user t; lock_time := lock_time t |}.

Definition set_counts (n f tr : Z) (t : Translation) : Translation :=
  {| pk := pk t; subproject := subproject t; language := language t;
     revision := revision t; filename := filename t; translated := tr;
     fuzzy := f; total := n; language_code := language_code t;
     lock_user := lock_user t; lock_time := lock_time t |}.

Definition set_lock_user (u : option User) (t : Translation) : Translation :=
  {| pk := pk t; subproject := subproject t; language := language t;
     revision := revision t; filename := filename t; translated := translated t;
     fuzzy := fuzzy t; total := total t; language_code := language_code t;
     lock_user := u; lock_time := lock_time t |}.

Definition set_lock_time (z : Z) (t : Translation) : Translation :=
  {| pk := pk t; subproject := subproject t; language := language t;
     revision := revision t; filename := filename t; translated := translated t;
     fuzzy := fuzzy t; total := total t; language_code := language_code t;
     lock_user := lock_user t; lock_time := z |}.

Definition set_target (s : string) (u : StoreUnit) : StoreUnit :=
  {| tu_id := tu_id u; tu_source := tu_source u; tu_context := tu_context u;
     tu_target := s; tu_fuzzy := tu_fuzzy u; tu_header := tu_header u;
     tu_comments := tu_comments u |}.

(** [unit.markfuzzy(value)]. *)
Definition markfuzzy (b : bool) (u : StoreUnit) : StoreUnit :=
  {| tu_id := tu_id u; tu_source := tu_source u; tu_context := tu_context u;
     tu_target := tu_target u; tu_fuzzy := b; tu_header := tu_header u;
     tu_comments := tu_comments u |}.

Definition set_store_units (us : list StoreUnit) (s : Store) : Store :=
  {| store_units := us; store_poheader := store_poheader s |}.

Definition with_translations (f : list Translation -> list Translation) (d : DB) : DB :=
  {| db_translations := f (db_translations d); db_units := db_units d;
     db_checks := db_checks d; db_suggestions := db_suggestions d;
     db_comments := db_comments d; db_changes := db_changes d |}.

Definition with_units (f : list Unit -> list Unit) (d : DB) : DB :=
  {| db_translations := db_translations d; db_units := f (db_units d);
     db_checks := db_checks d; db_suggestions := db_suggestions d;
     db_comments := db_comments d; db_changes := db_changes d |}.

Definition with_checks (f : list DepRow -> list DepRow) (d : DB) : DB :=
  {| db_translations := db_translations d; db_units := db_units d;
     db_checks := f (db_checks d); db_suggestions := db_suggestions d;
     db_comments := db_comments d; db_changes := db_changes d |}.

Definition with_suggestions (f : list DepRow -> list DepRow) (d : DB) : DB :=
  {| db_translations := db_translations d; db_units := db_units d;
     db_checks := db_checks d; db_suggestions := f (db_suggestions d);
     db_comments := db_comments d; db_changes := db_changes d |}.

Definition with_comments (f : list DepRow -> list DepRow) (d : DB) : DB :=
  {| db_translations := db_translations d; db_units := db_units d;
     db_checks := db_checks d; db_suggestions := db_suggestions d;
     db_comments := f (db_comments d); db_changes := db_changes d |}.

Definition with_changes (f : list Change -> list Change) (d : DB) : DB :=
  {| db_translations := db_translations d; db_units := db_units d;
     db_checks := db_checks d; db_suggestions := db_suggestions d;
     db_comments := db_comments d; db_changes := f (db_changes d) |}.

Definition with_self (f : Translation -> Translation) (st : State) : State :=
  {| self := f (self st); _store := _store st; db := db st; repo := repo st;
     clock := clock st; events := events st |}.

Definition set_store_cache (s : option Store) (st : State) : State :=
  {| self := self st; _store := s; db := db st; repo := repo st;
     clock := clock st; events := events st |}.

Definition with_db (f : DB -> DB) (st : State) : State :=
  {| self := self st; _store := _store st; db := f (db st); repo := repo st;
     clock := clock st; events := events st |}.

Definition with_repo (f : Repo -> Repo) (st : State) : State :=
  {| self := self st; _store := _store st; db := db st; repo := f (repo st);
     clock := clock st; events := events st |}.

Definition set_clock (z : Z) (st : State) : State :=
  {| self := self st; _store := _store st; db := db st; repo := repo st;
     clock := z; events := events st |}.

Definition emit (e : Event) (st : State) : State :=
  {| self := self st; _store := _store st; db := db st; repo := repo st;
     clock := clock st; events := e :: events st |}.

(** Model instances compare by primary key. *)
Definition user_eqb (a b : User) : bool := user_pk a =? user_pk b.
Definition language_eqb (a b : Language) : bool := lang_pk a =? lang_pk b.
Definition project_eqb (a b : Project) : bool := project_pk a =? project_pk b.

Definition opt_language_eqb (a b : option Language) : bool :=
  match a, b with
  | Some x, Some y => language_eqb x y
  | None, None => true
  | _, _ => false
  end.

(** [author == last] on values that are a string or [None]. *)
Definition opt_string_eqb (a b : option string) : bool :=
  match a, b with
  | Some x, Some y => String.eqb x y
  | None, None => true
  | _, _ => false
  end.

Definition exn_eqb (a b : exn) : bool :=
  match a, b with
  | GitCommandError, GitCommandError | KeyError, KeyError | IOError, IOError
  | ValueError, ValueError | AttributeError, AttributeError
  | ZeroDivisionError, ZeroDivisionError => true
  | _, _ => false
  end.

(** Writing one entry of a finite map kept as a function. *)
Definition upd_path {A} (k : Path) (v : A) (f : Path -> A) : Path -> A :=
  fun k' => if path_eqb k k' then v else f k'.

(* ================================================================== *)
(** * The monad of methods: state and exceptions *)
(* ================================================================== *)

(** A method either returns a value or raises; both leave a state behind,
    since what was written before an exception stays written. *)
Inductive Result (A : Type) : Type :=
| Ok (a : A) (st : State)
| Raise (e : exn) (st : State).

Arguments Ok {A} a st.
Arguments Raise {A} e st.

Definition M (A : Type) : Type := State -> Result A.

Definition ret {A} (a : A) : M A := fun st => Ok a st.

Definition bind {A B} (m : M A) (k : A -> M B) : M B :=
  fun st =>
    match m st with
    | Ok a st' => k a st'
    | Raise e st' => Raise e st'
    end.

Definition raise {A} (e : exn) : M A := fun st => Raise e st.

(** [try: m except e: h]. *)
Definition try_except {A} (m : M A) (e : exn) (h : M A) : M A :=
  fun st =>
    match m st with
    | Ok a st' => Ok a st'
    | Raise e' st' => if exn_eqb e e' then h st' else Raise e' st'
    end.

(** [try: m finally: f], which is how a [with] block releases its lock. *)
Definition finally {A} (m : M A) (f : State -> State) : M A :=
  fun st =>
    match m st with
    | Ok a st' => Ok a (f st')
    | Raise e st' => Raise e (f st')
    end.

Definition gets {A} (f : State -> A) : M A := fun st => Ok (f st) st.
Definition modify (f : State -> State) : M unit := fun st => Ok tt (f st).

Declare Scope monad_scope.
Delimit Scope monad_scope with monad.
Notation "x <- m ;; k" := (bind m (fun x => k))
  (at level 61, m at next level, right associativity) : monad_scope.
Notation "m ;; k" := (bind m (fun _ => k))
  (at level 61, right associativity) : monad_scope.
Local Open Scope monad_scope.

(** [for x in xs: body(x)]. *)
Fixpoint for_each {A} (xs : list A) (body : A -> M unit) : M unit :=
  match xs with
  | [] => ret tt
  | x :: xs' => body x ;; for_each xs' body
  end.

(** A loop that carries a local variable. *)
Fixpoint for_fold {A B} (xs : list A) (acc : B) (body : B -> A -> M B) : M B :=
  match xs with
  | [] => ret acc
  | x :: xs' => acc' <- body acc x ;; for_fold xs' acc' body
  end.

(** Running every computation of a list in order and collecting the results. *)
Fixpoint sequence {A} (ms : list (M A)) : M (list A) :=
  match ms with
  | [] => ret []
  | m :: ms' => a <- m ;; rest <- sequence ms' ;; ret (a :: rest)
  end.

(** [obj.method(...)] on another object [t]: the method runs with [t] as its
    [self] and a fresh [_store] (the object came out of a query); afterwards
    the caller's own object is current again. *)
Definition call_on {A} (t : Translation) (m : M A) : M A :=
  fun st =>
    let restore st' := set_store_cache (_store st) (with_self (fun _ => self st) st') in
    match m (set_store_cache None (with_self (fun _ => t) st)) with
    | Ok a st' => Ok a (restore st')
    | Raise e st' => Raise e (restore st')
    end.

(* ================================================================== *)
(** * Python numbers *)
(* ================================================================== *)

(** [float(z)] of a Python int: the nearest double, ties to the even
    mantissa, at any magnitude ([binary_normalize] is the rounding of the
    Standard Library's specification of binary64). Python raises
    [OverflowError] for an int that rounds beyond the largest double, from
    [2^1024 - 2^970] on; there the conversion is modelled by an infinity,
    and statements about values are made inside [float_range]. *)
Definition float_of_Z (z : Z) : float :=
  SF2Prim (binary_normalize prec emax z 0 false).

(** The ints that Python converts to a float. *)
Definition float_range (z : Z) : Prop := Z.abs z < 2 ^ 1024 - 2 ^ 970.

(** [x / d] for a float [x] and an int [d]: Python raises
    [ZeroDivisionError] on a zero divisor instead of returning an infinity. *)
Definition py_div (x : float) (d : Z) : M float :=
  if d =? 0 then raise ZeroDivisionError else ret (PrimFloat.div x (float_of_Z d)).

(** [round(x, 1)] of CPython 2.7: the exact binary value of [x] is rounded to
    tenths, halves away from zero, and the double nearest to that decimal is
    returned ([SFdiv] rounds the exact quotient of the two integers once).
    A double at or above 2^52 in magnitude is already an integer; zeros,
    infinities and NaN round to themselves; a value that rounds to no tenth
    gives the zero of its sign. *)
Definition round1 (x : float) : float :=
  match Prim2SF x with
  | S754_finite s m e =>
      if 0 <=? e then x
      else
        match ((20 * Zpos m + 2 ^ (- e)) / 2 ^ (1 - e))%Z with
        | Zpos tenths =>
            SF2Prim (SFdiv prec emax (S754_finite s tenths 0) (S754_finite false 10 0))
        | _ => SF2Prim (S754_zero s)
        end
  | _ => x
  end.

(** [count * 100.0]. *)
Definition times_100 (count : Z) : float :=
  PrimFloat.mul (float_of_Z count) (float_of_Z 100).

(* ================================================================== *)
(** * The translate-toolkit store *)
(* ================================================================== *)

(** Index of the first element that satisfies [p]. *)
Fixpoint find_index {A} (p : A -> bool) (l : list A) : option nat :=
  match l with
  | [] => None
  | x :: l' => if p x then Some O else option_map S (find_index p l')
  end.

(** [l[i] = v]; the stores only write at an index they found. *)
Fixpoint set_nth {A} (i : nat) (v : A) (l : list A) : list A :=
  match l, i with
  | [], _ => []
  | _ :: l', O => v :: l'
  | x :: l', S j => x :: set_nth j v l'
  end.

(** Modelled from the spec: [Store.findById(id)] of the format adapter, the
    position of the unit with that id. *)
Definition findid (s : Store) (id : string) : option nat :=
  find_index (fun u => String.eqb (tu_id u) id) (store_units s).

(** Modelled from the spec: [Store.findBySource(text)] of the format adapter;
    the first structurally matching unit wins. *)
Definition findunit (s : Store) (src : string) : option nat :=
  find_index (fun u => String.eqb (tu_source u) src) (store_units s).

(** Modelled from the spec: [unit1.merge(unit2, overwrite=True,
    comments=False)] of the format adapter copies the target text and the
    fuzzy state of [unit2]; comments are not copied. *)
Definition unit_merge (unit1 unit2 : StoreUnit) : StoreUnit :=
  markfuzzy (tu_fuzzy unit2) (set_target (tu_target unit2) unit1).

(* ================================================================== *)
(** * The git repositories *)
(* ================================================================== *)

Definition set_config (sp : Z) (key value : string) (r : Repo) : Repo :=
  {| repo_tree := repo_tree r; repo_worktree := repo_worktree r;
     repo_config := fun sp' key' =>
       if (sp =? sp') && String.eqb key key' then Some value
       else repo_config r sp' key';
     repo_commits := repo_commits r; repo_busy := repo_busy r |}.

Definition set_worktree (p : Path) (s : Store) (r : Repo) : Repo :=
  {| repo_tree := repo_tree r;
     repo_worktree := upd_path p (Some s) (repo_worktree r);
     repo_config := repo_config r;
     repo_commits := repo_commits r; repo_busy := repo_busy r |}.

Definition pop_busy (r : Repo) : Repo :=
  {| repo_tree := repo_tree r; repo_worktree := repo_worktree r;
     repo_config := repo_config r;
     repo_commits := repo_commits r; repo_busy := tl (repo_busy r) |}.

(** What a successful [git commit <path>] leaves: HEAD holds the file as it
    is on disk, and the log has one more entry. *)
Definition record_commit (c : Commit) (r : Repo) : Repo :=
  {| repo_tree := upd_path (commit_path c) (repo_worktree r (commit_path c)) (repo_tree r);
     repo_worktree := repo_worktree r;
     repo_config := repo_config r;
     repo_commits := c :: repo_commits r; repo_busy := repo_busy r |}.

(** [gitrepo.git.commit(path, author=..., date=..., m=msg)]: the command
    fails with [GitCommandError] when the environment says the repository is
    busy, and commits the file otherwise. *)
Definition git_cmd_commit (p : Path) (author : string) (date : Z)
    (msg : CommitMessage) : M unit :=
  fun st =>
    match repo_busy (repo st) with
    | true :: _ => Raise GitCommandError (with_repo pop_busy st)
    | _ =>
        let c := {| commit_path := p; commit_author := author; commit_date := date;
                    commit_msg := msg;
                    commit_blob :=
                      match repo_worktree (repo st) p with
                      | Some s => s
                      | None => {| store_units := []; store_poheader := false |}
                      end |} in
        Ok tt (with_repo (fun r => record_commit c (pop_busy r)) st)
    end.

(** [tree[name]]: a missing entry is a [KeyError]. *)
Definition tree_lookup (p : Path) : M Store :=
  fun st =>
    match repo_tree (repo st) p with
    | Some s => Ok s st
    | None => Raise KeyError st
    end.

(** [ttkit(filename, file_format)] on a file of the working tree. *)
Definition ttkit_file (p : Path) : M Store :=
  fun st =>
    match repo_worktree (repo st) p with
    | Some s => Ok s st
    | None => Raise IOError st
    end.

(* ================================================================== *)
(** * A small installation *)
(* ================================================================== *)

(** Concrete data the general statements are run on: one project with a
    German and a French translation, two users, and the default settings of
    Weblate (explicit locks last 15 minutes, automatic ones a minute). *)

Definition default_settings : AppSettings :=
  {| LOCK_TIME := 900; AUTO_LOCK_TIME := 60; AUTO_LOCK := true; LAZY_COMMITS := true |}.

Definition alice : User :=
  {| user_pk := 1; username := "alice"; user_full_name := "Alice A";
     user_email := "alice@example.org" |}.

Definition bob : User :=
  {| user_pk := 2; username := "bob"; user_full_name := "";
     user_email := "bob@example.org" |}.

Definition german : Language := {| lang_pk := 1; lang_code := "de"; lang_name := "German" |}.
Definition french : Language := {| lang_pk := 2; lang_code := "fr"; lang_name := "French" |}.

Definition hello_project : Project :=
  {| project_pk := 1; project_name := "hello"; commit_message := "Translated using Weblate.";
     committer_name := "Weblate"; committer_email := "noreply@weblate.org";
     push_on_commit := false |}.

Definition hello_main : SubProject :=
  {| subproject_pk := 1; subproject_name := "main"; project := hello_project;
     template := ""; file_format := "po"; allow_translation_propagation := true |}.

Definition hello_de : Translation :=
  {| pk := 1; subproject := hello_main; language := german; revision := "";
     filename := "po/de.po"; translated := 0; fuzzy := 0; total := 0;
     language_code := "de"; lock_user := None; lock_time := 0 |}.

Definition hello_fr : Translation :=
  {| pk := 2; subproject := hello_main; language := french; revision := "";
     filename := "po/fr.po"; translated := 0; fuzzy := 0; total := 0;
     language_code := "fr"; lock_user := None; lock_time := 0 |}.

Definition empty_db : DB :=
  {| db_translations := [hello_de; hello_fr]; db_units := []; db_checks := [];
     db_suggestions := []; db_comments := []; db_changes := [] |}.

Definition empty_repo : Repo :=
  {| repo_tree := fun _ => None; repo_worktree := fun _ => None;
     repo_config := fun _ _ => None; repo_commits := []; repo_busy := [] |}.

Definition fresh_state : State :=
  {| self := hello_de; _store := None; db := empty_db; repo := empty_repo;
     clock := 0; events := [] |}.

(** Stand-ins for what lives outside [translation.py]. *)

(** A blob hash that tells any two of the stores below apart. *)
Definition demo_hexsha (s : Store) : string :=
  fold_right (fun u acc =>
                (tu_id u ++ "=" ++ tu_target u ++ (if tu_fuzzy u then "~" else "")
                 ++ ";" ++ acc)%string)
             "" (store_units s).

Definition demo_checksum (src ctx : string) : string := (src ++ "|" ++ ctx)%string.

Definition demo_istranslated (u : StoreUnit) : bool :=
  negb (String.eqb (tu_target u) "") && negb (tu_fuzzy u).

Definition demo_is_translatable (u : StoreUnit) : bool := negb (tu_header u).

(** The unit index keeps one row per translation and checksum. *)
Definition demo_update_from_unit (s : Translation) (unit : option StoreUnit) (pos : Z)
    (template_unit : option StoreUnit) (d : DB) : (Unit * bool) * DB :=
  let src :=
    match template_unit, unit with
    | Some t, _ => (tu_source t, tu_context t)
    | None, Some u => (tu_source u, tu_context u)
    | None, None => ("", "")
    end in
  let checksum := demo_checksum (fst src) (snd src) in
  let row id :=
    {| unit_id := id; unit_translation := s; unit_checksum := checksum;
       unit_position := pos;
       unit_translated := match unit with Some u => demo_istranslated u | None => false end;
       unit_fuzzy := match unit with Some u => tu_fuzzy u | None => false end |} in
  match find (fun u => (pk (unit_translation u) =? pk s)
                       && String.eqb (unit_checksum u) checksum) (db_units d) with
  | Some old =>
      (row (unit_id old), false,
       with_units (map (fun u => if unit_id u =? unit_id old then row (unit_id old) else u)) d)
  | None =>
      let id := 1 + fold_right Z.max 0 (map unit_id (db_units d)) in
      (row id, true, with_units (fun us => (us ++ [row id])%list) d)
  end.

(** A re-check that withdraws the consistency failures of the unit's
    checksum. *)
Definition demo_unit_check (u : Unit) (rows : list DepRow) : list DepRow :=
  filter (fun r => negb (String.eqb (dep_checksum r) (unit_checksum u)
                         && String.eqb (dep_payload r) "inconsistent")) rows.

Definition demo_mergeheaders (s1 s2 : Store) : Store := s1.

Definition demo_is_content (c : Change) : bool :=
  match change_action c, change_user c with
  | ACTION_CHANGE, Some _ | ACTION_NEW, Some _ => true
  | _, _ => false
  end.

Definition demo_count_type (check : string) (s : Translation) (d : DB) : Z :=
  Z.of_nat (List.length
    (filter (fun r => String.eqb (dep_payload r) check
                      && project_eqb (dep_project r) (project (subproject s)))
            (db_checks d))).

Definition demo_subscribers (p : Project) (l : Language) : list Z :=
  if lang_pk l =? 1 then [7] else [].

(** Files of the German translation: as committed, and after an edit. *)
Definition hello_unit (target : string) (is_fuzzy : bool) (note : string) : StoreUnit :=
  {| tu_id := "hello"; tu_source := "Hello"; tu_context := ""; tu_target := target;
     tu_fuzzy := is_fuzzy; tu_header := false; tu_comments := [note] |}.

Definition bye_unit (target : string) : StoreUnit :=
  {| tu_id := "bye"; tu_source := "Goodbye"; tu_context := ""; tu_target := target;
     tu_fuzzy := false; tu_header := false; tu_comments := [] |}.

Definition de_store : Store :=
  {| store_units := [hello_unit "Hallo" false "greeting"; bye_unit ""];
     store_poheader := true |}.

Definition de_store_edited : Store :=
  {| store_units := [hello_unit "Hallo!" false "greeting"; bye_unit "Tschuess"];
     store_poheader := true |}.

Definition de_store_without_hello : Store :=
  {| store_units := [bye_unit ""]; store_poheader := true |}.

Definition fr_store : Store :=
  {| store_units := [hello_unit "Bonjour" false "greeting"]; store_poheader := true |}.

Definition upload_store : Store :=
  {| store_units := [hello_unit "Servus" true "uploaded"; bye_unit "Servus"];
     store_poheader := true |}.

Definition demo_ttkit (fileobj : string) (format : option string) : option Store :=
  if String.eqb fileobj "upload.po" then Some upload_store else None.

Definition files (de fr : Store) : Path -> option Store :=
  fun p => if path_eqb p (1, "po/de.po") then Some de
           else if path_eqb p (1, "po/fr.po") then Some fr
           else None.

(** A repository in which the German file was edited after the last commit;
    [script] says which of the coming git commands are refused. *)
Definition edited_repo (script : list bool) : Repo :=
  {| repo_tree := files de_store fr_store;
     repo_worktree := files de_store_edited fr_store;
     repo_config := fun _ _ => None; repo_commits := []; repo_busy := script |}.

Definition clean_repo (de : Store) : Repo :=
  {| repo_tree := files de fr_store; repo_worktree := files de fr_store;
     repo_config := fun _ _ => None; repo_commits := []; repo_busy := [] |}.

(** The unit index with the greeting in both languages, and rows of every
    dependent table under the greeting's checksum. *)
Definition hello_row (l : option Language) (payload : string) : DepRow :=
  {| dep_project := hello_project; dep_language := l; dep_checksum := "Hello|";
     dep_payload := payload; dep_user := Some alice |}.

Definition indexed_db : DB :=
  {| db_translations := [hello_de; hello_fr];
     db_units :=
       [ {| unit_id := 1; unit_translation := hello_de; unit_checksum := "Hello|";
            unit_position := 1; unit_translated := true; unit_fuzzy := false |};
         {| unit_id := 2; unit_translation := hello_fr; unit_checksum := "Hello|";
            unit_position := 1; unit_translated := true; unit_fuzzy := false |} ];
     db_checks := [hello_row (Some german) "same"; hello_row None "plurals"];
     db_suggestions := [hello_row (Some german) "Servus"];
     db_comments := [hello_row (Some german) "too formal?"; hello_row None "context?"];
     db_changes :=
       [ {| change_translation := 1; change_action := ACTION_UPDATE;
            change_user := None; change_timestamp := 50 |};
         {| change_translation := 1; change_action := ACTION_CHANGE;
            change_user := Some bob; change_timestamp := 40 |} ] |}.

(** Bob has edited the German file; his change is not committed yet. *)
Definition edited_state (script : list bool) : State :=
  {| self := hello_de; _store := None; db := indexed_db; repo := edited_repo script;
     clock := 100; events := [] |}.

(** The greeting has gone from the German file, which is committed. *)
Definition shrunk_state : State :=
  {| self := hello_de; _store := None; db := indexed_db;
     repo := clean_repo de_store_without_hello; clock := 100; events := [] |}.

(** The authors as [get_author_name] formats them. *)
Definition alice_name : string := "Alice A <alice@example.org>".
Definition bob_name : string := "bob <bob@example.org>".


(* ================================================================== *)
(** * The upload view: requests and responses *)
(* ================================================================== *)

(** What [upload_translation] reads of the HTTP request: who asks, the
    method, the uploaded file and the posted form fields. *)
Record UploadRequest := {
  upload_request : Request;
  upload_http_method : string;
  upload_file : string;
  post_overwrite : bool;
  post_author_name : string;
  post_author_email : string;
  post_merge_header : bool;
  post_method : string
}.

(** The three form classes of [trans.forms] the view chooses from. *)
Inductive FormClass := ExtraUploadForm | UploadForm | SimpleUploadForm.

(** The messages the view leaves for the user. *)
Inductive Message :=
| MsgAccessDenied
| MsgFormErrors
| MsgMerged
| MsgNoNewStrings
| MsgMergeFailed (text : string).

(** The view answers with a redirect: to the login page when a decorator
    turns the request away, else to the translation, with a message. *)
Inductive HttpResponse :=
| RedirectToLogin
| RedirectToTranslation (message : Message).

(* ================================================================== *)
(** * The registry of checks ([trans.checks]) *)
(* ================================================================== *)

(** [s.rfind(c)]: the index of the last [c] in [s], or -1; [pos] is the
    index of the first character of [s] in the whole string. *)
Fixpoint rfind_from (c : Ascii.ascii) (s : string) (pos : Z) : Z :=
  match s with
  | EmptyString => -1
  | String a s' =>
      let later := rfind_from c s' (pos + 1) in
      if 0 <=? later then later
      else if Ascii.eqb a c then pos else -1
  end.

Definition rfind (s : string) (c : Ascii.ascii) : Z := rfind_from c s 0.

(** Where a slice bound falls: a negative index counts from the end, and
    the result is clipped to the string. *)
Definition slice_index (s : string) (i : Z) : nat :=
  let len := Z.of_nat (String.length s) in
  Z.to_nat (Z.max 0 (Z.min len (if i <? 0 then len + i else i))).

(** [s[:i]] and [s[j:]]. *)
Definition slice_to (s : string) (i : Z) : string :=
  substring 0 (slice_index s i) s.

Definition slice_from (s : string) (j : Z) : string :=
  substring (slice_index s j) (String.length s - slice_index s j) s.

(** [i = path.rfind('.'); module, attr = path[:i], path[i + 1:]]. *)
Definition split_path (path : string) : string * string :=
  let i := rfind path "."%char in
  (slice_to path i, slice_from path (i + 1)).

(** A check class: its id and what the filter lists read of it. *)
Record CheckClass := {
  check_id : string;
  check_source : bool;
  check_target : bool;
  check_description : string
}.

(** [ImproperlyConfigured], with what its two messages name. *)
Inductive LoadError :=
| ErrorImporting (module : string)
| NoSuchCheck (module attr : string).

(** The dict [CHECKS], newest entry first; a lookup takes the first entry
    of the key, so that assigning to a key replaces its value. *)
Definition Registry := list (string * CheckClass).

Fixpoint registry_get (id : string) (r : Registry) : option CheckClass :=
  match r with
  | [] => None
  | (k, cls) :: r' => if String.eqb k id then Some cls else registry_get id r'
  end.

(** One round of the loop: the module is imported and the attribute
    fetched; each may fail. [importer] is what [__import__] finds. *)
Definition resolve (importer : string -> option (string -> option CheckClass))
    (path : string) : LoadError + CheckClass :=
  let '(module, attr) := split_path path in
  match importer module with
  | None => inl (ErrorImporting module)
  | Some mod_ =>
      match mod_ attr with
      | None => inl (NoSuchCheck module attr)
      | Some cls => inr cls
      end
  end.

(** The loop over [appsettings.CHECK_LIST]; an exception ends it. *)
Fixpoint load_checks (importer : string -> option (string -> option CheckClass))
    (check_list : list string) (CHECKS : Registry) : LoadError + Registry :=
  match check_list with
  | [] => inr CHECKS
  | path :: rest =>
      match resolve importer path with
      | inl e => inl e
      | inr cls => load_checks importer rest ((check_id cls, cls) :: CHECKS)
      end
  end.

(** The character occurs in the string. *)
Fixpoint occurs (c : Ascii.ascii) (s : string) : bool :=
  match s with
  | EmptyString => false
  | String a s' => Ascii.eqb a c || occurs c s'
  end.

(** The classes of a list of paths, if every path resolves. *)
Fixpoint resolve_all (importer : string -> option (string -> option CheckClass))
    (check_list : list string) : LoadError + list CheckClass :=
  match check_list with
  | [] => inr []
  | path :: rest =>
      match resolve importer path with
      | inl e => inl e
      | inr cls =>
          match resolve_all importer rest with
          | inl e => inl e
          | inr classes => inr (cls :: classes)
          end
      end
  end.

(* ================================================================== *)
(** * Edits of a single unit *)
(* ================================================================== *)

(** What [update_unit] reads of the unit of the index it is given:
    [unit.get_source_plurals()[0]], [unit.context], [unit.target] and
    [unit.fuzzy]. The target is one string in the index also for plurals,
    joined the way [get_target] joins the plurals of a unit of the file, so
    that both [settarget] calls of the method amount to the same. *)
Record UnitEdit := {
  edit_source : string;
  edit_context : string;
  edit_target : string;
  edit_fuzzy : bool
}.

(** The unit of the file that an edit is about: the unit at a position of
    the store, or a unit of the template that the store does not have
    yet. *)
Inductive Located :=
| InStore (i : nat) (pounit : StoreUnit)
| FromTemplate (pounit : StoreUnit).

Definition located_unit (l : Located) : StoreUnit :=
  match l with
  | InStore _ pounit => pounit
  | FromTemplate pounit => pounit
  end.

(** The positions of the elements that satisfy [p], from position [i] on. *)
Fixpoint positions {A} (p : A -> bool) (l : list A) (i : nat) : list nat :=
  match l with
  | [] => []
  | x :: l' => if p x then i :: positions p l' (S i) else positions p l' (S i)
  end.

(** Modelled from the translate-toolkit API as the code uses it:
    [store.findunits(source)], all units of that source, by position. *)
Definition findunits (s : Store) (src : string) : list nat :=
  positions (fun u => String.eqb (tu_source u) src) (store_units s) 0.

(** The first of the given positions whose unit satisfies [p]: a loop with
    [break]. *)
Fixpoint first_at (p : StoreUnit -> bool) (units : list StoreUnit) (found : list nat)
    : option Located :=
  match found with
  | [] => None
  | i :: found' =>
      match nth_error units i with
      | Some u => if p u then Some (InStore i u) else first_at p units found'
      | None => first_at p units found'
      end
  end.

(** The unit with the edit applied: [settarget] and [markfuzzy]. *)
Definition apply_edit (edit : UnitEdit) (pounit : StoreUnit) : StoreUnit :=
  markfuzzy (edit_fuzzy edit) (set_target (edit_target edit) pounit).

(** The store after the edited unit was written back in place, or added
    with [store.addunit] when it came from the template. *)
Definition edited_store (edit : UnitEdit) (l : Located) (store : Store) : Store :=
  match l with
  | InStore i pounit =>
      set_store_units (set_nth i (apply_edit edit pounit) (store_units store)) store
  | FromTemplate pounit =>
      set_store_units (store_units store ++ [apply_edit edit pounit])%list store
  end.

(** [unit.target != get_target(pounit) or unit.fuzzy != pounit.isfuzzy()]. *)
Definition edit_changes (edit : UnitEdit) (pounit : StoreUnit) : bool :=
  negb (String.eqb (edit_target edit) (tu_target pounit))
  || negb (Bool.eqb (edit_fuzzy edit) (tu_fuzzy pounit)).

(** Two more components of the project with a German translation each: the
    documentation takes part in the propagation of translations, the web
    site does not. All three German files hold the farewell. *)
Definition hello_docs : SubProject :=
  {| subproject_pk := 2; subproject_name := "docs"; project := hello_project;
     template := ""; file_format := "po"; allow_translation_propagation := true |}.

Definition hello_web : SubProject :=
  {| subproject_pk := 3; subproject_name := "web"; project := hello_project;
     template := ""; file_format := "po"; allow_translation_propagation := false |}.

Definition docs_de : Translation :=
  {| pk := 3; subproject := hello_docs; language := german; revision := "";
     filename := "po/de.po"; translated := 0; fuzzy := 0; total := 0;
     language_code := "de"; lock_user := None; lock_time := 0 |}.

Definition web_de : Translation :=
  {| pk := 4; subproject := hello_web; language := german; revision := "";
     filename := "po/de.po"; translated := 0; fuzzy := 0; total := 0;
     language_code := "de"; lock_user := None; lock_time := 0 |}.

Definition bye_store : Store :=
  {| store_units := [bye_unit ""]; store_poheader := true |}.

Definition component_files : Path -> option Store :=
  fun p => if path_eqb p (1, "po/de.po") then Some de_store
           else if path_eqb p (1, "po/fr.po") then Some fr_store
           else if path_eqb p (2, "po/de.po") then Some bye_store
           else if path_eqb p (3, "po/de.po") then Some bye_store
           else None.

(** Everything is committed; the request is made on the German translation
    of the main component. *)
Definition components_state : State :=
  {| self := hello_de; _store := None;
     db := with_translations (fun _ => [hello_de; hello_fr; docs_de; web_de]) indexed_db;
     repo := {| repo_tree := component_files; repo_worktree := component_files;
                repo_config := fun _ _ => None; repo_commits := []; repo_busy := [] |};
     clock := 100; events := [] |}.

(** A parser that never detects the format of a file and reads
    ["upload.txt"] when it is told to read it as PO. *)
Definition demo_ttkit_by_format (fileobj : string) (format : option string)
    : option Store :=
  match format with
  | Some f =>
      if String.eqb fileobj "upload.txt" && String.eqb f "po"
      then Some upload_store else None
  | None => None
  end.

(** Bob's lock on the German translation ran out at 50; the object in
    memory has counted five strings that its row does not have yet. *)
Definition stale_state : State :=
  {| self := set_counts 5 0 0 (set_lock_time 50 (set_lock_user (Some bob) hello_de));
     _store := None; db := indexed_db; repo := edited_repo [];
     clock := 100; events := [] |}.

(* ================================================================== *)
(** * The methods of [Translation] *)
(* ================================================================== *)

Section Weblate.

(** What the methods consult outside [translation.py]: the settings, git's
    blob hash, the helpers of [trans.util], the unit index, the check
    subsystem, the upload parser, the audit manager and the subscribers. *)
Variable appsettings : AppSettings.
Variable hexsha : Store -> string.
Variable msg_checksum : string -> string -> string.
Variable istranslated : StoreUnit -> bool.
Variable is_translatable : StoreUnit -> bool.
Variable update_from_unit :
  Translation -> option StoreUnit -> Z -> option StoreUnit -> DB -> (Unit * bool) * DB.
Variable unit_check : Unit -> list DepRow -> list DepRow.
Variable ttkit_fileobj : string -> option string -> option Store.
Variable mergeheaders : Store -> Store -> Store.
Variable is_content : Change -> bool.
Variable count_type : string -> Translation -> DB -> Z.
Variable subscribed_new_string : Project -> Language -> list Z.
Variable CHECKS : list string.
(** [SubProject.locked], the lock of the whole subproject. *)
Variable locked : SubProject -> bool.
(** [store.updateheader(...)] as [update_unit] calls it, for an author, a
    translation and a time. *)
Variable updateheader : string -> Translation -> Z -> Store -> Store.
(** [CHECKS[check]], the registered class of a check id. *)
Variable check_of : string -> CheckClass.
(** The authentication backend and the forms, as [trans.views.files] uses
    them. *)
Variable is_authenticated : User -> bool.
Variable has_perm : User -> string -> bool.
Variable form_is_valid : FormClass -> UploadRequest -> bool.
(** [unicode(e)], the text of an exception as the view puts it into its
    message; [None] where the conversion itself raises, as it does on a
    message of bytes outside ASCII. *)
Variable unicode_text : exn -> option string.

(** [self.save()]: the row with the object's primary key is rewritten, or
    inserted when there is none. *)
Definition save_row (t : Translation) (rows : list Translation) : list Translation :=
  if existsb (fun r => pk r =? pk t) rows
  then map (fun r => if pk r =? pk t then t else r) rows
  else rows ++ [t].

Definition save : M unit :=
  modify (fun st => with_db (with_translations (save_row (self st))) st).

(** [self.unit_set]. *)
Definition unit_set (t : Translation) (d : DB) : list Unit :=
  filter (fun u => pk (unit_translation u) =? pk t) (db_units d).

(** ** Statistics *)

Definition get_fuzzy_percent : M PyNum :=
  s <- gets self ;;
  if total s =? 0 then ret (PyInt 0)
  else x <- py_div (times_100 (fuzzy s)) (total s) ;; ret (PyFloat (round1 x)).

Definition get_translated_percent : M PyNum :=
  s <- gets self ;;
  if total s =? 0 then ret (PyInt 0)
  else x <- py_div (times_100 (translated s)) (total s) ;; ret (PyFloat (round1 x)).

Definition get_failing_checks (check : string) : M Z :=
  gets (fun st => count_type check (self st) (db st)).

Definition get_failing_checks_percent (check : string) : M PyNum :=
  s <- gets self ;;
  if total s =? 0 then ret (PyInt 0)
  else
    n <- get_failing_checks check ;;
    x <- py_div (times_100 n) (total s) ;; ret (PyFloat (round1 x)).

(** ** Soft lock *)

Definition update_lock_time (explicit is_new : bool) : M unit :=
  let seconds := if explicit then LOCK_TIME appsettings
                 else AUTO_LOCK_TIME appsettings in
  now <- gets clock ;;
  let new_lock_time := now + seconds in
  s <- gets self ;;
  (if is_new || (lock_time s <? new_lock_time)
   then modify (with_self (set_lock_time new_lock_time))
   else ret tt) ;;
  save.

Definition create_lock (user : option User) (explicit : bool) : M unit :=
  s <- gets self ;;
  let is_new := match lock_user s with None => true | Some _ => false end in
  modify (with_self (set_lock_user user)) ;;
  match user with
  | None =>
      now <- gets clock ;;
      modify (with_self (set_lock_time now)) ;;
      save
  | Some _ => update_lock_time explicit is_new
  end.

(** [is_user_locked(request, multi=True)]: the pair (locked by another user,
    own lock). An expired lock is cleared on the way. *)
Definition is_user_locked_multi (request : option Request) : M (bool * bool) :=
  s <- gets self ;;
  now <- gets clock ;;
  match lock_user s with
  | None => ret (false, false)
  | Some holder =>
      if lock_time s <? now then
        create_lock None false ;; ret (false, false)
      else
        match request with
        | Some r =>
            if user_eqb holder (request_user r) then ret (false, true)
            else ret (true, false)
        | None => ret (true, false)
        end
  end.

(** [is_user_locked(request)] with [multi=False] returns [result[0]]. *)
Definition is_user_locked (request : option Request) : M bool :=
  r <- is_user_locked_multi request ;; ret (fst r).

(** [is_locked(request, multi=True)]: the project lock is read first, then
    the user lock is queried. *)
Definition is_locked_multi (request : option Request) : M (bool * bool * bool) :=
  s <- gets self ;;
  let prj_lock := locked (subproject s) in
  r <- is_user_locked_multi request ;;
  ret (prj_lock, fst r, snd r).

(** [is_locked(request)] with [multi=False] returns [prj_lock or usr_lock]. *)
Definition is_locked (request : option Request) : M bool :=
  r <- is_locked_multi request ;;
  let '(prj_lock, usr_lock, _) := r in
  ret (prj_lock || usr_lock).

(** [update_lock(request)]: both calls leave their arguments at the defaults,
    [is_user_locked()] and [update_lock_time()], that is [request=None],
    [explicit=False] and [is_new=True]. *)
Definition update_lock (request : Request) : M unit :=
  locked <- is_user_locked None ;;
  if locked then update_lock_time false true
  else if AUTO_LOCK appsettings then create_lock (Some (request_user request)) false
  else ret tt.

(** ** The file and its revision *)

Definition get_filename (t : Translation) : Path :=
  (subproject_pk (subproject t), filename t).

Definition get_store : M Store :=
  cached <- gets _store ;;
  match cached with
  | Some s => ret s
  | None =>
      s <- gets self ;;
      store <- ttkit_file (get_filename s) ;;
      modify (set_store_cache (Some store)) ;;
      ret store
  end.

(** Modelled from the spec: [SubProject.has_template] and
    [SubProject.get_template_store]; a project may declare a template file,
    whose store is then read next to the translation's own. *)
Definition has_template (sp : SubProject) : bool :=
  negb (String.eqb (template sp) "").

Definition get_template_store : M (option Store) :=
  s <- gets self ;;
  if has_template (subproject s) then
    t <- ttkit_file (subproject_pk (subproject s), template (subproject s)) ;;
    ret (Some t)
  else ret None.

Definition get_git_blob_hash : M string :=
  s <- gets self ;;
  blob <- tree_lookup (get_filename s) ;;
  let ret_ := hexsha blob in
  if has_template (subproject s) then
    tblob <- tree_lookup (subproject_pk (subproject s), template (subproject s)) ;;
    ret (ret_ ++ "," ++ hexsha tblob)%string
  else ret ret_.

Definition store_hash : M unit :=
  blob_hash <- get_git_blob_hash ;;
  modify (with_self (set_revision blob_hash)) ;;
  save.

Definition update_stats : M unit :=
  s <- gets self ;;
  d <- gets db ;;
  let units := unit_set s d in
  modify (with_self (set_counts
    (Z.of_nat (List.length units))
    (Z.of_nat (List.length (filter unit_fuzzy units)))
    (Z.of_nat (List.length (filter unit_translated units))))) ;;
  save ;;
  store_hash.

(** ** Authors and the audit trail *)

(** [user] is [None] for a change of the system itself, which has no
    [get_full_name]. *)
Definition get_author_name (user : option User) (email : bool) : M string :=
  match user with
  | None => raise AttributeError
  | Some u =>
      let full_name :=
        if String.eqb (user_full_name u) "" then username u else user_full_name u in
      if negb email then ret full_name
      else ret (full_name ++ " <" ++ user_email u ++ ">")%string
  end.

(** [Change.objects.content().filter(translation=self)], newest first. *)
Definition content_changes (st : State) : list Change :=
  filter (fun c => is_content c && (change_translation c =? pk (self st)))
         (db_changes (db st)).

Definition get_last_author (email : bool) : M (option string) :=
  changes <- gets content_changes ;;
  match changes with
  | change :: _ => name <- get_author_name (change_user change) email ;; ret (Some name)
  | [] => ret None
  end.

Definition get_last_change : M (option Z) :=
  changes <- gets content_changes ;;
  match changes with
  | change :: _ => ret (Some (change_timestamp change))
  | [] => ret None
  end.

(** ** Committing *)

Definition get_commit_message : M CommitMessage :=
  s <- gets self ;;
  fuzzy_percent <- get_fuzzy_percent ;;
  translated_percent <- get_translated_percent ;;
  ret {| msg_template := commit_message (project (subproject s));
         msg_language := language_code s;
         msg_language_name := lang_name (language s);
         msg_subproject := subproject_name (subproject s);
         msg_project := project_name (project (subproject s));
         msg_total := total s;
         msg_fuzzy := fuzzy s;
         msg_fuzzy_percent := fuzzy_percent;
         msg_translated := translated s;
         msg_translated_percent := translated_percent |}.

(** The value is read and, unless it already is the expected one, written. *)
Definition __configure_git (section key expected : string) : M unit :=
  s <- gets self ;;
  let sp := subproject_pk (subproject s) in
  let name := (section ++ "." ++ key)%string in
  value <- gets (fun st => repo_config (repo st) sp name) ;;
  if opt_string_eqb value (Some expected) then ret tt
  else modify (with_repo (set_config sp name expected)).

Definition __configure_committer : M unit :=
  s <- gets self ;;
  __configure_git "user" "name" (committer_name (project (subproject s))) ;;
  __configure_git "user" "email" (committer_email (project (subproject s))).

(** [timestamp] is [None] when [get_last_change] found no change; calling
    [isoformat] on it is then an [AttributeError]. *)
Definition __git_commit (author : string) (timestamp : option Z) (sync : bool) : M unit :=
  __configure_committer ;;
  msg <- get_commit_message ;;
  s <- gets self ;;
  date <- match timestamp with Some t => ret t | None => raise AttributeError end ;;
  git_cmd_commit (get_filename s) author date msg ;;
  if sync then store_hash else ret tt.

(** [git status --porcelain -- filename] prints nothing exactly when the
    file on disk is the blob of HEAD. *)
Definition git_needs_commit : M bool :=
  s <- gets self ;;
  r <- gets repo ;;
  match repo_worktree r (get_filename s), repo_tree r (get_filename s) with
  | Some w, Some h => ret (negb (String.eqb (hexsha w) (hexsha h)))
  | None, None => ret false
  | _, _ => ret true
  end.

Definition sleep_while_git_locked : M unit := modify (emit EvSleep).

(** [with self.subproject.get_git_lock(): body]. *)
Definition with_git_lock {A} (body : M A) : M A :=
  s <- gets self ;;
  let sp := subproject_pk (subproject s) in
  modify (emit (EvGitLockAcquire sp)) ;;
  finally body (emit (EvGitLockRelease sp)).

Definition do_push : M unit :=
  s <- gets self ;;
  modify (emit (EvPush (subproject_pk (subproject s)))).

Definition git_commit (author : string) (timestamp : option Z)
    (force_commit sync skip_push : bool) : M bool :=
  needs <- git_needs_commit ;;
  if negb needs then ret false
  else if negb force_commit && LAZY_COMMITS appsettings then ret false
  else
    with_git_lock
      (try_except (__git_commit author timestamp sync) GitCommandError
         (sleep_while_git_locked ;; __git_commit author timestamp sync)) ;;
    s <- gets self ;;
    (if push_on_commit (project (subproject s)) && negb skip_push
     then do_push else ret tt) ;;
    ret true.

Definition commit_pending (author : option string) (skip_push : bool) : M unit :=
  last <- get_last_author true ;;
  match last with
  | None => ret tt
  | Some last_author =>
      if opt_string_eqb author last then ret tt
      else
        timestamp <- get_last_change ;;
        git_commit last_author timestamp true true skip_push ;;
        ret tt
  end.

(** ** Synchronising the unit index with the file *)

(** [Unit.objects.update_from_unit(self, unit, pos, template)] works on the
    database and returns the row and whether it is new. *)
Definition Unit_update_from_unit (unit : option StoreUnit) (pos : Z)
    (template_unit : option StoreUnit) : M (Unit * bool) :=
  fun st =>
    let '(r, d') := update_from_unit (self st) unit pos template_unit (db st) in
    Ok r (with_db (fun _ => d') st).

(** The body shared by both loops: [was_new], [pos] and [oldunits] are the
    local variables the loop updates. *)
Definition sync_unit (unit template_unit : option StoreUnit)
    (acc : bool * Z * set Z) : M (bool * Z * set Z) :=
  let '(was_new, pos, oldunits) := acc in
  r <- Unit_update_from_unit unit pos template_unit ;;
  let '(newunit, is_new) := r in
  ret (was_new || (is_new && negb (unit_translated newunit)),
       pos + 1,
       set_remove Z.eq_dec (unit_id newunit) oldunits).

Definition sync_units (store : Store) (template_store : option Store)
    (oldunits : set Z) : M (bool * Z * set Z) :=
  match template_store with
  | None =>
      for_fold (store_units store) (false, 1, oldunits)
        (fun acc unit =>
           if negb (is_translatable unit) then ret acc
           else sync_unit (Some unit) None acc)
  | Some tstore =>
      for_fold (store_units tstore) (false, 1, oldunits)
        (fun acc template_unit =>
           if negb (is_translatable template_unit) then ret acc
           else
             let unit :=
               match findid store (tu_id template_unit) with
               | Some i => nth_error (store_units store) i
               | None => None
               end in
             sync_unit unit (Some template_unit) acc)
  end.

(** A row of [Check], [Suggestion] or [Comment] matched by
    [filter(project=p, language=l, checksum=c)]. *)
Definition dep_key (p : Project) (l : option Language) (c : string) (r : DepRow) : bool :=
  project_eqb (dep_project r) p
  && opt_language_eqb (dep_language r) l
  && String.eqb (dep_checksum r) c.

(** [Model.objects.filter(project=p, language=l, checksum=c).delete()]. *)
Definition delete_rows (p : Project) (l : option Language) (c : string)
    (rows : list DepRow) : list DepRow :=
  filter (fun r => negb (dep_key p l c r)) rows.

(** [Unit.objects.filter(translation__language=self.language,
    translation__subproject__project=self.subproject.project,
    checksum=checksum)]. *)
Definition units_in_language (s : Translation) (checksum : string) (d : DB) : list Unit :=
  filter (fun u =>
            language_eqb (language (unit_translation u)) (language s)
            && project_eqb (project (subproject (unit_translation u)))
                           (project (subproject s))
            && String.eqb (unit_checksum u) checksum)
         (db_units d).

(** [Unit.objects.filter(translation__subproject__project=
    self.subproject.project, checksum=checksum)]. *)
Definition units_in_project (s : Translation) (checksum : string) (d : DB) : list Unit :=
  filter (fun u =>
            project_eqb (project (subproject (unit_translation u)))
                        (project (subproject s))
            && String.eqb (unit_checksum u) checksum)
         (db_units d).

(** One round of the loop over [deleted_checksums]. *)
Definition cleanup_checksum (checksum : string) : M unit :=
  s <- gets self ;;
  d <- gets db ;;
  let prj := project (subproject s) in
  let units := units_in_language s checksum d in
  match units with
  | [] =>
      modify (with_db (with_checks (delete_rows prj (Some (language s)) checksum))) ;;
      modify (with_db (with_suggestions (delete_rows prj (Some (language s)) checksum))) ;;
      modify (with_db (with_comments (delete_rows prj (Some (language s)) checksum))) ;;
      d' <- gets db ;;
      match units_in_project s checksum d' with
      | [] =>
          modify (with_db (with_comments (delete_rows prj None checksum))) ;;
          modify (with_db (with_checks (delete_rows prj None checksum)))
      | _ :: _ => ret tt
      end
  | _ :: _ =>
      for_each units (fun unit => modify (with_db (with_checks (unit_check unit))))
  end.

(** [Unit.objects.filter(translation=self, id__in=oldunits)]. *)
Definition units_to_delete (s : Translation) (oldunits : set Z) (u : Unit) : bool :=
  (pk (unit_translation u) =? pk s) && set_mem Z.eq_dec (unit_id u) oldunits.

(** The unused units are deleted and the checks of their checksums cleaned
    up; the checksums are read before the rows go. *)
Definition delete_unused (oldunits : set Z) : M unit :=
  s <- gets self ;;
  d <- gets db ;;
  let deleted_checksums :=
    map unit_checksum (filter (units_to_delete s oldunits) (db_units d)) in
  modify (with_db (with_units (filter (fun u => negb (units_to_delete s oldunits u))))) ;;
  for_each deleted_checksums cleanup_checksum.

Definition Change_create (action : ChangeAction) (user : option User) : M unit :=
  s <- gets self ;;
  now <- gets clock ;;
  modify (with_db (with_changes (cons
    {| change_translation := pk s; change_action := action;
       change_user := user; change_timestamp := now |}))).

Definition notify_new_string : M unit :=
  s <- gets self ;;
  for_each (subscribed_new_string (project (subproject s)) (language s))
    (fun profile => modify (emit (EvNotifyNewString profile (pk s)))).

(** What [update_from_blob] does once it has decided to process the file. *)
Definition resync (request : option Request) : M unit :=
  s <- gets self ;;
  d <- gets db ;;
  let oldunits :=
    fold_right (set_add Z.eq_dec) (empty_set Z) (map unit_id (unit_set s d)) in
  store <- get_store ;;
  template_store <- get_template_store ;;
  acc <- sync_units store template_store oldunits ;;
  let '(was_new, _, oldunits) := acc in
  delete_unused oldunits ;;
  update_stats ;;
  Change_create ACTION_UPDATE (option_map request_user request) ;;
  if was_new then notify_new_string else ret tt.

Definition update_from_blob (force : bool) (request : option Request) : M unit :=
  blob_hash <- get_git_blob_hash ;;
  s <- gets self ;;
  if negb (String.eqb (revision s) blob_hash) then resync request
  else if force then resync request
  else ret tt.

Definition check_sync : M unit := update_from_blob false None.

(** ** Merging *)

(** Modelled from the spec: [trans.util.is_translated], the adapter's
    [isTranslated()] accessor on a unit that exists. *)
Definition is_translated (u : StoreUnit) : bool := istranslated u.

(** [store1.findid(unit2.getid())], falling back to
    [store1.findunit(unit2.source)]. *)
Definition locate (store1 : Store) (unit2 : StoreUnit) : option nat :=
  match findid store1 (tu_id unit2) with
  | Some i => Some i
  | None => findunit store1 (tu_source unit2)
  end.

(** One round of the loop of [merge_store] over [store2.units]; [unit1] is
    a unit of [store1], updated in place. *)
Definition merge_unit (store2 : Store) (overwrite merge_header add_fuzzy : bool)
    (store1 : Store) (unit2 : StoreUnit) : Store :=
  if negb (is_translated unit2) then store1
  else if tu_header unit2 then
    if merge_header && store_poheader store1 then mergeheaders store1 store2
    else store1
  else
    match locate store1 unit2 with
    | None => store1
    | Some i =>
        match nth_error (store_units store1) i with
        | None => store1
        | Some unit1 =>
            if negb overwrite && istranslated unit1 then store1
            else
              let merged := unit_merge unit1 unit2 in
              let merged := if add_fuzzy then markfuzzy true merged else merged in
              set_store_units (set_nth i merged (store_units store1)) store1
        end
    end.

(** [store.save()] writes the store to the translation's file. *)
Definition store_save (store : Store) : M unit :=
  s <- gets self ;;
  modify (with_repo (set_worktree (get_filename s) store)).

Definition merge_store (author : string) (store2 : Store)
    (overwrite merge_header add_fuzzy : bool) : M bool :=
  with_git_lock
    (store1 <- get_store ;;
     let store1 :=
       fold_left (merge_unit store2 overwrite merge_header add_fuzzy)
                 (store_units store2) store1 in
     modify (set_store_cache (Some store1)) ;;
     commit_pending (Some author) false ;;
     store_save store1 ;;
     now <- gets clock ;;
     ret_ <- git_commit author (Some now) true false false ;;
     check_sync ;;
     ret ret_).

Definition invalidate_cache (cache_type : option string) : M unit :=
  s <- gets self ;;
  let keys :=
    match cache_type with
    | None => "allchecks" :: CHECKS
    | Some t => [t]
    end in
  for_each keys (fun rqtype =>
    modify (emit (EvCacheDelete (subproject_pk (subproject s))
                                (lang_code (language s)) rqtype))).

Definition merge_suggestions (request : Request) (store : Store) : M bool :=
  ret_ <- for_fold (store_units store) false
    (fun ret_ unit =>
       if tu_header unit || negb (is_translated unit) then ret ret_
       else
         s <- gets self ;;
         let checksum := msg_checksum (tu_source unit) (tu_context unit) in
         modify (with_db (with_suggestions (fun rows => (rows ++
           [ {| dep_project := project (subproject s);
                dep_language := Some (language s);
                dep_checksum := checksum;
                dep_payload := tu_target unit;
                dep_user := Some (request_user request) |} ])%list))) ;;
         ret true) ;;
  (if ret_ then invalidate_cache (Some "suggestions") else ret tt) ;;
  ret ret_.

(** [ttkit(fileobj)], and on any failure [ttkit(fileobj, file_format)]. *)
Definition load_upload (fileobj : string) : M Store :=
  match ttkit_fileobj fileobj None with
  | Some store => ret store
  | None =>
      s <- gets self ;;
      match ttkit_fileobj fileobj (Some (file_format (subproject s))) with
      | Some store => ret store
      | None => raise ValueError
      end
  end.

(** The translations an upload is merged into: same language and project,
    then [Q(pk=self.pk) | Q(subproject__allow_translation_propagation=True)]. *)
Definition upload_targets (s : Translation) (d : DB) : list Translation :=
  filter (fun t => (pk t =? pk s) || allow_translation_propagation (subproject t))
    (filter (fun t => language_eqb (language t) (language s)
                      && project_eqb (project (subproject t)) (project (subproject s)))
            (db_translations d)).

Definition merge_upload (request : Request) (fileobj : string) (overwrite : bool)
    (author : option string) (merge_header : bool) (method : string) : M bool :=
  store <- load_upload fileobj ;;
  author <- match author with
            | None => get_author_name (Some (request_user request)) true
            | Some a => ret a
            end ;;
  s <- gets self ;;
  d <- gets db ;;
  let translations := upload_targets s d in
  if String.eqb method "" || String.eqb method "fuzzy" then
    for_fold translations false
      (fun ret_ translation =>
         r <- call_on translation
                (merge_store author store overwrite merge_header
                             (String.eqb method "fuzzy")) ;;
         ret (ret_ || r))
  else merge_suggestions request store.

(** ** The upload view *)

(** [try: m except Exception as e: h(e)]. *)
Definition try_except_all {A} (m : M A) (h : exn -> M A) : M A :=
  fun st =>
    match m st with
    | Ok a st' => Ok a st'
    | Raise e st' => h e st'
    end.

(** The form handler chosen by the user's permissions. *)
Definition upload_form (user : User) : FormClass :=
  if has_perm user "trans.author_translation" then ExtraUploadForm
  else if has_perm user "trans.overwrite_translation" then UploadForm
  else SimpleUploadForm.

(** The author handed to [merge_upload]. *)
Definition upload_author (request : UploadRequest) : option string :=
  let user := request_user (upload_request request) in
  if has_perm user "trans.author_translation"
     && negb (String.eqb (post_author_name request) "")
     && negb (String.eqb (post_author_email request) "")
  then Some (post_author_name request ++ " <" ++ post_author_email request ++ ">")%string
  else None.

(** The overwrite flag handed to [merge_upload]. *)
Definition upload_overwrite (request : UploadRequest) : bool :=
  if has_perm (request_user (upload_request request)) "trans.overwrite_translation"
  then post_overwrite request
  else false.

(** [upload_translation], behind [login_required] and
    [permission_required('trans.upload_translation')], on the translation
    that [get_translation] found for the URL, which is the current object.
    The handler of [except Exception as e] formats its message with
    [unicode(e)], outside any [try]. *)
Definition upload_translation (request : UploadRequest) : M HttpResponse :=
  let user := request_user (upload_request request) in
  if negb (is_authenticated user) then ret RedirectToLogin
  else if negb (has_perm user "trans.upload_translation") then ret RedirectToLogin
  else
    is_locked_ <- is_locked (Some (upload_request request)) ;;
    if is_locked_ || negb (String.eqb (upload_http_method request) "POST")
    then ret (RedirectToTranslation MsgAccessDenied)
    else
      let form := upload_form user in
      if negb (form_is_valid form request)
      then ret (RedirectToTranslation MsgFormErrors)
      else
        let author := upload_author request in
        let overwrite := upload_overwrite request in
        try_except_all
          (ret_ <- merge_upload (upload_request request) (upload_file request)
                     overwrite author (post_merge_header request)
                     (post_method request) ;;
           if ret_ then ret (RedirectToTranslation MsgMerged)
           else ret (RedirectToTranslation MsgNoNewStrings))
          (fun e =>
             match unicode_text e with
             | Some text => ret (RedirectToTranslation (MsgMergeFailed text))
             | None => raise UnicodeDecodeError
             end).

(** ** Filter lists *)

(** An entry of a filter list: the filter, its label and, but for the
    first entry, the number the label ends with. *)
Definition FilterEntry := (string * string * option Z)%type.

(** [if cnt > 0: result.append((key, label % cnt))]. *)
Definition offer (key label : string) (cnt : Z) (result : list FilterEntry)
    : list FilterEntry :=
  if 0 <? cnt then (result ++ [(key, label, Some cnt)])%list else result.

(** The loop over [CHECKS] shared by both lists; [flag] is [source] or
    [target]. *)
Definition offer_checks (flag : CheckClass -> bool) (s : Translation) (d : DB)
    (result : list FilterEntry) : list FilterEntry :=
  fold_left
    (fun result check =>
       if negb (flag (check_of check)) then result
       else offer check (check_description (check_of check)) (count_type check s d) result)
    CHECKS result.

Definition get_source_checks : M (list FilterEntry) :=
  s <- gets self ;;
  d <- gets db ;;
  let result := [("all", "All strings", None)] in
  let result := offer "sourcechecks" "Strings with any failing checks"
                      (count_type "sourcechecks" s d) result in
  let result := offer_checks check_source s d result in
  let result := offer "sourcecomments" "Strings with comments"
                      (count_type "sourcecomments" s d) result in
  ret result.

Definition get_translation_checks : M (list FilterEntry) :=
  s <- gets self ;;
  d <- gets db ;;
  let result := [("all", "All strings", None)] in
  let result := offer "untranslated" "Untranslated strings"
                      (count_type "untranslated" s d) result in
  let result := offer "fuzzy" "Fuzzy strings" (count_type "fuzzy" s d) result in
  let result := offer "suggestions" "Strings with suggestions"
                      (count_type "suggestions" s d) result in
  let result := offer "allchecks" "Strings with any failing checks"
                      (count_type "allchecks" s d) result in
  let result := offer_checks check_target s d result in
  let result := offer "targetcomments" "Strings with comments"
                      (count_type "targetcomments" s d) result in
  ret result.

(** ** Editing a unit *)

(** The search of [update_unit] for the unit of the file: by id when the
    subproject has a template, falling back to the template itself; else
    by source and context, falling back to a scan of the units. *)
Definition find_pounit (store : Store) (edit : UnitEdit) : M (option Located) :=
  s <- gets self ;;
  if has_template (subproject s) then
    match findid store (edit_context edit) with
    | Some i =>
        ret (option_map (InStore i) (nth_error (store_units store) i))
    | None =>
        template_store <- get_template_store ;;
        match template_store with
        | Some tstore =>
            match findid tstore (edit_context edit) with
            | Some j => ret (option_map FromTemplate (nth_error (store_units tstore) j))
            | None => ret None
            end
        | None => ret None
        end
    end
  else
    let found_units := findunits store (edit_source edit) in
    match found_units with
    | _ :: _ =>
        ret (first_at (fun pounit => String.eqb (tu_context pounit) (edit_context edit))
                      (store_units store) found_units)
    | [] =>
        ret (first_at (fun pounit => String.eqb (tu_source pounit) (edit_source edit))
                      (store_units store) (seq 0 (List.length (store_units store))))
    end.

(** [update_unit(unit, request)]: the store is changed in place, so the
    cached store has the edit as soon as it is made. *)
Definition update_unit (edit : UnitEdit) (request : Request)
    : M (bool * option StoreUnit) :=
  with_git_lock
    (store <- get_store ;;
     found <- find_pounit store edit ;;
     match found with
     | None => ret (false, None)
     | Some l =>
         if edit_changes edit (located_unit l) then
           let store := edited_store edit l store in
           modify (set_store_cache (Some store)) ;;
           author <- get_author_name (Some (request_user request)) true ;;
           s <- gets self ;;
           now <- gets clock ;;
           let store := if store_poheader store
                        then updateheader author s now store else store in
           modify (set_store_cache (Some store)) ;;
           commit_pending (Some author) false ;;
           store_save store ;;
           now <- gets clock ;;
           git_commit author (Some now) false true false ;;
           ret (true, Some (apply_edit edit (located_unit l)))
         else ret (false, Some (located_unit l))
     end).

(** ** What the spec says, for comparison with the code *)

(** The deletion rule as the spec words it: language-scoped rows go when no
    unit of the project, in any language, still has the checksum. *)
Definition spec_language_rows_deleted (s : Translation) (checksum : string) (d : DB) : bool :=
  match units_in_project s checksum d with [] => true | _ :: _ => false end.

(** The same rule as the code has it: when no unit of the translation's own
    language has the checksum. *)
Definition language_refs (s : Translation) (checksum : string) (d : DB) : bool :=
  match units_in_language s checksum d with [] => false | _ :: _ => true end.

Definition project_refs (s : Translation) (checksum : string) (d : DB) : bool :=
  match units_in_project s checksum d with [] => false | _ :: _ => true end.

(** The state in which a method of another object [t] runs: [t], a row that
    came out of a query, is the current object and has nothing cached; the
    database, the repositories, the clock and the effect log are shared. *)
Definition on_object (t : Translation) (st : State) : State :=
  {| self := t; _store := None; db := db st; repo := repo st;
     clock := clock st; events := events st |}.

(** Back in the caller: its own object and cache are as it left them,
    whatever the method did to the object it ran on. *)
Definition back_in (caller st' : State) : State :=
  {| self := self caller; _store := _store caller; db := db st'; repo := repo st';
     clock := clock st'; events := events st' |}.

(** [merge_store] is run on every target in turn, each as its own object;
    the first failure ends the run. *)
Fixpoint merge_each (targets : list Translation) (author : string) (store : Store)
    (overwrite merge_header add_fuzzy : bool) (st : State) : Result (list bool) :=
  match targets with
  | [] => Ok [] st
  | t :: rest =>
      match merge_store author store overwrite merge_header add_fuzzy (on_object t st) with
      | Ok r st1 =>
          match merge_each rest author store overwrite merge_header add_fuzzy
                  (back_in st st1) with
          | Ok rs st2 => Ok (r :: rs) st2
          | Raise e st2 => Raise e st2
          end
      | Raise e st1 => Raise e (back_in st st1)
      end
  end.

(** Every target is merged in turn and the results are or-ed. *)
Definition spec_merge_all (targets : list Translation) (author : string) (store : Store)
    (overwrite merge_header add_fuzzy : bool) : M bool :=
  fun st =>
    match merge_each targets author store overwrite merge_header add_fuzzy st with
    | Ok rs st' => Ok (existsb (fun b => b) rs) st'
    | Raise e st' => Raise e st'
    end.

(** A touch at clock value [t]. *)
Definition touch_at (request : Request) (t : Z) : M unit :=
  modify (set_clock t) ;; update_lock request.

(** An interactive edit as [update_unit] ends it: the file is saved and a
    commit is asked for without force. *)
Definition edit_file (author : string) (content : Store) : M bool :=
  store_save content ;;
  now <- gets clock ;;
  git_commit author (Some now) false true false.

(** ** Auxiliary readings of a run *)

(** The state a computation leaves, whether it returned or raised. *)
Definition exec {A} (m : M A) (st : State) : State :=
  match m st with
  | Ok _ st' => st'
  | Raise _ st' => st'
  end.

(** What a percentage accessor returns for a count: the [int] 0 on an empty
    translation, else the rounded quotient as a float. *)
Definition percent_of (count n : Z) : PyNum :=
  if n =? 0 then PyInt 0
  else PyFloat (round1 (PrimFloat.div (times_100 count) (float_of_Z n))).

Definition message_of (s : Translation) : CommitMessage :=
  {| msg_template := commit_message (project (subproject s));
     msg_language := language_code s;
     msg_language_name := lang_name (language s);
     msg_subproject := subproject_name (subproject s);
     msg_project := project_name (project (subproject s));
     msg_total := total s;
     msg_fuzzy := fuzzy s;
     msg_fuzzy_percent := percent_of (fuzzy s) (total s);
     msg_translated := translated s;
     msg_translated_percent := percent_of (translated s) (total s) |}.

(** How often the process slept waiting for git. *)
Definition sleeps (evs : list Event) : nat :=
  List.length (filter (fun e => match e with EvSleep => true | _ => false end) evs).

Definition set_busy (script : list bool) (r : Repo) : Repo :=
  {| repo_tree := repo_tree r; repo_worktree := repo_worktree r;
     repo_config := repo_config r;
     repo_commits := repo_commits r; repo_busy := script |}.

(** The effect of [__configure_git] on the repositories. *)
Definition set_if_needed (sp : Z) (name expected : string) (r : Repo) : Repo :=
  if opt_string_eqb (repo_config r sp name) (Some expected) then r
  else set_config sp name expected r.

(** The effect of [__configure_committer]. *)
Definition configure_repo (s : Translation) (r : Repo) : Repo :=
  let sp := subproject_pk (subproject s) in
  set_if_needed sp "user.email" (committer_email (project (subproject s)))
    (set_if_needed sp "user.name" (committer_name (project (subproject s))) r).

(** The commit that [self] makes of its file as it is on disk. *)
Definition the_commit (author : string) (date : Z) (st : State) : Commit :=
  {| commit_path := get_filename (self st);
     commit_author := author;
     commit_date := date;
     commit_msg := message_of (self st);
     commit_blob :=
       match repo_worktree (repo st) (get_filename (self st)) with
       | Some s => s
       | None => {| store_units := []; store_poheader := false |}
       end |}.

(** The state right after a successful [git commit] of [__git_commit]. *)
Definition committed (author : string) (date : Z) (st : State) : State :=
  with_repo (fun r => record_commit (the_commit author date st)
                                    (pop_busy (configure_repo (self st) r))) st.

(** What [git_needs_commit] answers. *)
Definition needs_commit (st : State) : bool :=
  match repo_worktree (repo st) (get_filename (self st)),
        repo_tree (repo st) (get_filename (self st)) with
  | Some w, Some h => negb (String.eqb (hexsha w) (hexsha h))
  | None, None => false
  | _, _ => true
  end.

(** [git_commit] defers or has nothing to do. *)
Definition deferred (force_commit : bool) (st : State) : bool :=
  negb (needs_commit st) || (negb force_commit && LAZY_COMMITS appsettings).

(** What [get_git_blob_hash] returns; [None] stands for the [KeyError] of
    a file that HEAD does not have. *)
Definition blob_hash_of (s : Translation) (r : Repo) : option string :=
  match repo_tree r (get_filename s) with
  | None => None
  | Some blob =>
      if has_template (subproject s) then
        match repo_tree r (subproject_pk (subproject s), template (subproject s)) with
        | None => None
        | Some tblob => Some (hexsha blob ++ "," ++ hexsha tblob)%string
        end
      else Some (hexsha blob)
  end.

(** The state after [store_hash] stored the hash [h]. *)
Definition stored (h : string) (st : State) : State :=
  with_db (with_translations (save_row (set_revision h (self st))))
          (with_self (set_revision h) st).

(** The end of [git_commit] once the git command went through: the hash is
    stored if asked, the lock released, and the push triggered. *)
Definition finish_commit (sync skip_push : bool) (st : State) : Result bool :=
  let sp := subproject_pk (subproject (self st)) in
  let release := emit (EvGitLockRelease sp) in
  let push st' :=
    if push_on_commit (project (subproject (self st'))) && negb skip_push
    then emit (EvPush (subproject_pk (subproject (self st')))) st' else st' in
  if sync then
    match blob_hash_of (self st) (repo st) with
    | Some h => Ok true (push (release (stored h st)))
    | None => Raise KeyError (release st)
    end
  else Ok true (push (release st)).

(** Two states that differ in the effect log only, the second having slept
    once more. *)
Definition same_but_slept (st1 st2 : State) : Prop :=
  self st2 = self st1 /\ _store st2 = _store st1 /\ db st2 = db st1
  /\ repo st2 = repo st1 /\ clock st2 = clock st1
  /\ sleeps (events st2) = S (sleeps (events st1)).

(** After a commit the blob hash can be read back: the file is on disk, and
    the template, if the subproject has one, is in HEAD. *)
Definition hash_readable (st : State) : Prop :=
  (exists w, repo_worktree (repo st) (get_filename (self st)) = Some w)
  /\ (has_template (subproject (self st)) = true ->
      exists t, repo_tree (repo st)
                  (subproject_pk (subproject (self st)), template (subproject (self st)))
                = Some t).

(** The git command is refused at most once. *)
Definition refused_at_most_once (script : list bool) : Prop :=
  forall rest, script <> true :: true :: rest.

(** The rows of a table under one key. *)
Definition rows_for (p : Project) (l : option Language) (c : string)
    (rows : list DepRow) : list DepRow :=
  filter (dep_key p l c) rows.

(** The indexing phase of a processing run: all that [resync] does before
    it deletes the unused units. It returns the loop variables, the last of
    which is [oldunits], the ids that no unit of the file has claimed. *)
Definition index_phase : M (bool * Z * set Z) :=
  s <- gets self ;;
  d <- gets db ;;
  let oldunits :=
    fold_right (set_add Z.eq_dec) (empty_set Z) (map unit_id (unit_set s d)) in
  store <- get_store ;;
  template_store <- get_template_store ;;
  sync_units store template_store oldunits.

(** The checksums [delete_unused] loops over, and the units it leaves. *)
Definition deleted_checksums (oldunits : set Z) (st : State) : list string :=
  map unit_checksum (filter (units_to_delete (self st) oldunits) (db_units (db st))).

Definition remaining_units (oldunits : set Z) (st : State) : list Unit :=
  filter (fun u => negb (units_to_delete (self st) oldunits u)) (db_units (db st)).

(** The effect of [cleanup_checksum] on the database. *)
Definition cleanup_db (s : Translation) (c : string) (d : DB) : DB :=
  let prj := project (subproject s) in
  match units_in_language s c d with
  | [] =>
      let d1 :=
        with_comments (delete_rows prj (Some (language s)) c)
          (with_suggestions (delete_rows prj (Some (language s)) c)
             (with_checks (delete_rows prj (Some (language s)) c) d)) in
      match units_in_project s c d1 with
      | [] => with_checks (delete_rows prj None c)
                (with_comments (delete_rows prj None c) d1)
      | _ :: _ => d1
      end
  | u :: units =>
      with_checks (fun rows => fold_left (fun rows unit => unit_check unit rows)
                                         (u :: units) rows) d
  end.

Definition cleanup_all (s : Translation) (cs : list string) (d : DB) : DB :=
  fold_left (fun d c => cleanup_db s c d) cs d.

(** The check subsystem, re-run on a unit, touches only rows of that unit's
    checksum. *)
Definition rechecks_local : Prop :=
  forall (u : Unit) (rows : list DepRow) (c : string),
    String.eqb (unit_checksum u) c = false ->
    filter (fun r => String.eqb (dep_checksum r) c) (unit_check u rows)
    = filter (fun r => String.eqb (dep_checksum r) c) rows.

(** A re-run of the checks leaves the row [r] in place. *)
Definition recheck_keeps (r : DepRow) : Prop :=
  forall (u : Unit) (rows : list DepRow), In r rows -> In r (unit_check u rows).

(** What [get_author_name(user)] returns for a user, e-mail included. *)
Definition author_name_of (u : User) : string :=
  ((if String.eqb (user_full_name u) "" then username u else user_full_name u)
   ++ " <" ++ user_email u ++ ">")%string.

(** ** Invariants of a run *)

(** [m] keeps [I]: from a state where [I] holds, [m] ends in a state where
    [I] holds, whether it returns or raises. *)
Definition keeps {A} (I : State -> Prop) (m : M A) : Prop :=
  forall st, I st -> I (exec m st).

(** Acquisitions of the git lock that have not been released, as the effect
    log shows them. *)
Definition lock_balance (evs : list Event) : Z :=
  fold_right (fun e n =>
                match e with
                | EvGitLockAcquire _ => n + 1
                | EvGitLockRelease _ => n - 1
                | _ => n
                end) 0 evs.

(** How often a push was triggered. *)
Definition pushes (evs : list Event) : nat :=
  List.length (filter (fun e => match e with EvPush _ => true | _ => false end) evs).

(** What never changes about a translation object: which row, file and
    language it stands for. *)
Definition same_identity (s s' : Translation) : Prop :=
  pk s' = pk s /\ subproject s' = subproject s /\ language s' = language s
  /\ filename s' = filename s /\ language_code s' = language_code s.

(** The rest of the interpreter state a reconcile leaves alone. *)
Definition untouched_by_sync (st0 st : State) : Prop :=
  repo st = repo st0 /\ clock st = clock st0 /\ same_identity (self st0) (self st).

(** An invariant that the reconcile cannot break up to its notifications:
    it does not depend on the database, the [_store] cache, or the
    statistics and revision of the object. *)
Definition quiet_frame (I : State -> Prop) : Prop :=
  (forall st f, I st -> I (with_db f st))
  /\ (forall st c, I st -> I (set_store_cache c st))
  /\ (forall st n f t, I st -> I (with_self (set_counts n f t) st))
  /\ (forall st h, I st -> I (with_self (set_revision h) st)).

(** One that does not depend on the notifications sent either. *)
Definition sync_frame (I : State -> Prop) : Prop :=
  quiet_frame I
  /\ (forall st p t, I st -> I (emit (EvNotifyNewString p t) st)).

(** The notifications of a new string, as the effect log has them (newest
    first) once every subscriber was told. *)
Definition notifications (s : Translation) : list Event :=
  rev (map (fun profile => EvNotifyNewString profile (pk s))
           (subscribed_new_string (project (subproject s)) (language s))).

(** The ids of the units indexed for the translation, the [oldunits] a
    processing run starts with. *)
Definition indexed_ids (st : State) : set Z :=
  fold_right (set_add Z.eq_dec) (empty_set Z)
    (map unit_id (unit_set (self st) (db st))).

(** The units the index loop goes through: those of the template if the
    subproject has one, else those of the file. *)
Definition loop_units (store : Store) (tstore : option Store) : list StoreUnit :=
  match tstore with
  | Some t => store_units t
  | None => store_units store
  end.

(** The unit and the template unit the loop hands to
    [Unit.objects.update_from_unit] in the round of the unit [x]. *)
Definition loop_unit (store : Store) (tstore : option Store) (x : StoreUnit)
    : option StoreUnit :=
  match tstore with
  | Some _ =>
      match findid store (tu_id x) with
      | Some i => nth_error (store_units store) i
      | None => None
      end
  | None => Some x
  end.

Definition loop_template (tstore : option Store) (x : StoreUnit) : option StoreUnit :=
  match tstore with
  | Some _ => Some x
  | None => None
  end.

Definition take_units (pre : list StoreUnit) (s : Store) : Store :=
  {| store_units := pre; store_poheader := store_poheader s |}.

(** The index loop of the call up to, and without, the round that follows
    the units [pre]: the same loop over the list cut after [pre]. *)
Definition sync_prefix (store : Store) (tstore : option Store) (pre : list StoreUnit)
    (oldunits : set Z) : M (bool * Z * set Z) :=
  match tstore with
  | Some t => sync_units store (Some (take_units pre t)) oldunits
  | None => sync_units (take_units pre store) None oldunits
  end.

(** The processing run that starts in [st] got to the end of its index
    loop with [was_new] set. *)
Definition index_found_new (st : State) : Prop :=
  exists store tstore st3 pos old st4,
    get_store st = Ok store st3
    /\ get_template_store st3 = Ok tstore st3
    /\ sync_units store tstore (indexed_ids st) st3 = Ok (true, pos, old) st4.

(** The index reports a unit as new and not translated. *)
Definition reports_new_untranslated (r : (Unit * bool) * DB) : Prop :=
  snd (fst r) = true /\ unit_translated (fst (fst r)) = false.

(** Who holds the lock right now: the recorded holder unless the lock has
    expired. *)
Definition lock_holder (st : State) : option User :=
  match lock_user (self st) with
  | Some u => if lock_time (self st) <? clock st then None else Some u
  | None => None
  end.

(** The request comes from the user [u]. *)
Definition asked_by (request : option Request) (u : User) : bool :=
  match request with
  | Some r => user_eqb u (request_user r)
  | None => false
  end.

(** The duration of a lock. *)
Definition lock_seconds (explicit : bool) : Z :=
  if explicit then LOCK_TIME appsettings else AUTO_LOCK_TIME appsettings.

(** Two states that differ in the lock fields of the object and in the
    table of translations at most; what becomes of that table is said by
    [row_saved], or by the equality of the states. *)
Definition same_but_lock (st st' : State) : Prop :=
  _store st' = _store st /\ repo st' = repo st /\ clock st' = clock st
  /\ events st' = events st
  /\ set_lock_user None (set_lock_time 0 (self st'))
     = set_lock_user None (set_lock_time 0 (self st))
  /\ with_translations (fun _ => []) (db st') = with_translations (fun _ => []) (db st).

(** The table of translations after the object was saved: [self.save()]
    writes every field of the object, not the lock fields alone, to the row
    of its primary key (or adds the row), and leaves every other row. *)
Definition row_saved (st st' : State) : Prop :=
  db_translations (db st') = save_row (self st') (db_translations (db st)).

(** The state after [user] took the lock: the expiry is the duration from
    now, or the old expiry if the translation had a holder and that is
    later. *)
Definition lock_taken (user : User) (explicit : bool) (st : State) : State :=
  let expiry :=
    match lock_user (self st) with
    | None => clock st + lock_seconds explicit
    | Some _ => Z.max (lock_time (self st)) (clock st + lock_seconds explicit)
    end in
  let s := set_lock_time expiry (set_lock_user (Some user) (self st)) in
  with_db (with_translations (save_row s)) (with_self (fun _ => s) st).

(** An invariant that survives the writes of a commit or a merge: besides
    the database, the cache and the statistics it does not depend on, it
    holds across the repository updates in [okr] and the effects in [ok]. *)
Definition frame (ok : Event -> bool) (okr : (Repo -> Repo) -> Prop)
    (I : State -> Prop) : Prop :=
  quiet_frame I
  /\ (forall st f, okr f -> I st -> I (with_repo f st))
  /\ (forall st e, ok e = true -> I st -> I (emit e st)).

(** The repository updates of a commit: the committer's identity is
    configured, the git command runs, and on success the log grows. *)
Definition commit_ops (okr : (Repo -> Repo) -> Prop) : Prop :=
  (forall sp key value, okr (set_config sp key value))
  /\ okr pop_busy
  /\ (forall c, okr (fun r => record_commit c (pop_busy r))).

(** A family of invariants that a [with] block on the git lock keeps,
    provided its body keeps every member. *)
Definition lockable (F : Z -> State -> Prop) : Prop :=
  forall (A : Type) (body : M A),
    (forall n, keeps (F n) body) -> forall n, keeps (F n) (with_git_lock body).

(** Effects other than taking and releasing the git lock. *)
Definition not_git_lock (e : Event) : bool :=
  match e with
  | EvGitLockAcquire _ | EvGitLockRelease _ => false
  | _ => true
  end.

(** What a commit that is not deferred adds to the effect log, newest first:
    the lock is taken, the process may sleep once, the lock is released,
    and a push may follow. *)
Definition commit_log (sp : Z) (slept pushed : bool) (evs : list Event) : list Event :=
  ((if pushed then [EvPush sp] else [])
   ++ EvGitLockRelease sp
   :: (if slept then [EvSleep] else [])
   ++ EvGitLockAcquire sp :: evs)%list.

(** The store a merge starts from: the cached one, or the file on disk. *)
Definition loaded_store (st : State) : option Store :=
  match _store st with
  | Some s => Some s
  | None => repo_worktree (repo st) (get_filename (self st))
  end.

(** The result of the loop of [merge_store] over the uploaded units. *)
Definition merged_store (store2 : Store) (overwrite merge_header add_fuzzy : bool)
    (store1 : Store) : Store :=
  fold_left (merge_unit store2 overwrite merge_header add_fuzzy)
            (store_units store2) store1.



(** What a merge may do to a unit of the file: nothing, or give it the
    target text of a translated unit of the upload that is no header, with
    that unit's fuzzy state, or fuzzy in any case under [add_fuzzy]. Id,
    source, context, comments and the header flag stay. *)
Definition merged_from (store2 : Store) (add_fuzzy : bool) (u v : StoreUnit) : Prop :=
  tu_id v = tu_id u /\ tu_source v = tu_source u /\ tu_context v = tu_context u
  /\ tu_header v = tu_header u /\ tu_comments v = tu_comments u
  /\ (v = u
      \/ exists unit2,
           In unit2 (store_units store2)
           /\ is_translated unit2 = true /\ tu_header unit2 = false
           /\ tu_target v = tu_target unit2
           /\ tu_fuzzy v = (if add_fuzzy then true else tu_fuzzy unit2)).

(** The units of an upload that become suggestions: translated ones that
    are no header. *)
Definition suggested (unit : StoreUnit) : bool :=
  negb (tu_header unit || negb (is_translated unit)).

(** The suggestion made of a unit for the translation [s]. *)
Definition suggestion_of (request : Request) (s : Translation) (unit : StoreUnit) : DepRow :=
  {| dep_project := project (subproject s);
     dep_language := Some (language s);
     dep_checksum := msg_checksum (tu_source unit) (tu_context unit);
     dep_payload := tu_target unit;
     dep_user := Some (request_user request) |}.

(** Two states that differ in the table of suggestions and the effect log
    at most. *)
Definition same_but_suggestions (st st' : State) : Prop :=
  self st' = self st /\ _store st' = _store st /\ repo st' = repo st
  /\ clock st' = clock st
  /\ with_suggestions (fun _ => []) (db st') = with_suggestions (fun _ => []) (db st).

(** The upload is turned away: the subproject is locked, somebody else
    holds a live lock on the translation, or the request is no POST. *)
Definition upload_denied (request : UploadRequest) (st : State) : bool :=
  locked (subproject (self st))
  || match lock_holder st with
     | Some u => negb (asked_by (Some (upload_request request)) u)
     | None => false
     end
  || negb (String.eqb (upload_http_method request) "POST").

(** The request passes both decorators. *)
Definition upload_allowed (request : UploadRequest) : bool :=
  is_authenticated (request_user (upload_request request))
  && has_perm (request_user (upload_request request)) "trans.upload_translation".

(** Two uploads that agree on everything the user may decide: they may
    differ in the posted overwrite flag only if the user lacks the
    permission to overwrite, and in the posted author only if the user
    lacks the permission to name one. *)
Definition agree_where_permitted (request request' : UploadRequest) : Prop :=
  upload_request request' = upload_request request
  /\ upload_http_method request' = upload_http_method request
  /\ upload_file request' = upload_file request
  /\ post_merge_header request' = post_merge_header request
  /\ post_method request' = post_method request
  /\ (has_perm (request_user (upload_request request)) "trans.overwrite_translation" = true ->
      post_overwrite request' = post_overwrite request)
  /\ (has_perm (request_user (upload_request request)) "trans.author_translation" = true ->
      post_author_name request' = post_author_name request
      /\ post_author_email request' = post_author_email request).

(** An entry that a filter list may hold after [all]: one of the fixed
    filters, or a check that [flag] selects, with its positive count. *)
Definition offered (fixed : list (string * string)) (flag : CheckClass -> bool)
    (s : Translation) (d : DB) (e : FilterEntry) : Prop :=
  let '(key, label, cnt) := e in
  cnt = Some (count_type key s d)
  /\ 0 < count_type key s d
  /\ (In (key, label) fixed
      \/ (In key CHECKS /\ flag (check_of key) = true
          /\ label = check_description (check_of key))).


(* ================================================================== *)
(** * Properties *)
(* ================================================================== *)

(** ** The monad *)

Lemma bind_ok {A B} (m : M A) (k : A -> M B) st a st' :
  m st = Ok a st' -> bind m k st = k a st'.
Proof. unfold bind; intros ->; reflexivity. Qed.

Lemma bind_raise {A B} (m : M A) (k : A -> M B) st e st' :
  m st = Raise e st' -> bind m k st = Raise e st'.
Proof. unfold bind; intros ->; reflexivity. Qed.

Lemma bind_ok_inv {A B} (m : M A) (k : A -> M B) st b st' :
  bind m k st = Ok b st' ->
  exists a st1, m st = Ok a st1 /\ k a st1 = Ok b st'.
Proof.
  unfold bind; destruct (m st) as [a st1 | e st1]; intros H.
  - exists a, st1; split; [reflexivity | exact H].
  - discriminate H.
Qed.

(** ** Statistics *)

Lemma float_div_defined x d st :
  d <> 0 -> py_div x d st = Ok (PrimFloat.div x (float_of_Z d)) st.
Proof.
  intros H; unfold py_div. destruct (Z.eqb_spec d 0); [contradiction | reflexivity].
Qed.

Lemma get_fuzzy_percent_value st :
  get_fuzzy_percent st = Ok (percent_of (fuzzy (self st)) (total (self st))) st.
Proof.
  unfold get_fuzzy_percent, percent_of, bind, gets, py_div, ret, raise.
  destruct (total (self st) =? 0); reflexivity.
Qed.

Lemma get_translated_percent_value st :
  get_translated_percent st = Ok (percent_of (translated (self st)) (total (self st))) st.
Proof.
  unfold get_translated_percent, percent_of, bind, gets, py_div, ret, raise.
  destruct (total (self st) =? 0); reflexivity.
Qed.

Lemma get_failing_checks_percent_value check st :
  get_failing_checks_percent check st
  = Ok (percent_of (count_type check (self st) (db st)) (total (self st))) st.
Proof.
  unfold get_failing_checks_percent, get_failing_checks, percent_of, bind, gets,
    py_div, ret, raise.
  destruct (total (self st) =? 0); reflexivity.
Qed.

(** The conversion is exact where the old 63-bit integers end, and rounds
    to the even mantissa where a double cannot hold the int. *)
Example float_of_Z_large :
  float_of_Z (2 ^ 63) = 0x1p+63%float
  /\ float_of_Z (2 ^ 53 + 1) = 0x1p+53%float
  /\ float_of_Z (2 ^ 53 + 3) = 0x1.0000000000002p+53%float
  /\ float_of_Z (- (2 ^ 70 + 2 ^ 17 + 1)) = (-0x1.0000000000001p+70)%float.
Proof. vm_compute. repeat split. Qed.

(** Halves go away from zero, on the exact binary value, and a value with
    more than fifty bits before the point is rounded once. *)
Example round1_values :
  round1 0x1p-2%float = 0x1.3333333333333p-2%float
  /\ round1 0x1.9p+2%float = 0x1.9333333333333p+2%float
  /\ round1 (-0x1.999999999999ap-5)%float = (-0x1.999999999999ap-4)%float
  /\ round1 0x1.6666666666666p-2%float = 0x1.3333333333333p-2%float
  /\ round1 0x1.0000000000001p+50%float = 0x1.0000000000001p+50%float
  /\ round1 0x0.00000000007e8p-1022%float = 0%float.
Proof. vm_compute. repeat split. Qed.

(** What [round1] does to a double [x] of magnitude [m * 2^e] that is not
    an integer: it takes the integer [t] nearest to ten times the
    magnitude, the upper one of two that are equally near, and returns the
    double nearest to [t / 10], with the sign of [x]. *)
Lemma round1_nearest_tenth (x : float) (s : bool) (m : positive) (e : Z) :
  Prim2SF x = S754_finite s m e ->
  e < 0 ->
  exists t : Z,
    - 2 ^ (- e) < 2 ^ (1 - e) * t - 20 * Zpos m <= 2 ^ (- e)
    /\ round1 x
       = match t with
         | Zpos tenths =>
             SF2Prim (SFdiv prec emax (S754_finite s tenths 0) (S754_finite false 10 0))
         | _ => SF2Prim (S754_zero s)
         end.
Proof.
  intros Hx He. unfold round1. rewrite Hx.
  destruct (Z.leb_spec 0 e) as [Hge | _]; [lia |].
  exists ((20 * Zpos m + 2 ^ (- e)) / 2 ^ (1 - e)). split; [| reflexivity].
  assert (Hd : 2 ^ (1 - e) = 2 * 2 ^ (- e)).
  { replace (1 - e) with (Z.succ (- e)) by lia. apply Z.pow_succ_r. lia. }
  assert (Hpos : 0 < 2 ^ (- e)) by (apply Z.pow_pos_nonneg; lia).
  pose proof (Z.mul_div_le (20 * Zpos m + 2 ^ (- e)) (2 ^ (1 - e))) as Hle.
  pose proof (Z.mul_succ_div_gt (20 * Zpos m + 2 ^ (- e)) (2 ^ (1 - e))) as Hgt.
  rewrite Hd in *. lia.
Qed.

(** C10. On a translation with no units the three percentage accessors
    return the integer 0 and never reach the division, so no
    [ZeroDivisionError] is raised; with units they return
    [round(count * 100.0 / total, 1)], the quotient rounded to one decimal
    place, and leave the state alone. The counts are ints that Python
    converts to a float, as every count of a database column is. *)
Theorem percent_accessors_guard_empty_translation :
  forall (st : State) (check : string),
    float_range (total (self st)) ->
    float_range (fuzzy (self st)) ->
    float_range (translated (self st)) ->
    float_range (count_type check (self st) (db st)) ->
    (total (self st) = 0 ->
       get_fuzzy_percent st = Ok (PyInt 0) st /\
       get_translated_percent st = Ok (PyInt 0) st /\
       get_failing_checks_percent check st = Ok (PyInt 0) st)
    /\
    (total (self st) <> 0 ->
       let quotient count :=
         PrimFloat.div (PrimFloat.mul (float_of_Z count) (float_of_Z 100))
                       (float_of_Z (total (self st))) in
       get_fuzzy_percent st = Ok (PyFloat (round1 (quotient (fuzzy (self st))))) st /\
       get_translated_percent st
         = Ok (PyFloat (round1 (quotient (translated (self st))))) st /\
       get_failing_checks_percent check st
         = Ok (PyFloat (round1 (quotient (count_type check (self st) (db st))))) st)
    /\
    (forall e st', get_fuzzy_percent st <> Raise e st' /\
                   get_translated_percent st <> Raise e st' /\
                   get_failing_checks_percent check st <> Raise e st').
Proof.
  intros st check _ _ _ _.
  rewrite get_fuzzy_percent_value, get_translated_percent_value,
    get_failing_checks_percent_value.
  unfold percent_of, times_100.
  repeat split; try discriminate.
  - rewrite H; reflexivity.
  - rewrite H; reflexivity.
  - rewrite H; reflexivity.
  - destruct (Z.eqb_spec (total (self st)) 0); [contradiction | reflexivity].
  - destruct (Z.eqb_spec (total (self st)) 0); [contradiction | reflexivity].
  - destruct (Z.eqb_spec (total (self st)) 0); [contradiction | reflexivity].
Qed.

(** ** Soft lock *)

(** A touch of a live lock goes through [update_lock_time()] with
    [is_new=True]: the expiry becomes now plus the automatic duration,
    whatever it was. *)
Lemma update_lock_on_live_lock request st holder :
  lock_user (self st) = Some holder ->
  clock st <= lock_time (self st) ->
  exists st', update_lock request st = Ok tt st'
    /\ lock_time (self st') = clock st + AUTO_LOCK_TIME appsettings
    /\ lock_user (self st') = Some holder.
Proof.
  intros Hu Ht.
  unfold update_lock, is_user_locked, is_user_locked_multi, bind, gets, ret.
  rewrite Hu.
  destruct (Z.ltb_spec (lock_time (self st)) (clock st)) as [Hlt | _]; [lia |].
  simpl. unfold update_lock_time, bind, gets, save, modify, ret. simpl.
  eexists; split; [reflexivity |]. simpl. split; [reflexivity | exact Hu].
Qed.

(** Touches never shorten a lock whose expiry is no later than what an
    automatic lock taken now would get: this covers every lock that was
    taken or last extended automatically. *)
Lemma touch_extends_automatic_lock request t st holder :
  lock_user (self st) = Some holder ->
  t <= lock_time (self st) ->
  lock_time (self st) <= t + AUTO_LOCK_TIME appsettings ->
  exists st', touch_at request t st = Ok tt st'
    /\ lock_time (self st) <= lock_time (self st').
Proof.
  intros Hu Hlive Hauto.
  unfold touch_at, bind, modify.
  destruct (update_lock_on_live_lock request (set_clock t st) holder)
    as (st' & Hrun & Htime & _); [exact Hu | exact Hlive |].
  exists st'; split; [exact Hrun |].
  rewrite Htime. simpl. exact Hauto.
Qed.

(** ** Committing *)

Lemma set_if_needed_frame sp name v r :
  repo_tree (set_if_needed sp name v r) = repo_tree r
  /\ repo_worktree (set_if_needed sp name v r) = repo_worktree r
  /\ repo_commits (set_if_needed sp name v r) = repo_commits r
  /\ repo_busy (set_if_needed sp name v r) = repo_busy r.
Proof.
  unfold set_if_needed.
  destruct (opt_string_eqb (repo_config r sp name) (Some v)); repeat split.
Qed.

Lemma configure_repo_frame s r :
  repo_tree (configure_repo s r) = repo_tree r
  /\ repo_worktree (configure_repo s r) = repo_worktree r
  /\ repo_commits (configure_repo s r) = repo_commits r
  /\ repo_busy (configure_repo s r) = repo_busy r.
Proof.
  unfold configure_repo.
  destruct (set_if_needed_frame (subproject_pk (subproject s)) "user.email"
              (committer_email (project (subproject s)))
              (set_if_needed (subproject_pk (subproject s)) "user.name"
                 (committer_name (project (subproject s))) r))
    as (H1 & H2 & H3 & H4).
  destruct (set_if_needed_frame (subproject_pk (subproject s)) "user.name"
              (committer_name (project (subproject s))) r)
    as (G1 & G2 & G3 & G4).
  rewrite H1, H2, H3, H4. repeat split; assumption.
Qed.

Lemma configure_committer_ok st :
  __configure_committer st = Ok tt (with_repo (configure_repo (self st)) st).
Proof.
  destruct st as [s c d r k ev].
  unfold __configure_committer, __configure_git, configure_repo, set_if_needed,
    bind, gets, modify, ret, with_repo.
  simpl.
  destruct (opt_string_eqb
              (repo_config r (subproject_pk (subproject s)) "user.name")
              (Some (committer_name (project (subproject s))))) eqn:E1; simpl.
  - destruct (opt_string_eqb
                (repo_config r (subproject_pk (subproject s)) "user.email")
                (Some (committer_email (project (subproject s))))) eqn:E2;
      reflexivity.
  - rewrite Bool.andb_false_r.
    destruct (opt_string_eqb
                (repo_config r (subproject_pk (subproject s)) "user.email")
                (Some (committer_email (project (subproject s))))) eqn:E2;
      reflexivity.
Qed.

Lemma opt_string_eqb_refl o : opt_string_eqb o o = true.
Proof. destruct o as [x |]; simpl; [apply String.eqb_refl | reflexivity]. Qed.

Lemma set_if_needed_satisfied sp name v r :
  opt_string_eqb (repo_config (set_if_needed sp name v r) sp name) (Some v) = true.
Proof.
  unfold set_if_needed.
  destruct (opt_string_eqb (repo_config r sp name) (Some v)) eqn:E; [exact E |].
  simpl. rewrite Z.eqb_refl, String.eqb_refl. simpl. apply String.eqb_refl.
Qed.

Lemma set_if_needed_other sp name name' v r :
  String.eqb name name' = false ->
  repo_config (set_if_needed sp name v r) sp name' = repo_config r sp name'.
Proof.
  intros Hne. unfold set_if_needed.
  destruct (opt_string_eqb (repo_config r sp name) (Some v)); [reflexivity |].
  simpl. rewrite Hne, Bool.andb_false_r. reflexivity.
Qed.

Lemma set_if_needed_noop sp name v r :
  opt_string_eqb (repo_config r sp name) (Some v) = true ->
  set_if_needed sp name v r = r.
Proof. intros H; unfold set_if_needed; rewrite H; reflexivity. Qed.

(** Configuring the committer twice is configuring it once. *)
Lemma configure_repo_idem s r :
  configure_repo s (configure_repo s r) = configure_repo s r.
Proof.
  unfold configure_repo.
  set (sp := subproject_pk (subproject s)).
  set (n := committer_name (project (subproject s))).
  set (e := committer_email (project (subproject s))).
  rewrite (set_if_needed_noop sp "user.name" n
             (set_if_needed sp "user.email" e (set_if_needed sp "user.name" n r))).
  - apply set_if_needed_noop, set_if_needed_satisfied.
  - rewrite set_if_needed_other by reflexivity. apply set_if_needed_satisfied.
Qed.

Lemma set_if_needed_busy sp name v script r :
  set_if_needed sp name v (set_busy script r) = set_busy script (set_if_needed sp name v r).
Proof.
  unfold set_if_needed; simpl.
  destruct (opt_string_eqb (repo_config r sp name) (Some v)); reflexivity.
Qed.

(** The busy script is no concern of the configuration. *)
Lemma configure_repo_busy s script r :
  configure_repo s (set_busy script r) = set_busy script (configure_repo s r).
Proof. unfold configure_repo. rewrite !set_if_needed_busy. reflexivity. Qed.

Lemma pop_busy_set_busy r :
  pop_busy r = set_busy (tl (repo_busy r)) r.
Proof. reflexivity. Qed.

Lemma get_commit_message_ok st :
  get_commit_message st = Ok (message_of (self st)) st.
Proof.
  unfold get_commit_message, bind at 1, gets.
  unfold bind at 1. rewrite get_fuzzy_percent_value.
  unfold bind at 1. rewrite get_translated_percent_value.
  reflexivity.
Qed.

Lemma git_needs_commit_ok st :
  git_needs_commit st = Ok (needs_commit st) st.
Proof.
  unfold git_needs_commit, needs_commit, bind, gets, ret.
  destruct (repo_worktree (repo st) (get_filename (self st)));
    destruct (repo_tree (repo st) (get_filename (self st))); reflexivity.
Qed.

(** The first part of [__git_commit], up to the git command: either the
    command is refused, or the file is committed. *)
Lemma git_commit_inner_busy author date sync st rest :
  repo_busy (repo st) = true :: rest ->
  __git_commit author (Some date) sync st
  = Raise GitCommandError
      (with_repo (fun r => pop_busy (configure_repo (self st) r)) st).
Proof.
  intros Hb. unfold __git_commit.
  rewrite (bind_ok _ _ _ _ _ (configure_committer_ok st)).
  rewrite (bind_ok _ _ _ _ _ (get_commit_message_ok _)).
  unfold bind, gets, ret, git_cmd_commit. simpl.
  destruct (configure_repo_frame (self st) (repo st)) as (_ & _ & _ & Hbusy).
  rewrite Hbusy, Hb. reflexivity.
Qed.

Lemma git_commit_inner_free author date sync st :
  hd false (repo_busy (repo st)) = false ->
  __git_commit author (Some date) sync st
  = (if sync then store_hash else ret tt) (committed author date st).
Proof.
  intros Hb. unfold __git_commit.
  rewrite (bind_ok _ _ _ _ _ (configure_committer_ok st)).
  rewrite (bind_ok _ _ _ _ _ (get_commit_message_ok _)).
  unfold bind, gets, ret, git_cmd_commit. simpl.
  destruct (configure_repo_frame (self st) (repo st)) as (_ & Hw & _ & Hbusy).
  rewrite Hbusy.
  assert (Hc : with_repo
                 (fun r => record_commit
                    {| commit_path := get_filename (self st); commit_author := author;
                       commit_date := date; commit_msg := message_of (self st);
                       commit_blob :=
                         match repo_worktree (configure_repo (self st) (repo st))
                                 (get_filename (self st)) with
                         | Some s => s
                         | None => {| store_units := []; store_poheader := false |}
                         end |} (pop_busy r))
                 (with_repo (configure_repo (self st)) st)
               = committed author date st).
  { unfold committed, the_commit. rewrite Hw. reflexivity. }
  destruct (repo_busy (repo st)) as [| [|] rest]; simpl in Hb; try discriminate;
    rewrite Hc; destruct sync; reflexivity.
Qed.

Lemma get_git_blob_hash_ok st :
  get_git_blob_hash st
  = match blob_hash_of (self st) (repo st) with
    | Some h => Ok h st
    | None => Raise KeyError st
    end.
Proof.
  unfold get_git_blob_hash, blob_hash_of, bind, gets, tree_lookup, ret.
  destruct (repo_tree (repo st) (get_filename (self st))) as [blob |]; [| reflexivity].
  destruct (has_template (subproject (self st))); [| reflexivity].
  destruct (repo_tree (repo st) _) as [tblob |]; reflexivity.
Qed.

Lemma store_hash_ok st :
  store_hash st
  = match blob_hash_of (self st) (repo st) with
    | Some h => Ok tt (stored h st)
    | None => Raise KeyError st
    end.
Proof.
  unfold store_hash. unfold bind at 1. rewrite get_git_blob_hash_ok.
  destruct (blob_hash_of (self st) (repo st)); reflexivity.
Qed.

Lemma git_commit_deferred author timestamp force sync skip st :
  deferred force st = true ->
  git_commit author timestamp force sync skip st = Ok false st.
Proof.
  unfold deferred, git_commit. intros H.
  rewrite (bind_ok _ _ _ _ _ (git_needs_commit_ok st)).
  destruct (needs_commit st); simpl in *; [| reflexivity].
  rewrite H. reflexivity.
Qed.

(** The git command goes through at once. *)
Lemma git_commit_free author date force sync skip st :
  deferred force st = false ->
  hd false (repo_busy (repo st)) = false ->
  git_commit author (Some date) force sync skip st
  = finish_commit sync skip
      (committed author date
         (emit (EvGitLockAcquire (subproject_pk (subproject (self st)))) st)).
Proof.
  unfold deferred, git_commit. intros H Hb.
  rewrite (bind_ok _ _ _ _ _ (git_needs_commit_ok st)).
  destruct (needs_commit st); simpl in H; [| discriminate].
  rewrite H. simpl.
  unfold with_git_lock, bind at 1. unfold bind at 1, gets at 1.
  unfold bind at 1, modify at 1, finally, try_except.
  rewrite git_commit_inner_free by exact Hb.
  unfold finish_commit.
  destruct sync.
  - rewrite store_hash_ok.
    destruct (blob_hash_of _ _) as [h |]; [| reflexivity].
    unfold bind, gets, do_push, modify, ret. simpl.
    destruct (push_on_commit (project (subproject (self st))) && negb skip);
      reflexivity.
  - unfold bind, gets, do_push, modify, ret. simpl.
    destruct (push_on_commit (project (subproject (self st))) && negb skip);
      reflexivity.
Qed.

Lemma busy_after_refusal s r rest :
  repo_busy r = true :: rest ->
  repo_busy (pop_busy (configure_repo s r)) = rest.
Proof.
  intros Hb. simpl.
  destruct (configure_repo_frame s r) as (_ & _ & _ & Hbusy).
  rewrite Hbusy, Hb. reflexivity.
Qed.

(** The git command is refused once and goes through on the retry. *)
Lemma git_commit_retry author date force sync skip st rest :
  deferred force st = false ->
  repo_busy (repo st) = true :: rest ->
  hd false rest = false ->
  git_commit author (Some date) force sync skip st
  = finish_commit sync skip
      (committed author date
         (emit EvSleep
            (with_repo (fun r => pop_busy (configure_repo (self st) r))
               (emit (EvGitLockAcquire (subproject_pk (subproject (self st)))) st)))).
Proof.
  unfold deferred, git_commit. intros H Hb Hrest.
  rewrite (bind_ok _ _ _ _ _ (git_needs_commit_ok st)).
  destruct (needs_commit st); simpl in H; [| discriminate].
  rewrite H. simpl.
  unfold with_git_lock, bind at 1. unfold bind at 1, gets at 1.
  unfold bind at 1, modify at 1, finally, try_except.
  rewrite (git_commit_inner_busy author date sync _ rest) by exact Hb.
  simpl exn_eqb. cbv iota.
  unfold sleep_while_git_locked, bind at 1, modify at 1.
  rewrite git_commit_inner_free.
  2:{ simpl repo. simpl self. rewrite busy_after_refusal with (rest := rest) by exact Hb.
      exact Hrest. }
  unfold finish_commit.
  destruct sync.
  - rewrite store_hash_ok.
    destruct (blob_hash_of _ _) as [h |]; [| reflexivity].
    unfold bind, gets, do_push, modify, ret. simpl.
    destruct (push_on_commit (project (subproject (self st))) && negb skip);
      reflexivity.
  - unfold bind, gets, do_push, modify, ret. simpl.
    destruct (push_on_commit (project (subproject (self st))) && negb skip);
      reflexivity.
Qed.

(** The git command is refused twice: the second refusal is the caller's. *)
Lemma git_commit_refused_twice author date force sync skip st rest :
  deferred force st = false ->
  repo_busy (repo st) = true :: true :: rest ->
  git_commit author (Some date) force sync skip st
  = Raise GitCommandError
      (emit (EvGitLockRelease (subproject_pk (subproject (self st))))
         (with_repo (fun r => pop_busy (configure_repo (self st) r))
            (emit EvSleep
               (with_repo (fun r => pop_busy (configure_repo (self st) r))
                  (emit (EvGitLockAcquire (subproject_pk (subproject (self st)))) st))))).
Proof.
  unfold deferred, git_commit. intros H Hb.
  rewrite (bind_ok _ _ _ _ _ (git_needs_commit_ok st)).
  destruct (needs_commit st); simpl in H; [| discriminate].
  rewrite H. simpl.
  unfold with_git_lock, bind at 1. unfold bind at 1, gets at 1.
  unfold bind at 1, modify at 1, finally, try_except.
  rewrite (git_commit_inner_busy author date sync _ (true :: rest)) by exact Hb.
  simpl exn_eqb. cbv iota.
  unfold sleep_while_git_locked, bind at 1, modify at 1.
  rewrite (git_commit_inner_busy author date sync _ rest).
  2:{ simpl repo. simpl self.
      rewrite busy_after_refusal with (rest := true :: rest) by exact Hb.
      reflexivity. }
  reflexivity.
Qed.

Lemma busy_cases (script : list bool) :
  hd false script = false
  \/ (exists rest, script = true :: rest /\ hd false rest = false)
  \/ (exists rest, script = true :: true :: rest).
Proof.
  destruct script as [| [|] [| [|] rest]]; simpl; eauto.
Qed.

Lemma path_eqb_refl (p : Path) : path_eqb p p = true.
Proof. unfold path_eqb. rewrite Z.eqb_refl, String.eqb_refl. reflexivity. Qed.

Lemma committed_log author date st :
  repo_commits (repo (committed author date st))
  = the_commit author date st :: repo_commits (repo st)
  /\ repo_tree (repo (committed author date st)) (get_filename (self st))
     = repo_worktree (repo st) (get_filename (self st))
  /\ repo_busy (repo (committed author date st)) = tl (repo_busy (repo st))
  /\ self (committed author date st) = self st
  /\ db (committed author date st) = db st
  /\ events (committed author date st) = events st.
Proof.
  destruct (configure_repo_frame (self st) (repo st)) as (Ht & Hw & Hc & Hb).
  unfold committed; simpl. rewrite Hc, Hw, Hb.
  unfold upd_path. rewrite path_eqb_refl. repeat split.
Qed.

Lemma finish_commit_ok sync skip st b st' :
  finish_commit sync skip st = Ok b st' ->
  b = true /\ repo st' = repo st
  /\ (sync = true -> blob_hash_of (self st) (repo st) = Some (revision (self st'))).
Proof.
  unfold finish_commit. destruct sync.
  - destruct (blob_hash_of (self st) (repo st)) as [h |]; [| discriminate].
    simpl. destruct (push_on_commit _ && negb skip); intros H; inversion H; subst;
      repeat split.
  - destruct (push_on_commit _ && negb skip); intros H; inversion H; subst;
      repeat split; discriminate.
Qed.

Lemma finish_commit_returns sync skip st :
  (sync = true -> exists h, blob_hash_of (self st) (repo st) = Some h) ->
  exists st', finish_commit sync skip st = Ok true st'.
Proof.
  intros H. unfold finish_commit. destruct sync.
  - destruct (H eq_refl) as [h ->]. eexists; reflexivity.
  - eexists; reflexivity.
Qed.

Lemma blob_hash_after_commit author date st :
  hash_readable st ->
  exists h, blob_hash_of (self st) (repo (committed author date st)) = Some h.
Proof.
  intros [[w Hw] Ht].
  destruct (configure_repo_frame (self st) (repo st)) as (Htree & Hwork & _ & _).
  unfold blob_hash_of, committed. simpl.
  unfold upd_path at 1. rewrite path_eqb_refl, Hwork, Hw.
  destruct (has_template (subproject (self st))) eqn:E; [| eexists; reflexivity].
  destruct (Ht eq_refl) as [t Htpl].
  unfold upd_path. destruct (path_eqb _ _).
  - eexists; reflexivity.
  - rewrite Htree, Htpl. eexists; reflexivity.
Qed.

(** A refusal changes neither what is committed nor by whom. *)
Lemma the_commit_after_refusal author date st e1 e2 :
  the_commit author date
    (emit e1 (with_repo (fun r => pop_busy (configure_repo (self st) r)) (emit e2 st)))
  = the_commit author date st.
Proof.
  destruct (configure_repo_frame (self st) (repo st)) as (_ & Hw & _ & _).
  unfold the_commit; simpl. rewrite Hw. reflexivity.
Qed.

(** Whenever [git_commit] returns after deciding to commit, it returns true
    and the log has grown by exactly the commit of the file as it is on
    disk, which HEAD now holds. *)
Lemma git_commit_ok_one_commit author date force sync skip st b st' :
  deferred force st = false ->
  git_commit author (Some date) force sync skip st = Ok b st' ->
  b = true
  /\ repo_commits (repo st') = the_commit author date st :: repo_commits (repo st)
  /\ repo_tree (repo st') (get_filename (self st))
     = repo_worktree (repo st) (get_filename (self st)).
Proof.
  intros Hd Hrun.
  destruct (busy_cases (repo_busy (repo st))) as [Hfree | [(rest & Hb & Hrest) | (rest & Hb)]].
  - rewrite git_commit_free in Hrun by assumption.
    apply finish_commit_ok in Hrun. destruct Hrun as (-> & Hrepo & _).
    rewrite Hrepo.
    destruct (committed_log author date
                (emit (EvGitLockAcquire (subproject_pk (subproject (self st)))) st))
      as (Hc & Ht & _).
    rewrite Hc. split; [reflexivity |]. split; [reflexivity | exact Ht].
  - rewrite (git_commit_retry _ _ _ _ _ _ rest) in Hrun by assumption.
    apply finish_commit_ok in Hrun. destruct Hrun as (-> & Hrepo & _).
    rewrite Hrepo.
    match goal with |- context [committed author date ?X] =>
      destruct (committed_log author date X) as (Hc & Ht & _) end.
    rewrite Hc, the_commit_after_refusal.
    destruct (configure_repo_frame (self st) (repo st)) as (_ & Hw & Hcm & _).
    split; [reflexivity |]. split.
    + simpl. rewrite Hcm. reflexivity.
    + etransitivity; [exact Ht |]. simpl. rewrite Hw. reflexivity.
  - rewrite (git_commit_refused_twice _ _ _ _ _ _ rest) in Hrun by assumption.
    discriminate Hrun.
Qed.

Lemma hash_readable_after_refusal st e1 e2 :
  hash_readable st ->
  hash_readable
    (emit e1 (with_repo (fun r => pop_busy (configure_repo (self st) r)) (emit e2 st))).
Proof.
  intros [Hw Ht].
  destruct (configure_repo_frame (self st) (repo st)) as (Htree & Hwork & _ & _).
  unfold hash_readable; simpl. rewrite Htree, Hwork. split; assumption.
Qed.

(** Once [git_commit] has decided to commit, it returns when git refuses the
    command at most once and the hash, if it is to be stored, can be read. *)
Lemma git_commit_returns author date force sync skip st :
  deferred force st = false ->
  refused_at_most_once (repo_busy (repo st)) ->
  (sync = true -> hash_readable st) ->
  exists st', git_commit author (Some date) force sync skip st = Ok true st'.
Proof.
  intros Hd Hscript Hread.
  destruct (busy_cases (repo_busy (repo st))) as [Hfree | [(rest & Hb & Hrest) | (rest & Hb)]].
  - rewrite git_commit_free by assumption.
    apply finish_commit_returns. intros Hs.
    apply (blob_hash_after_commit author date
             (emit (EvGitLockAcquire (subproject_pk (subproject (self st)))) st)).
    exact (Hread Hs).
  - rewrite (git_commit_retry _ _ _ _ _ _ rest) by assumption.
    apply finish_commit_returns. intros Hs.
    match goal with |- context [committed author date ?X] =>
      apply (blob_hash_after_commit author date X) end.
    apply hash_readable_after_refusal. exact (Hread Hs).
  - exfalso. exact (Hscript rest Hb).
Qed.

Lemma store_save_ok content st :
  store_save content st
  = Ok tt (with_repo (set_worktree (get_filename (self st)) content) st).
Proof. reflexivity. Qed.

(** With lazy commits an edit saves the file and commits nothing. *)
Lemma edit_file_lazy author content st :
  LAZY_COMMITS appsettings = true ->
  edit_file author content st
  = Ok false (with_repo (set_worktree (get_filename (self st)) content) st).
Proof.
  intros Hlazy. unfold edit_file.
  rewrite (bind_ok _ _ _ _ _ (store_save_ok content st)).
  unfold bind at 1, gets at 1.
  apply git_commit_deferred.
  unfold deferred. rewrite Hlazy. simpl. apply Bool.orb_true_r.
Qed.

Lemma last_default_irrelevant {A} (x : A) (l : list A) (d d' : A) :
  last (x :: l) d = last (x :: l) d'.
Proof.
  revert x; induction l as [| y l IH]; intros x; [reflexivity |].
  change (last (y :: l) d = last (y :: l) d'). apply IH.
Qed.

Lemma lazy_edits_commit_nothing author edits st :
  LAZY_COMMITS appsettings = true ->
  exists st',
    sequence (map (edit_file author) edits) st = Ok (map (fun _ => false) edits) st'
    /\ self st' = self st
    /\ repo_commits (repo st') = repo_commits (repo st)
    /\ repo_tree (repo st') = repo_tree (repo st)
    /\ repo_busy (repo st') = repo_busy (repo st)
    /\ repo_worktree (repo st') (get_filename (self st))
       = last (map Some edits) (repo_worktree (repo st) (get_filename (self st))).
Proof.
  intros Hlazy. revert st.
  induction edits as [| c edits IH]; intros st.
  - exists st. repeat split.
  - destruct (IH (with_repo (set_worktree (get_filename (self st)) c) st))
      as (st' & Hrun & Hself & Hlog & Htree & Hbusy & Hwork).
    exists st'. split.
    + simpl. rewrite (bind_ok _ _ _ _ _ (edit_file_lazy author c st Hlazy)).
      rewrite (bind_ok _ _ _ _ _ Hrun). reflexivity.
    + simpl in Hself, Hlog, Htree, Hbusy, Hwork.
      rewrite Hself, Hlog, Htree, Hbusy. repeat split.
      rewrite Hwork. unfold upd_path. rewrite path_eqb_refl.
      destruct edits as [| c' edits']; [reflexivity |].
      apply (last_default_irrelevant (Some c') (map Some edits')).
Qed.

(** C6. [git_commit] returns false, leaving everything as it was, exactly
    when the file has no uncommitted change or when the commit is not forced
    and lazy commits are configured. In every other case a returning call
    returns true after exactly one commit of the file as it is on disk, and
    it does return when git refuses at most once and the hash can be read
    back. With lazy commits, any run of edits commits nothing; the forced
    call that follows makes the one commit, which holds the last saved
    content, that is all accumulated edits. *)
Theorem git_commit_gating :
  forall (author : string) (date : Z) (force sync skip : bool) (st : State),
    (negb (needs_commit st) || (negb force && LAZY_COMMITS appsettings) = true ->
       git_commit author (Some date) force sync skip st = Ok false st)
    /\
    (forall st', git_commit author (Some date) force sync skip st = Ok false st' ->
       negb (needs_commit st) || (negb force && LAZY_COMMITS appsettings) = true)
    /\
    (negb (needs_commit st) || (negb force && LAZY_COMMITS appsettings) = false ->
       (forall b st', git_commit author (Some date) force sync skip st = Ok b st' ->
          b = true
          /\ repo_commits (repo st') = the_commit author date st :: repo_commits (repo st)
          /\ repo_tree (repo st') (get_filename (self st))
             = repo_worktree (repo st) (get_filename (self st)))
       /\
       (refused_at_most_once (repo_busy (repo st)) ->
        (sync = true -> hash_readable st) ->
        exists st', git_commit author (Some date) force sync skip st = Ok true st'))
    /\
    (LAZY_COMMITS appsettings = true ->
     forall (editor : string) (edits : list Store) (last_edit : Store),
     exists st1,
       sequence (map (edit_file editor) (edits ++ [last_edit])) st
         = Ok (map (fun _ => false) (edits ++ [last_edit])) st1
       /\ repo_commits (repo st1) = repo_commits (repo st)
       /\ (needs_commit st1 = true ->
           (forall b st2, git_commit author (Some date) true sync skip st1 = Ok b st2 ->
              b = true
              /\ exists c, repo_commits (repo st2) = c :: repo_commits (repo st)
                           /\ commit_path c = get_filename (self st)
                           /\ commit_blob c = last_edit)
           /\
           (refused_at_most_once (repo_busy (repo st)) ->
            (sync = true -> hash_readable st1) ->
            exists st2, git_commit author (Some date) true sync skip st1 = Ok true st2))).
Proof.
  intros author date force sync skip st.
  change (negb (needs_commit st) || (negb force && LAZY_COMMITS appsettings))
    with (deferred force st).
  split; [apply git_commit_deferred |].
  split.
  { intros st' Hrun. destruct (deferred force st) eqn:Hd; [reflexivity |].
    destruct (git_commit_ok_one_commit _ _ _ _ _ _ _ _ Hd Hrun) as (Hb & _).
    discriminate Hb. }
  split.
  { intros Hd. split.
    - intros b st'. apply git_commit_ok_one_commit. exact Hd.
    - apply git_commit_returns. exact Hd. }
  intros Hlazy editor edits last_edit.
  destruct (lazy_edits_commit_nothing editor (edits ++ [last_edit]) st Hlazy)
    as (st1 & Hrun & Hself & Hlog & Htree & Hbusy & Hwork).
  exists st1. split; [exact Hrun |]. split; [exact Hlog |].
  intros Hneeds.
  assert (Hd : deferred true st1 = false).
  { unfold deferred. rewrite Hneeds. reflexivity. }
  split.
  - intros b st2 Hcommit.
    destruct (git_commit_ok_one_commit _ _ _ _ _ _ _ _ Hd Hcommit) as (Hb & Hc & _).
    split; [exact Hb |].
    exists (the_commit author date st1). rewrite Hc, Hlog.
    split; [reflexivity |].
    unfold the_commit; simpl. rewrite Hself. split; [reflexivity |].
    rewrite Hwork, map_app.
    change (map Some [last_edit]) with [Some last_edit].
    rewrite last_last. reflexivity.
  - rewrite <- Hbusy. apply git_commit_returns. exact Hd.
Qed.

(** ** The retry *)

(** The repositories after a refusal and a retry are those of a first
    attempt that was not refused. *)
Lemma repo_after_retry s r rest :
  repo_busy r = true :: rest ->
  pop_busy (configure_repo s (pop_busy (configure_repo s r)))
  = pop_busy (configure_repo s (set_busy rest r)).
Proof.
  intros Hb.
  destruct (configure_repo_frame s r) as (_ & _ & _ & Hbusy).
  rewrite (pop_busy_set_busy (configure_repo s r)), Hbusy, Hb. simpl tl.
  rewrite !configure_repo_busy, configure_repo_idem. reflexivity.
Qed.

Lemma finish_commit_slept sync skip st1 st2 b st1' :
  same_but_slept st1 st2 ->
  finish_commit sync skip st1 = Ok b st1' ->
  exists st2', finish_commit sync skip st2 = Ok b st2' /\ same_but_slept st1' st2'.
Proof.
  destruct st1 as [s1 c1 d1 r1 k1 ev1], st2 as [s2 c2 d2 r2 k2 ev2].
  unfold same_but_slept; simpl.
  intros (-> & -> & -> & -> & -> & Hs).
  unfold finish_commit; simpl.
  destruct sync.
  - destruct (blob_hash_of s1 r1) as [h |]; [| discriminate].
    destruct (push_on_commit (project (subproject s1)) && negb skip);
      intros H; inversion H; subst; eexists; (split; [reflexivity |]);
      simpl; repeat split; unfold sleeps in *; simpl; exact Hs.
  - destruct (push_on_commit (project (subproject s1)) && negb skip);
      intros H; inversion H; subst; eexists; (split; [reflexivity |]);
      simpl; repeat split; unfold sleeps in *; simpl; exact Hs.
Qed.

Lemma committed_after_retry author date st rest :
  repo_busy (repo st) = true :: rest ->
  same_but_slept
    (committed author date
       (emit (EvGitLockAcquire (subproject_pk (subproject (self st))))
          (with_repo (set_busy rest) st)))
    (committed author date
       (emit EvSleep
          (with_repo (fun r => pop_busy (configure_repo (self st) r))
             (emit (EvGitLockAcquire (subproject_pk (subproject (self st)))) st)))).
Proof.
  intros Hb. unfold same_but_slept.
  repeat split.
  unfold committed.
  rewrite the_commit_after_refusal.
  simpl. rewrite (repo_after_retry (self st) (repo st) rest Hb).
  reflexivity.
Qed.

(** C9. When the git command of [git_commit] fails with [GitCommandError],
    the process sleeps once and tries once more. If the retry goes through,
    [git_commit] returns what it would have returned had the first attempt
    not been refused, true, and leaves the same object, database and
    repositories; only the sleep shows in the log. If the retry is refused
    too, the error reaches the caller after exactly two attempts, with
    nothing committed. *)
Theorem git_commit_retries_once :
  forall (author : string) (date : Z) (force sync skip : bool) (st : State)
         (rest : list bool),
    negb (needs_commit st) || (negb force && LAZY_COMMITS appsettings) = false ->
    repo_busy (repo st) = true :: rest ->
    (hd false rest = false ->
     forall b st1,
       git_commit author (Some date) force sync skip (with_repo (set_busy rest) st)
         = Ok b st1 ->
       exists st2,
         git_commit author (Some date) force sync skip st = Ok b st2
         /\ b = true
         /\ same_but_slept st1 st2
         /\ repo_busy (repo st2) = tl rest)
    /\
    (forall rest', rest = true :: rest' ->
       exists st',
         git_commit author (Some date) force sync skip st = Raise GitCommandError st'
         /\ repo_commits (repo st') = repo_commits (repo st)
         /\ repo_tree (repo st') = repo_tree (repo st)
         /\ repo_busy (repo st') = rest'
         /\ sleeps (events st') = S (sleeps (events st))).
Proof.
  intros author date force sync skip st rest Hd Hb.
  change (deferred force st = false) in Hd.
  split.
  - intros Hrest b st1 Hfree.
    rewrite git_commit_free in Hfree; [| exact Hd | exact Hrest].
    rewrite (git_commit_retry _ _ _ _ _ _ rest Hd Hb Hrest).
    destruct (finish_commit_slept _ _ _ _ _ _
                (committed_after_retry author date st rest Hb) Hfree)
      as (st2 & Hrun & Hrel).
    exists st2. split; [exact Hrun |].
    destruct (finish_commit_ok _ _ _ _ _ Hfree) as (Htrue & Hrepo & _).
    split; [exact Htrue |]. split; [exact Hrel |].
    destruct Hrel as (_ & _ & _ & Hr & _). rewrite Hr, Hrepo.
    match goal with |- context [committed author date ?X] =>
      destruct (committed_log author date X) as (_ & _ & Hbusy & _) end.
    rewrite Hbusy. reflexivity.
  - intros rest' ->.
    rewrite (git_commit_refused_twice _ _ _ _ _ _ rest' Hd Hb).
    eexists. split; [reflexivity |].
    destruct (configure_repo_frame (self st) (repo st)) as (Ht & Hw & Hc & Hbusy).
    destruct (configure_repo_frame (self st) (pop_busy (configure_repo (self st) (repo st))))
      as (Ht' & Hw' & Hc' & Hbusy').
    simpl. rewrite Hc', Ht', Hbusy'. simpl. rewrite Hc, Ht, Hbusy, Hb.
    repeat split.
Qed.

(** ** Pending changes of another author *)

Lemma opt_string_eqb_eq a b : opt_string_eqb a b = true <-> a = b.
Proof.
  destruct a as [x |], b as [y |]; simpl; split; intros H;
    try discriminate; try reflexivity.
  - apply String.eqb_eq in H. congruence.
  - inversion H; subst. apply String.eqb_refl.
Qed.




(** ** Re-synchronisation *)

Lemma blob_hash_of_revision h s r :
  blob_hash_of (set_revision h s) r = blob_hash_of s r.
Proof. reflexivity. Qed.

Lemma update_stats_stores_hash st st' :
  update_stats st = Ok tt st' ->
  blob_hash_of (self st') (repo st') = Some (revision (self st')).
Proof.
  unfold update_stats, bind at 1, gets at 1.
  unfold bind at 1, gets at 1. unfold bind at 1, modify at 1.
  unfold bind at 1, save at 1, modify at 1.
  rewrite store_hash_ok.
  match goal with |- context [blob_hash_of ?s ?r] =>
    destruct (blob_hash_of s r) as [h |] eqn:Eh end; [| discriminate].
  intros H; inversion H; subst; clear H.
  unfold stored. simpl. simpl in Eh. exact Eh.
Qed.

Lemma notify_new_string_frame st :
  exists st', notify_new_string st = Ok tt st'
    /\ self st' = self st /\ db st' = db st /\ repo st' = repo st.
Proof.
  unfold notify_new_string, bind at 1, gets at 1.
  generalize (subscribed_new_string (project (subproject (self st))) (language (self st))).
  generalize (pk (self st)) as key.
  intros key l. revert st.
  induction l as [| p l IH]; intros st.
  - exists st. repeat split.
  - simpl. unfold bind at 1, modify at 1.
    destruct (IH (emit (EvNotifyNewString p key) st)) as (st' & Hrun & Hs & Hd & Hr).
    exists st'. split; [exact Hrun |]. repeat split; assumption.
Qed.

(** A processing run of [update_from_blob] ends with the stored revision
    equal to the blob hash of the repository. *)
Lemma resync_stores_hash request st st' :
  resync request st = Ok tt st' ->
  blob_hash_of (self st') (repo st') = Some (revision (self st')).
Proof.
  unfold resync. intros H.
  apply bind_ok_inv in H. destruct H as (s & st0 & _ & H).
  apply bind_ok_inv in H. destruct H as (d & st1 & _ & H).
  apply bind_ok_inv in H. destruct H as (store & st2 & _ & H).
  apply bind_ok_inv in H. destruct H as (tstore & st3 & _ & H).
  apply bind_ok_inv in H. destruct H as ([[was_new pos] oldunits] & st4 & _ & H).
  apply bind_ok_inv in H. destruct H as ([] & st5 & _ & H).
  apply bind_ok_inv in H. destruct H as ([] & st6 & Hstats & H).
  apply bind_ok_inv in H. destruct H as ([] & st7 & Hchange & H).
  apply update_stats_stores_hash in Hstats.
  unfold Change_create, bind, gets, modify in Hchange.
  inversion Hchange; subst st7; clear Hchange.
  destruct was_new.
  - destruct (notify_new_string_frame
                (with_db (with_changes (cons
                   {| change_translation := pk (self st6);
                      change_action := ACTION_UPDATE;
                      change_user := option_map request_user request;
                      change_timestamp := clock st6 |})) st6))
      as (st8 & Hrun & Hs & _ & Hr).
    rewrite Hrun in H. inversion H; subst st8.
    rewrite Hs, Hr. exact Hstats.
  - inversion H; subst. exact Hstats.
Qed.

(** C4. After a call of [update_from_blob] that returned, forced or not, a
    further call without force on the unchanged repository returns at once
    in the very same state: no unit is written or deleted, no statistics
    are stored, no audit entry is made, and every unit keeps its checksum
    and position. *)
Theorem update_from_blob_idempotent :
  forall (force : bool) (request request' : option Request) (st st1 : State),
    update_from_blob force request st = Ok tt st1 ->
    update_from_blob false request' st1 = Ok tt st1
    /\ blob_hash_of (self st1) (repo st1) = Some (revision (self st1))
    /\ (forall st2, update_from_blob false request' st1 = Ok tt st2 ->
          db_units (db st2) = db_units (db st1)
          /\ db_changes (db st2) = db_changes (db st1)
          /\ self st2 = self st1
          /\ repo st2 = repo st1).
Proof.
  intros force request request' st st1 Hfirst.
  assert (Hhash : blob_hash_of (self st1) (repo st1) = Some (revision (self st1))).
  { unfold update_from_blob in Hfirst.
    unfold bind at 1 in Hfirst. rewrite get_git_blob_hash_ok in Hfirst.
    destruct (blob_hash_of (self st) (repo st)) as [h |] eqn:Eh; [| discriminate].
    unfold bind at 1, gets at 1 in Hfirst.
    destruct (String.eqb (revision (self st)) h) eqn:Erev; simpl in Hfirst.
    - destruct force.
      + apply (resync_stores_hash _ _ _ Hfirst).
      + inversion Hfirst; subst st1.
        apply String.eqb_eq in Erev. rewrite Erev. exact Eh.
    - apply (resync_stores_hash _ _ _ Hfirst). }
  assert (Hsecond : update_from_blob false request' st1 = Ok tt st1).
  { unfold update_from_blob.
    unfold bind at 1. rewrite get_git_blob_hash_ok, Hhash.
    unfold bind at 1, gets at 1.
    rewrite String.eqb_refl. reflexivity. }
  split; [exact Hsecond |]. split; [exact Hhash |].
  intros st2 H2. rewrite Hsecond in H2. inversion H2; subst.
  repeat split.
Qed.

(** ** Cleanup of dependent records *)

Lemma recheck_units_ok units st :
  for_each units (fun unit => modify (with_db (with_checks (unit_check unit)))) st
  = Ok tt (with_db (with_checks (fun rows =>
             fold_left (fun rows unit => unit_check unit rows) units rows)) st).
Proof.
  revert st. induction units as [| u units IH]; intros st.
  - destruct st as [s c d r k ev]; destruct d; reflexivity.
  - simpl for_each. unfold bind at 1, modify at 1. rewrite IH. reflexivity.
Qed.

Lemma cleanup_checksum_ok c st :
  cleanup_checksum c st = Ok tt (with_db (cleanup_db (self st) c) st).
Proof.
  unfold cleanup_checksum, bind at 1, gets at 1. unfold bind at 1, gets at 1.
  change (with_db (cleanup_db (self st) c) st)
    with {| self := self st; _store := _store st;
            db := cleanup_db (self st) c (db st);
            repo := repo st; clock := clock st; events := events st |}.
  unfold cleanup_db.
  destruct (units_in_language (self st) c (db st)) as [| u units] eqn:Eu.
  - unfold bind, modify, gets, ret. simpl.
    unfold units_in_project. simpl.
    destruct (filter _ (db_units (db st))); reflexivity.
  - rewrite recheck_units_ok. reflexivity.
Qed.

Lemma cleanup_loop_ok cs st :
  for_each cs cleanup_checksum st = Ok tt (with_db (cleanup_all (self st) cs) st).
Proof.
  revert st. induction cs as [| c cs IH]; intros st.
  - destruct st as [s ch d r k ev]; reflexivity.
  - simpl for_each. unfold bind at 1. rewrite cleanup_checksum_ok, IH. reflexivity.
Qed.

Lemma delete_unused_ok oldunits st :
  delete_unused oldunits st
  = Ok tt (with_db (fun d =>
             cleanup_all (self st) (deleted_checksums oldunits st)
               (with_units (fun _ => remaining_units oldunits st) d)) st).
Proof.
  unfold delete_unused, bind at 1, gets at 1. unfold bind at 1, gets at 1.
  unfold bind at 1, modify at 1. rewrite cleanup_loop_ok. reflexivity.
Qed.

Lemma cleanup_db_units s c d : db_units (cleanup_db s c d) = db_units d.
Proof.
  unfold cleanup_db.
  destruct (units_in_language s c d); [| reflexivity].
  unfold units_in_project; simpl.
  destruct (filter _ (db_units d)); reflexivity.
Qed.

Lemma cleanup_all_units s cs d : db_units (cleanup_all s cs d) = db_units d.
Proof.
  revert d. induction cs as [| c cs IH]; intros d; [reflexivity |].
  simpl. rewrite IH. apply cleanup_db_units.
Qed.

Lemma language_refs_cleanup s c c' d :
  language_refs s c (cleanup_db s c' d) = language_refs s c d.
Proof. unfold language_refs, units_in_language. rewrite cleanup_db_units. reflexivity. Qed.

Lemma project_refs_cleanup s c c' d :
  project_refs s c (cleanup_db s c' d) = project_refs s c d.
Proof. unfold project_refs, units_in_project. rewrite cleanup_db_units. reflexivity. Qed.

(** A unit of the translation's language is a unit of the project. *)
Lemma language_refs_project_refs s c d :
  language_refs s c d = true -> project_refs s c d = true.
Proof.
  unfold language_refs, project_refs, units_in_language, units_in_project.
  induction (db_units d) as [| u us IH]; simpl; [discriminate |].
  destruct (language_eqb _ _); simpl.
  - destruct (project_eqb _ _ && String.eqb _ _); [reflexivity | exact IH].
  - destruct (project_eqb _ _ && String.eqb _ _); [reflexivity | exact IH].
Qed.

(** The tables one round of the cleanup leaves. *)
Lemma cleanup_db_tables s c d :
  let prj := project (subproject s) in
  let lang := Some (language s) in
  db_suggestions (cleanup_db s c d)
    = (if language_refs s c d then db_suggestions d
       else delete_rows prj lang c (db_suggestions d))
  /\ db_comments (cleanup_db s c d)
    = (if language_refs s c d then db_comments d
       else if project_refs s c d then delete_rows prj lang c (db_comments d)
       else delete_rows prj None c (delete_rows prj lang c (db_comments d)))
  /\ db_checks (cleanup_db s c d)
    = (if language_refs s c d
       then fold_left (fun rows unit => unit_check unit rows)
                      (units_in_language s c d) (db_checks d)
       else if project_refs s c d then delete_rows prj lang c (db_checks d)
       else delete_rows prj None c (delete_rows prj lang c (db_checks d))).
Proof.
  unfold cleanup_db, language_refs, project_refs.
  destruct (units_in_language s c d) as [| u units]; [| repeat split].
  unfold units_in_project; simpl.
  destruct (filter _ (db_units d)); repeat split.
Qed.

Lemma filter_andb {A} (f g : A -> bool) (l : list A) :
  filter (fun x => f x && g x) l = filter f (filter g l).
Proof.
  induction l as [| x l IH]; simpl; [reflexivity |].
  destruct (g x); simpl.
  - destruct (f x); simpl; rewrite IH; reflexivity.
  - rewrite Bool.andb_false_r. exact IH.
Qed.

Lemma rows_for_delete_same p l c rows :
  rows_for p l c (delete_rows p l c rows) = [].
Proof.
  unfold rows_for, delete_rows.
  induction rows as [| r rows IH]; simpl; [reflexivity |].
  destruct (dep_key p l c r) eqn:E; simpl; [exact IH |].
  rewrite E. exact IH.
Qed.

Lemma rows_for_delete_other p l c p' l' c' rows :
  (forall r, dep_key p l c r = true -> dep_key p' l' c' r = false) ->
  rows_for p l c (delete_rows p' l' c' rows) = rows_for p l c rows.
Proof.
  intros Hdis. unfold rows_for, delete_rows.
  induction rows as [| r rows IH]; simpl; [reflexivity |].
  destruct (dep_key p' l' c' r) eqn:E'; simpl.
  - destruct (dep_key p l c r) eqn:E; [| exact IH].
    rewrite (Hdis r E) in E'. discriminate E'.
  - rewrite IH. reflexivity.
Qed.

Lemma dep_key_other_checksum p l c p' l' c' r :
  String.eqb c c' = false ->
  dep_key p l c r = true -> dep_key p' l' c' r = false.
Proof.
  unfold dep_key. intros Hne H.
  apply Bool.andb_true_iff in H. destruct H as [_ Hc].
  apply String.eqb_eq in Hc. rewrite Hc, Hne. apply Bool.andb_false_r.
Qed.

Lemma dep_key_some_none p x c p' c' r :
  dep_key p (Some x) c r = true -> dep_key p' None c' r = false.
Proof.
  unfold dep_key. intros H.
  apply Bool.andb_true_iff in H. destruct H as [H _].
  apply Bool.andb_true_iff in H. destruct H as [_ H].
  destruct (dep_language r); [| discriminate H].
  simpl. rewrite Bool.andb_false_r. reflexivity.
Qed.

Lemma dep_key_none_some p x c p' c' r :
  dep_key p None c r = true -> dep_key p' (Some x) c' r = false.
Proof.
  unfold dep_key. intros H.
  apply Bool.andb_true_iff in H. destruct H as [H _].
  apply Bool.andb_true_iff in H. destruct H as [_ H].
  destruct (dep_language r); [discriminate H |].
  simpl. rewrite Bool.andb_false_r. reflexivity.
Qed.

(** From one round to the whole loop: if a round empties the rows of a key
    exactly when it is the round of the key's checksum and [trigger] holds,
    so does the loop. *)
Lemma cleanup_all_rows s (get : DB -> list DepRow) p l c
    (trigger : string -> DB -> bool) (Inv : DB -> Prop) :
  (forall c' d, Inv d -> Inv (cleanup_db s c' d)) ->
  (forall c' c'' d, trigger c' (cleanup_db s c'' d) = trigger c' d) ->
  (forall c' d, Inv d ->
     rows_for p l c (get (cleanup_db s c' d))
     = if String.eqb c c' && trigger c' d then [] else rows_for p l c (get d)) ->
  forall cs d, Inv d ->
    rows_for p l c (get (cleanup_all s cs d))
    = if existsb (String.eqb c) cs && trigger c d then [] else rows_for p l c (get d).
Proof.
  intros Hinv Htrig Hstep cs.
  induction cs as [| c' cs IH]; intros d Hd; [reflexivity |].
  simpl cleanup_all. simpl existsb.
  rewrite (IH _ (Hinv c' d Hd)), Htrig, (Hstep c' d Hd).
  destruct (String.eqb c c') eqn:E; simpl.
  - apply String.eqb_eq in E; subst c'.
    destruct (trigger c d); simpl.
    + destruct (existsb (String.eqb c) cs); reflexivity.
    + rewrite Bool.andb_false_r. reflexivity.
  - reflexivity.
Qed.

Lemma suggestions_round s c c' d :
  rows_for (project (subproject s)) (Some (language s)) c
    (db_suggestions (cleanup_db s c' d))
  = if String.eqb c c' && negb (language_refs s c' d) then []
    else rows_for (project (subproject s)) (Some (language s)) c (db_suggestions d).
Proof.
  destruct (cleanup_db_tables s c' d) as (-> & _ & _).
  destruct (language_refs s c' d); simpl.
  - rewrite Bool.andb_false_r. reflexivity.
  - rewrite Bool.andb_true_r. destruct (String.eqb c c') eqn:E.
    + apply String.eqb_eq in E; subst c'. apply rows_for_delete_same.
    + apply rows_for_delete_other. intros r. apply dep_key_other_checksum. exact E.
Qed.

Lemma comments_round s c c' d :
  rows_for (project (subproject s)) (Some (language s)) c
    (db_comments (cleanup_db s c' d))
  = if String.eqb c c' && negb (language_refs s c' d) then []
    else rows_for (project (subproject s)) (Some (language s)) c (db_comments d).
Proof.
  destruct (cleanup_db_tables s c' d) as (_ & -> & _).
  destruct (language_refs s c' d); simpl.
  - rewrite Bool.andb_false_r. reflexivity.
  - rewrite Bool.andb_true_r.
    assert (Hnone : forall rows,
              rows_for (project (subproject s)) (Some (language s)) c
                (delete_rows (project (subproject s)) None c' rows)
              = rows_for (project (subproject s)) (Some (language s)) c rows).
    { intros rows. apply rows_for_delete_other. intros r. apply dep_key_some_none. }
    destruct (String.eqb c c') eqn:E.
    + apply String.eqb_eq in E; subst c'.
      destruct (project_refs s c d); [| rewrite Hnone]; apply rows_for_delete_same.
    + destruct (project_refs s c' d); [| rewrite Hnone];
        apply rows_for_delete_other; intros r; apply dep_key_other_checksum; exact E.
Qed.

Lemma source_comments_round s c c' d :
  rows_for (project (subproject s)) None c (db_comments (cleanup_db s c' d))
  = if String.eqb c c' && negb (project_refs s c' d) then []
    else rows_for (project (subproject s)) None c (db_comments d).
Proof.
  destruct (cleanup_db_tables s c' d) as (_ & -> & _).
  assert (Hlang : forall rows,
            rows_for (project (subproject s)) None c
              (delete_rows (project (subproject s)) (Some (language s)) c' rows)
            = rows_for (project (subproject s)) None c rows).
  { intros rows. apply rows_for_delete_other. intros r. apply dep_key_none_some. }
  destruct (language_refs s c' d) eqn:L.
  - rewrite (language_refs_project_refs _ _ _ L). simpl.
    rewrite Bool.andb_false_r. reflexivity.
  - destruct (project_refs s c' d); simpl.
    + rewrite Bool.andb_false_r. apply Hlang.
    + rewrite Bool.andb_true_r. destruct (String.eqb c c') eqn:E.
      * apply String.eqb_eq in E; subst c'. apply rows_for_delete_same.
      * rewrite rows_for_delete_other; [apply Hlang |].
        intros r. apply dep_key_other_checksum. exact E.
Qed.

Lemma units_in_language_checksum s c d u :
  In u (units_in_language s c d) -> String.eqb (unit_checksum u) c = true.
Proof.
  unfold units_in_language. intros H. apply filter_In in H. destruct H as [_ H].
  apply Bool.andb_true_iff in H. apply H.
Qed.

Lemma recheck_other_checksum p l c units rows :
  rechecks_local ->
  (forall u, In u units -> String.eqb (unit_checksum u) c = false) ->
  rows_for p l c (fold_left (fun rows unit => unit_check unit rows) units rows)
  = rows_for p l c rows.
Proof.
  intros Hlocal. revert rows.
  induction units as [| u units IH]; intros rows Hall; [reflexivity |].
  simpl fold_left. rewrite IH by (intros u' Hu'; apply Hall; right; exact Hu').
  unfold rows_for, dep_key. rewrite !filter_andb.
  rewrite (Hlocal u rows c) by (apply Hall; left; reflexivity).
  reflexivity.
Qed.

Lemma checks_round s c c' d :
  rechecks_local ->
  language_refs s c d = false ->
  rows_for (project (subproject s)) (Some (language s)) c
    (db_checks (cleanup_db s c' d))
  = if String.eqb c c' && true then []
    else rows_for (project (subproject s)) (Some (language s)) c (db_checks d).
Proof.
  intros Hlocal Hc.
  destruct (cleanup_db_tables s c' d) as (_ & _ & ->).
  rewrite Bool.andb_true_r.
  assert (Hnone : forall rows,
            rows_for (project (subproject s)) (Some (language s)) c
              (delete_rows (project (subproject s)) None c' rows)
            = rows_for (project (subproject s)) (Some (language s)) c rows).
  { intros rows. apply rows_for_delete_other. intros r. apply dep_key_some_none. }
  destruct (language_refs s c' d) eqn:L.
  - destruct (String.eqb c c') eqn:E.
    + apply String.eqb_eq in E; subst c'. rewrite Hc in L. discriminate L.
    + apply recheck_other_checksum; [exact Hlocal |].
      intros u Hu. apply units_in_language_checksum in Hu.
      apply String.eqb_eq in Hu. rewrite Hu, String.eqb_sym. exact E.
  - destruct (String.eqb c c') eqn:E.
    + apply String.eqb_eq in E; subst c'.
      destruct (project_refs s c d); [| rewrite Hnone]; apply rows_for_delete_same.
    + destruct (project_refs s c' d); [| rewrite Hnone];
        apply rows_for_delete_other; intros r; apply dep_key_other_checksum; exact E.
Qed.

Lemma source_checks_round s c c' d :
  rechecks_local ->
  language_refs s c d = false ->
  rows_for (project (subproject s)) None c (db_checks (cleanup_db s c' d))
  = if String.eqb c c' && negb (project_refs s c' d) then []
    else rows_for (project (subproject s)) None c (db_checks d).
Proof.
  intros Hlocal Hc.
  destruct (cleanup_db_tables s c' d) as (_ & _ & ->).
  assert (Hlang : forall rows,
            rows_for (project (subproject s)) None c
              (delete_rows (project (subproject s)) (Some (language s)) c' rows)
            = rows_for (project (subproject s)) None c rows).
  { intros rows. apply rows_for_delete_other. intros r. apply dep_key_none_some. }
  destruct (language_refs s c' d) eqn:L.
  - rewrite (language_refs_project_refs _ _ _ L). simpl.
    rewrite Bool.andb_false_r.
    apply recheck_other_checksum; [exact Hlocal |].
    intros u Hu. apply units_in_language_checksum in Hu.
    apply String.eqb_eq in Hu. rewrite Hu.
    destruct (String.eqb c' c) eqn:E; [| reflexivity].
    apply String.eqb_eq in E. rewrite E, Hc in L. discriminate L.
  - destruct (project_refs s c' d); simpl.
    + rewrite Bool.andb_false_r. apply Hlang.
    + rewrite Bool.andb_true_r. destruct (String.eqb c c') eqn:E.
      * apply String.eqb_eq in E; subst c'. apply rows_for_delete_same.
      * rewrite rows_for_delete_other; [apply Hlang |].
        intros r. apply dep_key_other_checksum. exact E.
Qed.

Lemma recheck_fold_keeps r units rows :
  recheck_keeps r -> In r rows ->
  In r (fold_left (fun rows unit => unit_check unit rows) units rows).
Proof.
  intros Hkeep. revert rows.
  induction units as [| u units IH]; intros rows Hin; [exact Hin |].
  simpl. apply IH, Hkeep, Hin.
Qed.

(** A check row that no round deletes and no re-check removes is still
    there after the loop. *)
Lemma checks_survive s r cs d :
  recheck_keeps r ->
  (forall c', language_refs s c' d = false ->
     dep_key (project (subproject s)) (Some (language s)) c' r = false
     /\ (project_refs s c' d = false ->
         dep_key (project (subproject s)) None c' r = false)) ->
  In r (db_checks d) ->
  In r (db_checks (cleanup_all s cs d)).
Proof.
  intros Hkeep. revert d.
  induction cs as [| c' cs IH]; intros d Hsafe Hin; [exact Hin |].
  simpl cleanup_all. apply IH.
  - intros c'' L. rewrite language_refs_cleanup in L.
    rewrite project_refs_cleanup. apply Hsafe, L.
  - destruct (cleanup_db_tables s c' d) as (_ & _ & ->).
    destruct (language_refs s c' d) eqn:L.
    + apply recheck_fold_keeps; assumption.
    + destruct (Hsafe c' L) as [Hl Hn].
      destruct (project_refs s c' d) eqn:P.
      * apply filter_In. split; [exact Hin | rewrite Hl; reflexivity].
      * apply filter_In. split.
        -- apply filter_In. split; [exact Hin | rewrite Hl; reflexivity].
        -- rewrite (Hn eq_refl). reflexivity.
Qed.

Lemma in_deleted_exists c cs :
  In c cs -> existsb (String.eqb c) cs = true.
Proof.
  intros H. apply existsb_exists. exists c. split; [exact H | apply String.eqb_refl].
Qed.

Lemma unit_gives_project_refs s c d u :
  In u (db_units d) ->
  project_eqb (project (subproject (unit_translation u))) (project (subproject s)) = true ->
  String.eqb (unit_checksum u) c = true ->
  project_refs s c d = true.
Proof.
  intros Hin Hp Hc. unfold project_refs, units_in_project.
  destruct (filter _ (db_units d)) as [| x xs] eqn:E; [| reflexivity].
  assert (Hu : In u []).
  { rewrite <- E. apply filter_In. split; [exact Hin |]. rewrite Hp, Hc. reflexivity. }
  destruct Hu.
Qed.

(** The tables [delete_unused] leaves, for the checksum of a deleted unit;
    [d0] is the database right after the units were deleted. *)
Lemma delete_unused_tables oldunits st c :
  let s := self st in
  let prj := project (subproject s) in
  let lang := Some (language s) in
  let d0 := with_units (fun _ => remaining_units oldunits st) (db st) in
  let d' := cleanup_all s (deleted_checksums oldunits st) d0 in
  In c (deleted_checksums oldunits st) ->
  db_units d' = remaining_units oldunits st
  /\ rows_for prj lang c (db_suggestions d')
     = (if language_refs s c d0 then rows_for prj lang c (db_suggestions (db st)) else [])
  /\ rows_for prj lang c (db_comments d')
     = (if language_refs s c d0 then rows_for prj lang c (db_comments (db st)) else [])
  /\ rows_for prj None c (db_comments d')
     = (if project_refs s c d0 then rows_for prj None c (db_comments (db st)) else [])
  /\ (rechecks_local -> language_refs s c d0 = false ->
      rows_for prj lang c (db_checks d') = []
      /\ rows_for prj None c (db_checks d')
         = (if project_refs s c d0 then rows_for prj None c (db_checks (db st)) else [])).
Proof.
  intros s prj lang d0 d' Hin.
  apply in_deleted_exists in Hin.
  split; [unfold d'; rewrite cleanup_all_units; reflexivity |].
  split.
  { unfold d'.
    rewrite (cleanup_all_rows s db_suggestions prj lang c
               (fun c' d => negb (language_refs s c' d)) (fun _ => True)); auto.
    - rewrite Hin. simpl. destruct (language_refs s c d0); reflexivity.
    - intros c' c'' d. rewrite language_refs_cleanup. reflexivity.
    - intros c' d _. apply suggestions_round. }
  split.
  { unfold d'.
    rewrite (cleanup_all_rows s db_comments prj lang c
               (fun c' d => negb (language_refs s c' d)) (fun _ => True)); auto.
    - rewrite Hin. simpl. destruct (language_refs s c d0); reflexivity.
    - intros c' c'' d. rewrite language_refs_cleanup. reflexivity.
    - intros c' d _. apply comments_round. }
  split.
  { unfold d'.
    rewrite (cleanup_all_rows s db_comments prj None c
               (fun c' d => negb (project_refs s c' d)) (fun _ => True)); auto.
    - rewrite Hin. simpl. destruct (project_refs s c d0); reflexivity.
    - intros c' c'' d. rewrite project_refs_cleanup. reflexivity.
    - intros c' d _. apply source_comments_round. }
  intros Hlocal Hnone. split.
  - unfold d'.
    rewrite (cleanup_all_rows s db_checks prj lang c
               (fun _ _ => true) (fun d => language_refs s c d = false)).
    + rewrite Hin. reflexivity.
    + intros c' d H. rewrite language_refs_cleanup. exact H.
    + reflexivity.
    + intros c' d H. apply checks_round; assumption.
    + exact Hnone.
  - unfold d'.
    rewrite (cleanup_all_rows s db_checks prj None c
               (fun c' d => negb (project_refs s c' d))
               (fun d => language_refs s c d = false)).
    + rewrite Hin. simpl. destruct (project_refs s c d0); reflexivity.
    + intros c' d H. rewrite language_refs_cleanup. exact H.
    + intros c' c'' d. rewrite project_refs_cleanup. reflexivity.
    + intros c' d H. apply source_checks_round; assumption.
    + exact Hnone.
Qed.

Lemma refs_depend_on_units s c d1 d2 :
  db_units d1 = db_units d2 ->
  language_refs s c d1 = language_refs s c d2
  /\ project_refs s c d1 = project_refs s c d2.
Proof.
  intros H. unfold language_refs, project_refs, units_in_language, units_in_project.
  rewrite H. split; reflexivity.
Qed.

(** What the deletion phase leaves under the keys of a deleted checksum. *)
Lemma cleanup_rule_by_language_core oldunits st c :
  In c (deleted_checksums oldunits st) ->
  exists st',
    delete_unused oldunits st = Ok tt st'
    /\ db_units (db st') = remaining_units oldunits st
    /\ rows_for (project (subproject (self st))) (Some (language (self st))) c
         (db_suggestions (db st'))
       = (if language_refs (self st) c (db st')
          then rows_for (project (subproject (self st))) (Some (language (self st))) c
                 (db_suggestions (db st))
          else [])
    /\ rows_for (project (subproject (self st))) (Some (language (self st))) c
         (db_comments (db st'))
       = (if language_refs (self st) c (db st')
          then rows_for (project (subproject (self st))) (Some (language (self st))) c
                 (db_comments (db st))
          else [])
    /\ rows_for (project (subproject (self st))) None c (db_comments (db st'))
       = (if project_refs (self st) c (db st')
          then rows_for (project (subproject (self st))) None c (db_comments (db st))
          else [])
    /\ (rechecks_local ->
        language_refs (self st) c (db st') = false ->
        rows_for (project (subproject (self st))) (Some (language (self st))) c
          (db_checks (db st')) = []
        /\ rows_for (project (subproject (self st))) None c (db_checks (db st'))
           = (if project_refs (self st) c (db st')
              then rows_for (project (subproject (self st))) None c (db_checks (db st))
              else [])).
Proof.
  intros Hin.
  rewrite delete_unused_ok. eexists. split; [reflexivity |].
  simpl db.
  destruct (delete_unused_tables oldunits st c Hin) as (Hu & Hs & Hc & Hn & Hk).
  set (d0 := with_units (fun _ => remaining_units oldunits st) (db st)) in *.
  set (d' := cleanup_all (self st) (deleted_checksums oldunits st) d0) in *.
  assert (Hunits : db_units d' = db_units d0) by (rewrite Hu; reflexivity).
  destruct (refs_depend_on_units (self st) c d' d0 Hunits) as [Hl Hp].
  rewrite Hl, Hp.
  split; [exact Hu |]. split; [exact Hs |]. split; [exact Hc |]. split; [exact Hn |].
  exact Hk.
Qed.

(** C2, as the code has it. For the checksum of a unit that the reconcile
    deleted, the Suggestion and Comment rows of the project under that
    checksum and the translation's language are deleted exactly when no
    unit of the same language in the project still has the checksum (units
    of other languages do not keep them), and the source-level Comment rows
    exactly when no unit of the project at all has it. The Check rows under
    the same keys are deleted in the same cases; otherwise the deletion
    leaves them to the check subsystem, so a row that a re-check keeps is
    still there. *)
Theorem cleanup_rule_by_language :
  forall (oldunits : set Z) (st : State) (c : string),
    In c (deleted_checksums oldunits st) ->
    exists st',
      delete_unused oldunits st = Ok tt st'
      /\ db_units (db st') = remaining_units oldunits st
      /\ rows_for (project (subproject (self st))) (Some (language (self st))) c
           (db_suggestions (db st'))
         = (if language_refs (self st) c (db st')
            then rows_for (project (subproject (self st))) (Some (language (self st))) c
                   (db_suggestions (db st))
            else [])
      /\ rows_for (project (subproject (self st))) (Some (language (self st))) c
           (db_comments (db st'))
         = (if language_refs (self st) c (db st')
            then rows_for (project (subproject (self st))) (Some (language (self st))) c
                   (db_comments (db st))
            else [])
      /\ rows_for (project (subproject (self st))) None c (db_comments (db st'))
         = (if project_refs (self st) c (db st')
            then rows_for (project (subproject (self st))) None c (db_comments (db st))
            else [])
      /\ (rechecks_local ->
          language_refs (self st) c (db st') = false ->
          rows_for (project (subproject (self st))) (Some (language (self st))) c
            (db_checks (db st')) = []
          /\ rows_for (project (subproject (self st))) None c (db_checks (db st'))
             = (if project_refs (self st) c (db st')
                then rows_for (project (subproject (self st))) None c (db_checks (db st))
                else []))
      /\ (forall r, recheck_keeps r -> In r (db_checks (db st)) ->
          (dep_key (project (subproject (self st))) (Some (language (self st))) c r = true ->
           language_refs (self st) c (db st') = true -> In r (db_checks (db st')))
          /\ (dep_key (project (subproject (self st))) None c r = true ->
              project_refs (self st) c (db st') = true -> In r (db_checks (db st')))).
Proof.
  intros oldunits st c Hin.
  rewrite delete_unused_ok. eexists. split; [reflexivity |].
  simpl db.
  destruct (delete_unused_tables oldunits st c Hin) as (Hu & Hs & Hc & Hn & Hk).
  set (d0 := with_units (fun _ => remaining_units oldunits st) (db st)) in *.
  set (d' := cleanup_all (self st) (deleted_checksums oldunits st) d0) in *.
  assert (Hunits : db_units d' = db_units d0) by (rewrite Hu; reflexivity).
  destruct (refs_depend_on_units (self st) c d' d0 Hunits) as [Hl Hp].
  rewrite Hl, Hp.
  split; [exact Hu |]. split; [exact Hs |]. split; [exact Hc |]. split; [exact Hn |].
  split; [exact Hk |].
  intros r Hkeep Hr. split.
  - intros Hkey Hrefs. unfold d'. apply checks_survive; [exact Hkeep | | exact Hr].
    intros c' L'. split.
    + eapply dep_key_other_checksum; [| exact Hkey].
      destruct (String.eqb c c') eqn:E; [| reflexivity].
      apply String.eqb_eq in E; subst c'. rewrite Hrefs in L'. discriminate L'.
    + intros _. eapply dep_key_some_none; exact Hkey.
  - intros Hkey Hrefs. unfold d'. apply checks_survive; [exact Hkeep | | exact Hr].
    intros c' L'. split.
    + eapply dep_key_none_some; exact Hkey.
    + intros P'. eapply dep_key_other_checksum; [| exact Hkey].
      destruct (String.eqb c c') eqn:E; [| reflexivity].
      apply String.eqb_eq in E; subst c'. rewrite Hrefs in P'. discriminate P'.
Qed.

Lemma for_fold_invariant {A B} (P : State -> Prop) (xs : list A)
    (body : B -> A -> M B) :
  (forall acc x st acc' st', body acc x st = Ok acc' st' -> P st -> P st') ->
  forall acc st acc' st',
    for_fold xs acc body st = Ok acc' st' -> P st -> P st'.
Proof.
  intros Hbody. induction xs as [| x xs IH]; intros acc st acc' st' Hrun HP.
  - inversion Hrun; subst. exact HP.
  - simpl in Hrun. apply bind_ok_inv in Hrun.
    destruct Hrun as (acc1 & st1 & Hx & Hrest).
    apply (IH _ _ _ _ Hrest). apply (Hbody _ _ _ _ _ Hx HP).
Qed.

Lemma sync_unit_self unit template_unit acc st acc' st' :
  sync_unit unit template_unit acc st = Ok acc' st' -> self st' = self st.
Proof.
  destruct acc as [[was_new pos] oldunits].
  unfold sync_unit, bind, Unit_update_from_unit, ret.
  destruct (update_from_unit (self st) unit pos template_unit (db st)) as [[newunit is_new] d'].
  intros H; inversion H; subst. reflexivity.
Qed.

Lemma sync_units_self store tstore oldunits st acc st' :
  sync_units store tstore oldunits st = Ok acc st' -> self st' = self st.
Proof.
  unfold sync_units. destruct tstore as [t |]; intros H.
  - apply (for_fold_invariant (fun x => self x = self st) _ _) in H; auto.
    intros a x s0 a' s0' Hb HP.
    destruct (negb (is_translatable x)).
    + inversion Hb; subst. exact HP.
    + apply sync_unit_self in Hb. congruence.
  - apply (for_fold_invariant (fun x => self x = self st) _ _) in H; auto.
    intros a x s0 a' s0' Hb HP.
    destruct (negb (is_translatable x)).
    + inversion Hb; subst. exact HP.
    + apply sync_unit_self in Hb. congruence.
Qed.

Lemma get_store_self st store st' :
  get_store st = Ok store st' -> self st' = self st.
Proof.
  unfold get_store, bind at 1, gets at 1.
  destruct (_store st) as [cached |].
  - intros H; inversion H; subst. reflexivity.
  - unfold bind, gets, ttkit_file, modify, ret.
    destruct (repo_worktree (repo st) (get_filename (self st))); intros H;
      inversion H; subst. reflexivity.
Qed.

Lemma get_template_store_self st t st' :
  get_template_store st = Ok t st' -> st' = st.
Proof.
  unfold get_template_store, bind, gets, ttkit_file, ret.
  destruct (has_template (subproject (self st))).
  - destruct (repo_worktree (repo st) _); intros H; inversion H; subst. reflexivity.
  - intros H; inversion H; subst. reflexivity.
Qed.

Lemma update_stats_tables st st' :
  update_stats st = Ok tt st' ->
  db_units (db st') = db_units (db st)
  /\ db_checks (db st') = db_checks (db st)
  /\ db_suggestions (db st') = db_suggestions (db st)
  /\ db_comments (db st') = db_comments (db st).
Proof.
  unfold update_stats, bind at 1, gets at 1.
  unfold bind at 1, gets at 1. unfold bind at 1, modify at 1.
  unfold bind at 1, save at 1, modify at 1.
  rewrite store_hash_ok.
  match goal with |- context [blob_hash_of ?s ?r] =>
    destruct (blob_hash_of s r) as [h |] end; [| discriminate].
  intros H; inversion H; subst; clear H. repeat split.
Qed.

(** A processing run is its indexing phase followed by the deletion, the
    statistics, the audit entry and the notification. *)
Lemma resync_phases request st :
  resync request st
  = (acc <- index_phase ;;
     let '(was_new, _, oldunits) := acc in
     delete_unused oldunits ;;
     update_stats ;;
     Change_create ACTION_UPDATE (option_map request_user request) ;;
     if was_new then notify_new_string else ret tt) st.
Proof.
  unfold resync, index_phase, bind, gets.
  destruct (get_store st) as [store st1 | e st1]; [| reflexivity].
  destruct (get_template_store st1) as [tstore st2 | e st2]; reflexivity.
Qed.

(** The dependent tables a processing run ends with are those its deletion
    phase left; the phase starts in the state the indexing phase of the run
    ended in, on the ids that phase left over. *)
Lemma resync_cleanup request st st' :
  resync request st = Ok tt st' ->
  exists was_new pos oldunits st_mid st_c,
    index_phase st = Ok (was_new, pos, oldunits) st_mid
    /\ self st_mid = self st
    /\ delete_unused oldunits st_mid = Ok tt st_c
    /\ db_units (db st') = db_units (db st_c)
    /\ db_checks (db st') = db_checks (db st_c)
    /\ db_suggestions (db st') = db_suggestions (db st_c)
    /\ db_comments (db st') = db_comments (db st_c).
Proof.
  rewrite resync_phases. intros H.
  apply bind_ok_inv in H. destruct H as ([[was_new pos] oldunits] & st4 & Hphase & H).
  apply bind_ok_inv in H. destruct H as ([] & st5 & Hdel & H).
  apply bind_ok_inv in H. destruct H as ([] & st6 & Hstats & H).
  apply bind_ok_inv in H. destruct H as ([] & st7 & Hchange & H).
  exists was_new, pos, oldunits, st4, st5.
  split; [exact Hphase |].
  assert (Hself : self st4 = self st).
  { unfold index_phase in Hphase.
    apply bind_ok_inv in Hphase. destruct Hphase as (s & st0 & Hs & Hphase).
    inversion Hs; subst s st0; clear Hs.
    apply bind_ok_inv in Hphase. destruct Hphase as (d & st1 & Hd & Hphase).
    inversion Hd; subst d st1; clear Hd.
    apply bind_ok_inv in Hphase. destruct Hphase as (store & st2 & Hstore & Hphase).
    apply bind_ok_inv in Hphase. destruct Hphase as (tstore & st3 & Htpl & Hsync).
    apply get_store_self in Hstore. apply get_template_store_self in Htpl. subst st3.
    apply sync_units_self in Hsync. congruence. }
  split; [exact Hself |]. split; [exact Hdel |].
  destruct (update_stats_tables _ _ Hstats) as (Hu & Hc & Hsg & Hcm).
  unfold Change_create, bind, gets, modify in Hchange.
  inversion Hchange; subst st7; clear Hchange.
  assert (Hfinal : db_units (db st') = db_units (db st6)
                   /\ db_checks (db st') = db_checks (db st6)
                   /\ db_suggestions (db st') = db_suggestions (db st6)
                   /\ db_comments (db st') = db_comments (db st6)).
  { destruct was_new.
    - match type of H with notify_new_string ?X = _ =>
        destruct (notify_new_string_frame X) as (st8 & Hrun & _ & Hdb & _) end.
      rewrite Hrun in H. inversion H; subst st8. rewrite Hdb. repeat split.
    - inversion H; subst. repeat split. }
  destruct Hfinal as (F1 & F2 & F3 & F4).
  rewrite F1, F2, F3, F4, Hu, Hc, Hsg, Hcm. repeat split.
Qed.

(** The checksums the deletion loops over are those of the units it takes
    out of the index. *)
Lemma deleted_checksums_spec oldunits st c :
  In c (deleted_checksums oldunits st)
  <-> exists u, In u (db_units (db st))
                /\ ~ In u (remaining_units oldunits st)
                /\ unit_checksum u = c.
Proof.
  unfold deleted_checksums, remaining_units. rewrite in_map_iff. split.
  - intros (u & Hc & Hin). apply filter_In in Hin. destruct Hin as [Hin Hdel].
    exists u. split; [exact Hin |]. split; [| exact Hc].
    intros Hrem. apply filter_In in Hrem. destruct Hrem as [_ Hkeep].
    rewrite Hdel in Hkeep. discriminate Hkeep.
  - intros (u & Hin & Hgone & Hc). exists u. split; [exact Hc |].
    apply filter_In. split; [exact Hin |].
    destruct (units_to_delete (self st) oldunits u) eqn:Hdel; [reflexivity |].
    exfalso. apply Hgone. apply filter_In. split; [exact Hin |].
    rewrite Hdel. reflexivity.
Qed.

(** C3. Let a processing run of the reconcile return. Its indexing phase
    ends in a state [st_mid] with the ids [oldunits] left over, and its
    deletion phase runs [delete_unused oldunits] from there; the units of
    the run's final state are those the deletion left, so the checksums
    deleted are those of the units of [st_mid] that are gone afterwards.
    Let [c] be such a checksum, with no unit of the translation's language
    in the project having [c] any more. Then no Check, Suggestion or
    Comment row of the project under [c] and that language is left; and if
    some unit of the project, necessarily of another language, still has
    [c], the source-level Comment and Check rows under [c] are exactly
    those that were there when the deletion started. The check subsystem is
    assumed to touch, on a re-check, only rows of the re-checked unit's
    checksum. *)
Theorem reconcile_cleans_last_referent :
  forall (request : option Request) (st st' : State),
    rechecks_local ->
    resync request st = Ok tt st' ->
    exists was_new pos oldunits st_mid st_del,
      index_phase st = Ok (was_new, pos, oldunits) st_mid
      /\ delete_unused oldunits st_mid = Ok tt st_del
      /\ self st_mid = self st
      /\ db_units (db st') = db_units (db st_del)
      /\ db_units (db st') = remaining_units oldunits st_mid
      /\ (forall c,
            In c (deleted_checksums oldunits st_mid)
            <-> exists u, In u (db_units (db st_mid))
                          /\ ~ In u (db_units (db st'))
                          /\ unit_checksum u = c)
      /\ forall c,
           In c (deleted_checksums oldunits st_mid) ->
           language_refs (self st) c (db st') = false ->
           (rows_for (project (subproject (self st))) (Some (language (self st))) c
              (db_checks (db st')) = []
            /\ rows_for (project (subproject (self st))) (Some (language (self st))) c
                 (db_suggestions (db st')) = []
            /\ rows_for (project (subproject (self st))) (Some (language (self st))) c
                 (db_comments (db st')) = [])
           /\ (forall u,
                 In u (db_units (db st')) ->
                 project_eqb (project (subproject (unit_translation u)))
                             (project (subproject (self st))) = true ->
                 String.eqb (unit_checksum u) c = true ->
                 rows_for (project (subproject (self st))) None c (db_comments (db st'))
                 = rows_for (project (subproject (self st))) None c
                     (db_comments (db st_mid))
                 /\ rows_for (project (subproject (self st))) None c (db_checks (db st'))
                    = rows_for (project (subproject (self st))) None c
                        (db_checks (db st_mid))).
Proof.
  intros request st st' Hlocal Hrun.
  destruct (resync_cleanup _ _ _ Hrun)
    as (was_new & pos & oldunits & st_mid & st_c
        & Hphase & Hself & Hdel & Hu & Hc & Hs & Hm).
  exists was_new, pos, oldunits, st_mid, st_c.
  split; [exact Hphase |]. split; [exact Hdel |]. split; [exact Hself |].
  split; [exact Hu |].
  assert (Hunits : db_units (db st') = remaining_units oldunits st_mid).
  { rewrite Hu. rewrite delete_unused_ok in Hdel. inversion Hdel; subst st_c.
    simpl. rewrite cleanup_all_units. reflexivity. }
  split; [exact Hunits |].
  split; [intros c; rewrite Hunits; apply deleted_checksums_spec |].
  intros c Hin Hnone.
  destruct (cleanup_rule_by_language_core oldunits st_mid c Hin)
    as (st_c' & Hdel' & Hu' & Hsg' & Hcm' & Hsrc' & Hchk').
  rewrite Hdel in Hdel'. inversion Hdel'; subst st_c'; clear Hdel'.
  rewrite <- Hself in *.
  assert (Hsame : db_units (db st') = db_units (db st_c)) by exact Hu.
  destruct (refs_depend_on_units (self st_mid) c _ _ Hsame) as [Hl Hp].
  rewrite Hl in Hnone.
  rewrite Hc, Hs, Hm.
  destruct (Hchk' Hlocal Hnone) as (Hchk_lang & Hchk_src).
  rewrite Hnone in Hsg', Hcm'.
  split; [repeat split; assumption |].
  intros u Hinu Hprj Hsum.
  assert (Hrefs : project_refs (self st_mid) c (db st_c) = true).
  { rewrite <- Hp. apply (unit_gives_project_refs _ _ _ u); assumption. }
  rewrite Hrefs in Hsrc', Hchk_src. split; assumption.
Qed.

(** ** Merging a store *)

Lemma set_nth_same {A} (i : nat) (v x : A) (l : list A) :
  nth_error l i = Some x -> nth_error (set_nth i v l) i = Some v.
Proof.
  revert i. induction l as [| y l IH]; intros [| i]; simpl; try discriminate.
  - reflexivity.
  - apply IH.
Qed.

Lemma set_nth_other {A} (i j : nat) (v : A) (l : list A) :
  j <> i -> nth_error (set_nth i v l) j = nth_error l j.
Proof.
  revert i j. induction l as [| y l IH]; intros [| i] [| j] H; simpl;
    try reflexivity.
  - contradiction.
  - apply IH. intros E; apply H; congruence.
Qed.

Lemma set_nth_length {A} (i : nat) (v : A) (l : list A) :
  List.length (set_nth i v l) = List.length l.
Proof.
  revert i. induction l as [| y l IH]; intros [| i]; simpl; try reflexivity.
  rewrite IH. reflexivity.
Qed.

(** Without overwriting and without header merging, a round of the merge
    leaves every translated unit of the target where and as it is. *)
Lemma merge_unit_keeps_translated store2 add_fuzzy store1 unit2 i unit1 :
  nth_error (store_units store1) i = Some unit1 ->
  istranslated unit1 = true ->
  nth_error (store_units (merge_unit store2 false false add_fuzzy store1 unit2)) i
  = Some unit1.
Proof.
  intros Hi Ht. unfold merge_unit.
  destruct (negb (is_translated unit2)); [exact Hi |].
  destruct (tu_header unit2); [exact Hi |].
  destruct (locate store1 unit2) as [j |]; [| exact Hi].
  destruct (nth_error (store_units store1) j) as [u |] eqn:Ej; [| exact Hi].
  simpl negb. destruct (istranslated u) eqn:Eu; [exact Hi |].
  simpl. rewrite set_nth_other; [exact Hi |].
  intros E; subst j. rewrite Hi in Ej. inversion Ej; subst u.
  rewrite Ht in Eu. discriminate Eu.
Qed.

(** C8. Take a translated unit of the uploaded store that is no header and
    whose counterpart in the target file, found by id or else by source, is
    translated already. Without [overwrite] the round leaves the target
    store as it is. With [overwrite] the counterpart gets the target text of
    the uploaded unit and its fuzzy state, or is fuzzy whatever that state
    when [add_fuzzy] is set; its comments, id, source and context stay, and
    so does every other unit. Without overwriting (and header merging), the
    whole loop leaves every translated unit untouched. *)
Theorem merge_unit_overwrite_policy :
  forall (store2 : Store) (overwrite merge_header add_fuzzy : bool)
         (store1 : Store) (unit2 unit1 : StoreUnit) (i : nat),
    is_translated unit2 = true ->
    tu_header unit2 = false ->
    locate store1 unit2 = Some i ->
    nth_error (store_units store1) i = Some unit1 ->
    istranslated unit1 = true ->
    (overwrite = false ->
       merge_unit store2 overwrite merge_header add_fuzzy store1 unit2 = store1)
    /\
    (overwrite = true ->
       exists merged,
         nth_error (store_units
                      (merge_unit store2 overwrite merge_header add_fuzzy store1 unit2)) i
           = Some merged
         /\ tu_target merged = tu_target unit2
         /\ tu_fuzzy merged = (if add_fuzzy then true else tu_fuzzy unit2)
         /\ tu_comments merged = tu_comments unit1
         /\ tu_id merged = tu_id unit1
         /\ tu_source merged = tu_source unit1
         /\ tu_context merged = tu_context unit1
         /\ (forall j, j <> i ->
               nth_error (store_units
                            (merge_unit store2 overwrite merge_header add_fuzzy
                                        store1 unit2)) j
               = nth_error (store_units store1) j))
    /\
    (forall units2,
       nth_error (store_units
                    (fold_left (merge_unit store2 false false add_fuzzy) units2 store1)) i
       = Some unit1).
Proof.
  intros store2 overwrite merge_header add_fuzzy store1 unit2 unit1 i
         Ht2 Hh Hloc Hi Ht1.
  split; [| split].
  - intros ->. unfold merge_unit.
    rewrite Ht2, Hh, Hloc, Hi, Ht1. reflexivity.
  - intros ->. unfold merge_unit.
    rewrite Ht2, Hh, Hloc, Hi. simpl negb. simpl andb. cbv iota.
    eexists. split.
    + simpl. apply (set_nth_same i _ unit1). exact Hi.
    + destruct add_fuzzy; simpl; repeat split;
        intros j Hj; apply set_nth_other; exact Hj.
  - intros units2. clear Hloc Ht2 Hh.
    revert store1 Hi. induction units2 as [| u units2 IH]; intros store1 Hi.
    + exact Hi.
    + simpl. apply IH. apply merge_unit_keeps_translated; assumption.
Qed.

(** ** Uploads *)


(** The loop with [ret |= ...] computes the disjunction of all results. *)
Lemma for_fold_or {A} (f : A -> M bool) (xs : list A) (acc : bool) st :
  for_fold xs acc (fun ret_ x => r <- f x ;; ret (ret_ || r)) st
  = (results <- sequence (map f xs) ;;
     ret (acc || existsb (fun b => b) results)) st.
Proof.
  revert acc st. induction xs as [| x xs IH]; intros acc st.
  - simpl. unfold bind, ret. rewrite Bool.orb_false_r. reflexivity.
  - simpl. unfold bind, ret in *.
    destruct (f x st) as [r st1 | e st1]; [| reflexivity].
    rewrite IH.
    destruct (sequence (map f xs) st1) as [rest st2 | e st2]; [| reflexivity].
    simpl. rewrite Bool.orb_assoc. reflexivity.
Qed.

(** Calling [merge_store] on each object of a list is running it in the
    state of that object and coming back to the caller's. *)
Lemma sequence_on_each targets author store overwrite merge_header add_fuzzy st :
  sequence (map (fun t => call_on t
                   (merge_store author store overwrite merge_header add_fuzzy))
                targets) st
  = merge_each targets author store overwrite merge_header add_fuzzy st.
Proof.
  revert st. induction targets as [| t rest IH]; intros st; [reflexivity |].
  cbn [map sequence merge_each]. unfold bind at 1.
  change (call_on t (merge_store author store overwrite merge_header add_fuzzy) st)
    with (match merge_store author store overwrite merge_header add_fuzzy
                  (on_object t st) with
          | Ok a st' => Ok a (back_in st st')
          | Raise e st' => Raise e (back_in st st')
          end).
  destruct (merge_store author store overwrite merge_header add_fuzzy (on_object t st))
    as [r st1 | e st1]; [| reflexivity].
  unfold bind at 1. rewrite IH.
  destruct (merge_each rest author store overwrite merge_header add_fuzzy
              (back_in st st1)) as [rs st2 | e st2]; reflexivity.
Qed.

Lemma upload_targets_spec s d t :
  In t (upload_targets s d)
  <-> In t (db_translations d)
      /\ language_eqb (language t) (language s) = true
      /\ project_eqb (project (subproject t)) (project (subproject s)) = true
      /\ (pk t = pk s \/ allow_translation_propagation (subproject t) = true).
Proof.
  unfold upload_targets. rewrite !filter_In.
  rewrite Bool.andb_true_iff, Bool.orb_true_iff, Z.eqb_eq. tauto.
Qed.

(** C5. Once the upload is parsed, [merge_upload] takes one of two
    branches. For the empty method and for ["fuzzy"] it runs [merge_store]
    on every translation of the same language and project that is the
    translation itself or belongs to a subproject allowing propagation,
    one after the other and each as its own object ([merge_each]: the
    target is the current object of its run, the database, repositories,
    clock and log are handed on from one run to the next, and the caller's
    object is current again afterwards), with [add_fuzzy] set exactly for
    ["fuzzy"], and returns the disjunction of the results. For every other
    method it runs [merge_suggestions] on the translation itself and
    returns its result. *)
Theorem merge_upload_dispatch :
  forall (request : Request) (fileobj : string) (overwrite : bool)
         (author : option string) (merge_header : bool) (method : string)
         (st : State) (store : Store),
    load_upload fileobj st = Ok store st ->
    let name := match author with
                | Some a => a
                | None => author_name_of (request_user request)
                end in
    (forall t,
       In t (upload_targets (self st) (db st))
       <-> In t (db_translations (db st))
           /\ language_eqb (language t) (language (self st)) = true
           /\ project_eqb (project (subproject t)) (project (subproject (self st))) = true
           /\ (pk t = pk (self st)
               \/ allow_translation_propagation (subproject t) = true))
    /\
    (method = "" \/ method = "fuzzy" ->
       merge_upload request fileobj overwrite author merge_header method st
       = spec_merge_all (upload_targets (self st) (db st)) name store
           overwrite merge_header (String.eqb method "fuzzy") st
       /\ (String.eqb method "fuzzy" = true <-> method = "fuzzy"))
    /\
    (method <> "" -> method <> "fuzzy" ->
       merge_upload request fileobj overwrite author merge_header method st
       = merge_suggestions request store st).
Proof.
  intros request fileobj overwrite author merge_header method st store Hload name.
  assert (Hauthor :
    match author with
    | None => get_author_name (Some (request_user request)) true
    | Some a => ret a
    end st = Ok name st).
  { unfold name. destruct author; reflexivity. }
  split; [intros t; apply upload_targets_spec |].
  split.
  - intros Hmethod. split; [| apply String.eqb_eq].
    unfold merge_upload.
    rewrite (bind_ok _ _ _ _ _ Hload).
    rewrite (bind_ok _ _ _ _ _ Hauthor).
    unfold bind at 1, gets at 1. unfold bind at 1, gets at 1.
    assert (Hm : String.eqb method "" || String.eqb method "fuzzy" = true).
    { destruct Hmethod as [-> | ->]; reflexivity. }
    rewrite Hm. unfold spec_merge_all.
    rewrite (for_fold_or
               (fun t => call_on t (merge_store name store overwrite merge_header
                                                (String.eqb method "fuzzy")))).
    unfold bind at 1. rewrite sequence_on_each.
    destruct (merge_each _ _ _ _ _ _ st) as [rs st' | e st']; reflexivity.
  - intros Hne Hnf. unfold merge_upload.
    rewrite (bind_ok _ _ _ _ _ Hload).
    rewrite (bind_ok _ _ _ _ _ Hauthor).
    unfold bind at 1, gets at 1. unfold bind at 1, gets at 1.
    destruct (String.eqb_spec method ""); [contradiction |].
    destruct (String.eqb_spec method "fuzzy"); [contradiction |].
    reflexivity.
Qed.

(** ** Invariants kept by the combinators *)

Lemma keeps_ret {A} (I : State -> Prop) (a : A) : keeps I (ret a).
Proof. intros st H; exact H. Qed.

Lemma keeps_raise {A} (I : State -> Prop) e : keeps I (@raise A e).
Proof. intros st H; exact H. Qed.

Lemma keeps_gets {A} (I : State -> Prop) (f : State -> A) : keeps I (gets f).
Proof. intros st H; exact H. Qed.

Lemma keeps_modify (I : State -> Prop) (f : State -> State) :
  (forall st, I st -> I (f st)) -> keeps I (modify f).
Proof. intros Hf st H. apply Hf, H. Qed.

Lemma keeps_bind {A B} (I : State -> Prop) (m : M A) (k : A -> M B) :
  keeps I m -> (forall a, keeps I (k a)) -> keeps I (bind m k).
Proof.
  intros Hm Hk st H. specialize (Hm st H).
  unfold exec, bind in *. destruct (m st) as [a st1 | e st1]; [| exact Hm].
  apply (Hk a st1 Hm).
Qed.

Lemma keeps_try_except {A} (I : State -> Prop) (m h : M A) e :
  keeps I m -> keeps I h -> keeps I (try_except m e h).
Proof.
  intros Hm Hh st H. specialize (Hm st H).
  unfold exec, try_except in *. destruct (m st) as [a st1 | e' st1]; [exact Hm |].
  destruct (exn_eqb e e'); [apply (Hh st1 Hm) | exact Hm].
Qed.

Lemma keeps_for_each {A} (I : State -> Prop) (xs : list A) (body : A -> M unit) :
  (forall x, keeps I (body x)) -> keeps I (for_each xs body).
Proof.
  intros Hb. induction xs as [| x xs IH]; simpl.
  - apply keeps_ret.
  - apply keeps_bind; [apply Hb | intros _; exact IH].
Qed.

Lemma keeps_for_fold {A B} (I : State -> Prop) (xs : list A) (body : B -> A -> M B) :
  (forall acc x, keeps I (body acc x)) -> forall acc, keeps I (for_fold xs acc body).
Proof.
  intros Hb. induction xs as [| x xs IH]; intros acc; simpl.
  - apply keeps_ret.
  - apply keeps_bind; [apply Hb | intros acc'; apply IH].
Qed.

(** A method called on another object keeps what does not depend on the
    current object. *)
Lemma keeps_call_on {A} (I : State -> Prop) (t : Translation) (m : M A) :
  (forall st s c, I st <-> I (set_store_cache c (with_self (fun _ => s) st))) ->
  keeps I m -> keeps I (call_on t m).
Proof.
  intros Hind Hm st H.
  assert (H0 : I (set_store_cache None (with_self (fun _ => t) st))) by (apply Hind, H).
  specialize (Hm _ H0). unfold exec, call_on in *.
  destruct (m (set_store_cache None (with_self (fun _ => t) st))) as [a st1 | e st1];
    apply Hind, Hm.
Qed.

(** A [with] block on the git lock ends with the lock balance it found. *)
Lemma with_git_lock_balanced {A} (body : M A) :
  (forall n, keeps (fun st => lock_balance (events st) = n) body) ->
  forall n, keeps (fun st => lock_balance (events st) = n) (with_git_lock body).
Proof.
  intros Hbody n st H.
  specialize (Hbody (n + 1) (emit (EvGitLockAcquire (subproject_pk (subproject (self st)))) st)).
  unfold exec, with_git_lock, bind, gets, modify, finally in *.
  simpl in Hbody.
  destruct (body _) as [a st1 | e st1]; simpl; rewrite Hbody; lia.
Qed.

(** ** Invariants kept by the reconcile *)

Lemma keeps_save I : quiet_frame I -> keeps I save.
Proof. intros (Hdb & _). intros st H. apply Hdb, H. Qed.

Lemma keeps_tree_lookup I p : keeps I (tree_lookup p).
Proof.
  intros st H. unfold exec, tree_lookup. destruct (repo_tree (repo st) p); exact H.
Qed.

Lemma keeps_ttkit_file I p : keeps I (ttkit_file p).
Proof.
  intros st H. unfold exec, ttkit_file. destruct (repo_worktree (repo st) p); exact H.
Qed.

Lemma keeps_get_git_blob_hash I : keeps I get_git_blob_hash.
Proof.
  unfold get_git_blob_hash.
  apply keeps_bind; [apply keeps_gets | intros s].
  apply keeps_bind; [apply keeps_tree_lookup | intros blob].
  destruct (has_template (subproject s)); [| apply keeps_ret].
  apply keeps_bind; [apply keeps_tree_lookup | intros tblob; apply keeps_ret].
Qed.

Lemma keeps_get_store I : quiet_frame I -> keeps I get_store.
Proof.
  intros (_ & Hc & _). unfold get_store.
  apply keeps_bind; [apply keeps_gets | intros [cached |]]; [apply keeps_ret |].
  apply keeps_bind; [apply keeps_gets | intros s].
  apply keeps_bind; [apply keeps_ttkit_file | intros store].
  apply keeps_bind; [| intros _; apply keeps_ret].
  apply keeps_modify. intros st H. apply Hc, H.
Qed.

Lemma keeps_get_template_store I : keeps I get_template_store.
Proof.
  unfold get_template_store.
  apply keeps_bind; [apply keeps_gets | intros s].
  destruct (has_template (subproject s)); [| apply keeps_ret].
  apply keeps_bind; [apply keeps_ttkit_file | intros t; apply keeps_ret].
Qed.

Lemma keeps_store_hash I : quiet_frame I -> keeps I store_hash.
Proof.
  intros HI. pose proof HI as (_ & _ & _ & Hrev). unfold store_hash.
  apply keeps_bind; [apply keeps_get_git_blob_hash | intros h].
  apply keeps_bind; [| intros _; apply keeps_save, HI].
  apply keeps_modify. intros st H. apply Hrev, H.
Qed.

Lemma keeps_update_stats I : quiet_frame I -> keeps I update_stats.
Proof.
  intros HI. pose proof HI as (_ & _ & Hcnt & _). unfold update_stats.
  apply keeps_bind; [apply keeps_gets | intros s].
  apply keeps_bind; [apply keeps_gets | intros d].
  apply keeps_bind; [apply keeps_modify; intros st H; apply Hcnt, H | intros _].
  apply keeps_bind; [apply keeps_save, HI | intros _; apply keeps_store_hash, HI].
Qed.

Lemma keeps_sync_unit I unit template_unit acc :
  quiet_frame I -> keeps I (sync_unit unit template_unit acc).
Proof.
  intros (Hdb & _). destruct acc as [[was_new pos] oldunits].
  intros st H. unfold exec, sync_unit, bind, Unit_update_from_unit, ret.
  destruct (update_from_unit (self st) unit pos template_unit (db st))
    as [[newunit is_new] d'].
  apply Hdb, H.
Qed.

Lemma keeps_sync_units I store tstore oldunits :
  quiet_frame I -> keeps I (sync_units store tstore oldunits).
Proof.
  intros HI. unfold sync_units. destruct tstore as [t |];
    apply keeps_for_fold; intros acc x;
    (destruct (negb (is_translatable x)); [apply keeps_ret | apply keeps_sync_unit, HI]).
Qed.

Lemma keeps_delete_unused I oldunits :
  quiet_frame I -> keeps I (delete_unused oldunits).
Proof.
  intros (Hdb & _) st H. unfold exec. rewrite delete_unused_ok. apply Hdb, H.
Qed.

Lemma keeps_Change_create I action user :
  quiet_frame I -> keeps I (Change_create action user).
Proof. intros (Hdb & _) st H. apply Hdb, H. Qed.

Lemma keeps_notify_new_string I : sync_frame I -> keeps I notify_new_string.
Proof.
  intros (_ & Hn). unfold notify_new_string.
  apply keeps_bind; [apply keeps_gets | intros s].
  apply keeps_for_each. intros p. apply keeps_modify. intros st H. apply Hn, H.
Qed.

Lemma keeps_resync I request : sync_frame I -> keeps I (resync request).
Proof.
  intros HI. pose proof HI as (HQ & _). unfold resync.
  apply keeps_bind; [apply keeps_gets | intros s].
  apply keeps_bind; [apply keeps_gets | intros d].
  apply keeps_bind; [apply keeps_get_store, HQ | intros store].
  apply keeps_bind; [apply keeps_get_template_store | intros tstore].
  apply keeps_bind; [apply keeps_sync_units, HQ | intros [[was_new pos] oldunits]].
  apply keeps_bind; [apply keeps_delete_unused, HQ | intros _].
  apply keeps_bind; [apply keeps_update_stats, HQ | intros _].
  apply keeps_bind; [apply keeps_Change_create, HQ | intros _].
  destruct was_new; [apply keeps_notify_new_string, HI | apply keeps_ret].
Qed.

Lemma keeps_update_from_blob I force request :
  sync_frame I -> keeps I (update_from_blob force request).
Proof.
  intros HI. unfold update_from_blob.
  apply keeps_bind; [apply keeps_get_git_blob_hash | intros h].
  apply keeps_bind; [apply keeps_gets | intros s].
  destruct (negb (String.eqb (revision s) h)); [apply keeps_resync, HI |].
  destruct force; [apply keeps_resync, HI | apply keeps_ret].
Qed.

Lemma untouched_by_sync_frame st0 : sync_frame (untouched_by_sync st0).
Proof.
  unfold sync_frame, quiet_frame, untouched_by_sync, same_identity.
  repeat split; intros; simpl;
    match goal with H : _ /\ _ |- _ => decompose [and] H end; assumption.
Qed.

Lemma lock_balance_frame n : sync_frame (fun st => lock_balance (events st) = n).
Proof. unfold sync_frame, quiet_frame. repeat split; intros; simpl; assumption. Qed.

Lemma same_events_frame st0 : quiet_frame (fun st => events st = events st0).
Proof. unfold quiet_frame. repeat split; intros; simpl; assumption. Qed.

Lemma keeps_ok {A} (I : State -> Prop) (m : M A) st a st' :
  keeps I m -> m st = Ok a st' -> I st -> I st'.
Proof. intros Hk Hrun H. specialize (Hk st H). unfold exec in Hk. rewrite Hrun in Hk. exact Hk. Qed.

(** X1. A reconcile reads the repositories and never writes them: whether
    [update_from_blob] returns or raises, forced or not, the repositories
    (HEAD, working tree, configuration, log), the clock and the identity of
    the translation (row, subproject, language, file name) are as before. *)
Theorem update_from_blob_only_reads_repository :
  forall (force : bool) (request : option Request) (st : State),
    repo (exec (update_from_blob force request) st) = repo st
    /\ clock (exec (update_from_blob force request) st) = clock st
    /\ same_identity (self st) (self (exec (update_from_blob force request) st)).
Proof.
  intros force request st.
  apply (keeps_update_from_blob (untouched_by_sync st) force request
           (untouched_by_sync_frame st) st).
  unfold untouched_by_sync, same_identity. repeat split.
Qed.

(** X2. A reconcile that cannot read its input fails before it writes
    anything: when HEAD does not have the file (or the template), the call
    raises [KeyError]; when HEAD has it, processing is due, and the file is
    not on disk, it raises [IOError]. The state is untouched in both
    cases. *)
Theorem update_from_blob_fails_before_writing :
  forall (force : bool) (request : option Request) (st : State),
    (blob_hash_of (self st) (repo st) = None ->
       update_from_blob force request st = Raise KeyError st)
    /\
    (forall h,
       blob_hash_of (self st) (repo st) = Some h ->
       force = true \/ revision (self st) <> h ->
       _store st = None ->
       repo_worktree (repo st) (get_filename (self st)) = None ->
       update_from_blob force request st = Raise IOError st).
Proof.
  intros force request st. split.
  - intros Hnone. unfold update_from_blob, bind at 1.
    rewrite get_git_blob_hash_ok, Hnone. reflexivity.
  - intros h Hh Hdue Hcache Hfile.
    assert (Hresync : resync request st = Raise IOError st).
    { unfold resync, bind at 1, gets at 1. unfold bind at 1, gets at 1.
      unfold bind at 1, get_store, bind at 1, gets at 1. rewrite Hcache.
      unfold bind at 1, gets at 1. unfold bind at 1, ttkit_file.
      rewrite Hfile. reflexivity. }
    unfold update_from_blob, bind at 1. rewrite get_git_blob_hash_ok, Hh.
    unfold bind at 1, gets at 1.
    destruct (String.eqb_spec (revision (self st)) h) as [E | E]; simpl.
    + destruct Hdue as [-> | Hne]; [exact Hresync | contradiction].
    + exact Hresync.
Qed.

(** ** Statistics and audit trail of a reconcile *)

Lemma save_row_has t rows :
  In t (save_row t rows)
  /\ (forall r, In r (save_row t rows) -> pk r = pk t -> r = t).
Proof.
  unfold save_row.
  destruct (existsb (fun r => pk r =? pk t) rows) eqn:E.
  - split.
    + apply existsb_exists in E. destruct E as (r & Hin & Hpk).
      apply in_map_iff. exists r. rewrite Hpk. split; [reflexivity | exact Hin].
    + intros r Hin Hpk. apply in_map_iff in Hin. destruct Hin as (r0 & Hr & _).
      destruct (pk r0 =? pk t) eqn:E0; [congruence |].
      subst r0. apply Z.eqb_neq in E0. contradiction.
  - split.
    + apply in_or_app. right. left. reflexivity.
    + intros r Hin Hpk. apply in_app_or in Hin. destruct Hin as [Hin | [Hin | []]];
        [| congruence].
      assert (Hex : existsb (fun r => pk r =? pk t) rows = true).
      { apply existsb_exists. exists r. split; [exact Hin | apply Z.eqb_eq, Hpk]. }
      congruence.
Qed.

Lemma filter_length_le {A} (f : A -> bool) (l : list A) :
  (List.length (filter f l) <= List.length l)%nat.
Proof.
  induction l as [| x l IH]; simpl; [lia |]. destruct (f x); simpl; lia.
Qed.

(** What [update_stats] leaves: counts of the index, the blob hash as
    revision, and the object saved. *)
Lemma update_stats_result st st' :
  update_stats st = Ok tt st' ->
  exists h,
    self st' = set_revision h
                 (set_counts
                    (Z.of_nat (List.length (unit_set (self st) (db st))))
                    (Z.of_nat (List.length (filter unit_fuzzy (unit_set (self st) (db st)))))
                    (Z.of_nat (List.length (filter unit_translated (unit_set (self st) (db st)))))
                    (self st))
    /\ db_units (db st') = db_units (db st)
    /\ db_changes (db st') = db_changes (db st)
    /\ In (self st') (db_translations (db st'))
    /\ (forall r, In r (db_translations (db st')) -> pk r = pk (self st') -> r = self st')
    /\ events st' = events st /\ clock st' = clock st.
Proof.
  unfold update_stats, bind at 1, gets at 1.
  unfold bind at 1, gets at 1. unfold bind at 1, modify at 1.
  unfold bind at 1, save at 1, modify at 1.
  rewrite store_hash_ok.
  match goal with |- context [blob_hash_of ?s ?r] =>
    destruct (blob_hash_of s r) as [h |] end; [| discriminate].
  intros H; inversion H; subst; clear H.
  exists h. unfold stored. simpl.
  split; [reflexivity |]. split; [reflexivity |]. split; [reflexivity |].
  match goal with |- In ?t (save_row ?t ?rows) /\ _ =>
    destruct (save_row_has t rows) as [Hin Huniq] end.
  split; [exact Hin |]. split; [exact Huniq |]. split; reflexivity.
Qed.

(** The end of a processing run, from the statistics on. *)
Lemma resync_tail request st st' :
  resync request st = Ok tt st' ->
  exists st5 st6,
    untouched_by_sync st st5
    /\ update_stats st5 = Ok tt st6
    /\ self st' = self st6
    /\ db_units (db st') = db_units (db st6)
    /\ db_translations (db st') = db_translations (db st6)
    /\ db_changes (db st')
       = {| change_translation := pk (self st6); change_action := ACTION_UPDATE;
            change_user := option_map request_user request;
            change_timestamp := clock st6 |} :: db_changes (db st6).
Proof.
  unfold resync. intros H.
  destruct (untouched_by_sync_frame st) as (HI & _).
  assert (H0 : untouched_by_sync st st).
  { unfold untouched_by_sync, same_identity. repeat split. }
  apply bind_ok_inv in H. destruct H as (s & st0 & Hs & H).
  inversion Hs; subst s st0; clear Hs.
  apply bind_ok_inv in H. destruct H as (d & st1 & Hd & H).
  inversion Hd; subst d st1; clear Hd.
  apply bind_ok_inv in H. destruct H as (store & st2 & Hstore & H).
  apply bind_ok_inv in H. destruct H as (tstore & st3 & Htpl & H).
  apply bind_ok_inv in H. destruct H as ([[was_new pos] oldunits] & st4 & Hsync & H).
  apply bind_ok_inv in H. destruct H as ([] & st5 & Hdel & H).
  apply bind_ok_inv in H. destruct H as ([] & st6 & Hstats & H).
  apply bind_ok_inv in H. destruct H as ([] & st7 & Hchange & H).
  pose proof (keeps_ok _ _ _ _ _ (keeps_get_store _ HI) Hstore H0) as H2.
  pose proof (keeps_ok _ _ _ _ _ (keeps_get_template_store _) Htpl H2) as H3.
  pose proof (keeps_ok _ _ _ _ _ (keeps_sync_units _ _ _ _ HI) Hsync H3) as H4.
  pose proof (keeps_ok _ _ _ _ _ (keeps_delete_unused _ _ HI) Hdel H4) as H5.
  exists st5, st6. split; [exact H5 |]. split; [exact Hstats |].
  unfold Change_create, bind, gets, modify in Hchange.
  inversion Hchange; subst st7; clear Hchange.
  destruct was_new.
  - match type of H with notify_new_string ?X = _ =>
      destruct (notify_new_string_frame X) as (st8 & Hrun & Hs & Hdb & _) end.
    rewrite Hrun in H. inversion H; subst st8. rewrite Hs, Hdb. repeat split.
  - inversion H; subst. repeat split.
Qed.

(** X3. After a processing run of the reconcile the statistics of the
    translation are those of the unit index: [total] counts its units,
    [fuzzy] and [translated] the fuzzy and the translated ones, so both lie
    between 0 and [total]; and the object is the row of its primary key in
    the database. *)
Theorem resync_statistics_consistent :
  forall (request : option Request) (st st' : State),
    resync request st = Ok tt st' ->
    total (self st') = Z.of_nat (List.length (unit_set (self st') (db st')))
    /\ fuzzy (self st')
       = Z.of_nat (List.length (filter unit_fuzzy (unit_set (self st') (db st'))))
    /\ translated (self st')
       = Z.of_nat (List.length (filter unit_translated (unit_set (self st') (db st'))))
    /\ 0 <= fuzzy (self st') <= total (self st')
    /\ 0 <= translated (self st') <= total (self st')
    /\ In (self st') (db_translations (db st'))
    /\ (forall r, In r (db_translations (db st')) -> pk r = pk (self st') -> r = self st').
Proof.
  intros request st st' Hrun.
  destruct (resync_tail _ _ _ Hrun) as (st5 & st6 & _ & Hstats & Hself & Hu & Ht & _).
  destruct (update_stats_result _ _ Hstats) as (h & Hs6 & Hu6 & _ & Hin & Huniq & _).
  assert (Hset : unit_set (self st') (db st') = unit_set (self st5) (db st5)).
  { unfold unit_set. rewrite Hu, Hu6, Hself, Hs6. reflexivity. }
  assert (Htotal : total (self st6)
                   = Z.of_nat (List.length (unit_set (self st5) (db st5))))
    by (rewrite Hs6; reflexivity).
  assert (Hfuzzy : fuzzy (self st6)
                   = Z.of_nat (List.length (filter unit_fuzzy (unit_set (self st5) (db st5)))))
    by (rewrite Hs6; reflexivity).
  assert (Htrans : translated (self st6)
                   = Z.of_nat (List.length
                                 (filter unit_translated (unit_set (self st5) (db st5)))))
    by (rewrite Hs6; reflexivity).
  rewrite Hset, Hself, Ht, Htotal, Hfuzzy, Htrans.
  pose proof (filter_length_le unit_fuzzy (unit_set (self st5) (db st5))).
  pose proof (filter_length_le unit_translated (unit_set (self st5) (db st5))).
  repeat split; try lia; assumption.
Qed.

(** X4. A processing run of the reconcile ends with exactly one new entry
    at the head of the audit trail: an update of this translation, by the
    user of the request or by nobody when there is no request, stamped with
    the current time. *)
Theorem resync_records_update :
  forall (request : option Request) (st st' : State),
    resync request st = Ok tt st' ->
    exists older,
      db_changes (db st')
      = {| change_translation := pk (self st); change_action := ACTION_UPDATE;
           change_user := option_map request_user request;
           change_timestamp := clock st |} :: older.
Proof.
  intros request st st' Hrun.
  destruct (resync_tail _ _ _ Hrun) as (st5 & st6 & Hkept & Hstats & _ & _ & _ & Hch).
  destruct (update_stats_result _ _ Hstats) as (h & Hs6 & _ & _ & _ & _ & _ & Hclock).
  destruct Hkept as (_ & Hc5 & Hpk & _).
  exists (db_changes (db st6)). rewrite Hch, Hclock, Hc5, Hs6. simpl. rewrite Hpk.
  reflexivity.
Qed.

(** ** What the deletion phase leaves alone *)

Lemma in_delete_rows p l c rows r :
  In r (delete_rows p l c rows) <-> In r rows /\ dep_key p l c r = false.
Proof.
  unfold delete_rows. rewrite filter_In.
  destruct (dep_key p l c r); simpl; split.
  - intros [_ H]; discriminate H.
  - intros [_ H]; discriminate H.
  - intros [H _]; split; [exact H | reflexivity].
  - intros [H _]; split; [exact H | reflexivity].
Qed.

Lemma cleanup_all_suggestions_mem s cs d r :
  In r (db_suggestions (cleanup_all s cs d))
  <-> In r (db_suggestions d)
      /\ (forall c, In c cs -> language_refs s c d = false ->
            dep_key (project (subproject s)) (Some (language s)) c r = false).
Proof.
  revert d. induction cs as [| c cs IH]; intros d.
  - simpl. split; [intros H; split; [exact H | intros c []] | intros [H _]; exact H].
  - simpl cleanup_all. rewrite IH.
    destruct (cleanup_db_tables s c d) as (-> & _ & _).
    split.
    + intros [Hin Hall]. destruct (language_refs s c d) eqn:L.
      * split; [exact Hin |]. intros c' [<- | Hc'] L'; [congruence |].
        apply Hall; [exact Hc' | rewrite language_refs_cleanup; exact L'].
      * apply in_delete_rows in Hin. destruct Hin as [Hin Hkey].
        split; [exact Hin |]. intros c' [<- | Hc'] L'; [exact Hkey |].
        apply Hall; [exact Hc' | rewrite language_refs_cleanup; exact L'].
    + intros [Hin Hall]. split.
      * destruct (language_refs s c d) eqn:L; [exact Hin |].
        apply in_delete_rows. split; [exact Hin |].
        apply Hall; [left; reflexivity | exact L].
      * intros c' Hc' L'. rewrite language_refs_cleanup in L'.
        apply Hall; [right; exact Hc' | exact L'].
Qed.

Lemma cleanup_all_comments_mem s cs d r :
  In r (db_comments (cleanup_all s cs d))
  <-> In r (db_comments d)
      /\ (forall c, In c cs -> language_refs s c d = false ->
            dep_key (project (subproject s)) (Some (language s)) c r = false
            /\ (project_refs s c d = false ->
                dep_key (project (subproject s)) None c r = false)).
Proof.
  revert d. induction cs as [| c cs IH]; intros d.
  - simpl. split; [intros H; split; [exact H | intros c []] | intros [H _]; exact H].
  - simpl cleanup_all. rewrite IH.
    destruct (cleanup_db_tables s c d) as (_ & -> & _).
    split.
    + intros [Hin Hall].
      assert (Hrest : forall c', In c' cs -> language_refs s c' d = false ->
                dep_key (project (subproject s)) (Some (language s)) c' r = false
                /\ (project_refs s c' d = false ->
                    dep_key (project (subproject s)) None c' r = false)).
      { intros c' Hc' L'.
        specialize (Hall c' Hc'). rewrite language_refs_cleanup, project_refs_cleanup in Hall.
        apply Hall, L'. }
      destruct (language_refs s c d) eqn:L.
      * split; [exact Hin |]. intros c' [<- | Hc'] L'; [congruence | auto].
      * destruct (project_refs s c d) eqn:P.
        -- apply in_delete_rows in Hin. destruct Hin as [Hin Hkey].
           split; [exact Hin |]. intros c' [<- | Hc'] L'; [| auto].
           split; [exact Hkey | intros P'; congruence].
        -- apply in_delete_rows in Hin. destruct Hin as [Hin Hnone].
           apply in_delete_rows in Hin. destruct Hin as [Hin Hkey].
           split; [exact Hin |]. intros c' [<- | Hc'] L'; [| auto].
           split; [exact Hkey | intros _; exact Hnone].
    + intros [Hin Hall]. split.
      * destruct (language_refs s c d) eqn:L; [exact Hin |].
        destruct (Hall c (or_introl eq_refl) L) as [Hkey Hnone].
        destruct (project_refs s c d) eqn:P.
        -- apply in_delete_rows. split; assumption.
        -- apply in_delete_rows. split; [| apply Hnone; reflexivity].
           apply in_delete_rows. split; assumption.
      * intros c' Hc' L'. rewrite language_refs_cleanup in L'.
        rewrite project_refs_cleanup. apply Hall; [right; exact Hc' | exact L'].
Qed.

Lemma dep_key_parts p l c r :
  dep_key p l c r = true ->
  project_eqb (dep_project r) p = true
  /\ opt_language_eqb (dep_language r) l = true
  /\ dep_checksum r = c.
Proof.
  unfold dep_key. intros H.
  apply Bool.andb_true_iff in H. destruct H as [H Hc].
  apply Bool.andb_true_iff in H. destruct H as [Hp Hl].
  apply String.eqb_eq in Hc. repeat split; assumption.
Qed.

(** X5. The deletion phase of the reconcile deletes exactly the units of
    this translation whose id is still a candidate; units of other
    translations stay. It adds no Suggestion or Comment, and removes one
    only if it belongs to this project and to the checksum of a deleted
    unit, and is of this translation's language (or, for a Comment, of no
    language): rows of other projects, other languages or other checksums
    stay. Neither the translations nor the audit trail are touched. *)
Theorem delete_unused_spares_the_rest :
  forall (oldunits : set Z) (st : State),
  exists st',
    delete_unused oldunits st = Ok tt st'
    /\ (forall u, In u (db_units (db st'))
                  <-> In u (db_units (db st))
                      /\ ~ (pk (unit_translation u) = pk (self st)
                            /\ In (unit_id u) oldunits))
    /\ (forall r, In r (db_suggestions (db st')) -> In r (db_suggestions (db st)))
    /\ (forall r, In r (db_comments (db st')) -> In r (db_comments (db st)))
    /\ (forall r, In r (db_suggestions (db st)) ->
          project_eqb (dep_project r) (project (subproject (self st))) = false
          \/ opt_language_eqb (dep_language r) (Some (language (self st))) = false
          \/ ~ In (dep_checksum r) (deleted_checksums oldunits st) ->
          In r (db_suggestions (db st')))
    /\ (forall r, In r (db_comments (db st)) ->
          project_eqb (dep_project r) (project (subproject (self st))) = false
          \/ (opt_language_eqb (dep_language r) (Some (language (self st))) = false
              /\ dep_language r <> None)
          \/ ~ In (dep_checksum r) (deleted_checksums oldunits st) ->
          In r (db_comments (db st')))
    /\ db_translations (db st') = db_translations (db st)
    /\ db_changes (db st') = db_changes (db st).
Proof.
  intros oldunits st. rewrite delete_unused_ok. eexists. split; [reflexivity |].
  simpl db.
  set (d0 := with_units (fun _ => remaining_units oldunits st) (db st)).
  set (cs := deleted_checksums oldunits st).
  assert (Hkey : forall r l c,
            project_eqb (dep_project r) (project (subproject (self st))) = false
            \/ opt_language_eqb (dep_language r) l = false
            \/ ~ In (dep_checksum r) cs ->
            In c cs -> dep_key (project (subproject (self st))) l c r = false).
  { intros r l c Hcase Hc.
    destruct (dep_key (project (subproject (self st))) l c r) eqn:E; [| reflexivity].
    apply dep_key_parts in E. destruct E as (Hp & Hl & Hsum).
    destruct Hcase as [H | [H | H]]; [congruence | congruence |].
    exfalso. apply H. rewrite Hsum. exact Hc. }
  split.
  { intros u. rewrite cleanup_all_units. simpl. unfold remaining_units.
    rewrite filter_In. unfold units_to_delete.
    split; intros [Hin H]; (split; [exact Hin |]).
    - intros [Hpk Hid]. rewrite Hpk, Z.eqb_refl in H.
      rewrite (set_mem_correct2 Z.eq_dec _ _ Hid) in H. discriminate H.
    - destruct (Z.eqb_spec (pk (unit_translation u)) (pk (self st))) as [Hpk | Hpk];
        [| reflexivity].
      destruct (set_mem Z.eq_dec (unit_id u) oldunits) eqn:Hm; [| reflexivity].
      exfalso. apply H. split; [exact Hpk |].
      apply (set_mem_correct1 Z.eq_dec _ _ Hm). }
  split; [intros r Hin; apply cleanup_all_suggestions_mem in Hin; apply Hin |].
  split; [intros r Hin; apply cleanup_all_comments_mem in Hin; apply Hin |].
  split.
  { intros r Hin Hcase. apply cleanup_all_suggestions_mem.
    split; [exact Hin |]. intros c Hc _. apply Hkey; assumption. }
  split.
  { intros r Hin Hcase. apply cleanup_all_comments_mem.
    split; [exact Hin |]. intros c Hc _. split.
    - apply Hkey; [| exact Hc].
      destruct Hcase as [H | [[H _] | H]]; auto.
    - intros _. apply Hkey; [| exact Hc].
      destruct Hcase as [H | [[_ H] | H]]; auto.
      right; left. destruct (dep_language r); [reflexivity | contradiction]. }
  assert (Hframe : forall cs' d, db_translations (cleanup_all (self st) cs' d) = db_translations d
                                 /\ db_changes (cleanup_all (self st) cs' d) = db_changes d).
  { induction cs' as [| c cs' IH]; intros d; [split; reflexivity |].
    simpl. destruct (IH (cleanup_db (self st) c d)) as [-> ->].
    unfold cleanup_db. destruct (units_in_language (self st) c d); [| split; reflexivity].
    unfold units_in_project; simpl.
    destruct (filter _ (db_units d)); split; reflexivity. }
  destruct (Hframe cs d0) as [-> ->]. split; reflexivity.
Qed.

(** ** Notifications of a reconcile *)

Lemma keeps_raised {A} (I : State -> Prop) (m : M A) st e st' :
  keeps I m -> m st = Raise e st' -> I st -> I st'.
Proof. intros Hk Hrun H. specialize (Hk st H). unfold exec in Hk. rewrite Hrun in Hk. exact Hk. Qed.

Lemma notify_new_string_events st :
  exists st', notify_new_string st = Ok tt st'
    /\ events st' = (notifications (self st) ++ events st)%list.
Proof.
  unfold notify_new_string, bind at 1, gets at 1, notifications.
  generalize (subscribed_new_string (project (subproject (self st))) (language (self st))).
  generalize (pk (self st)) as key.
  intros key l. revert st.
  induction l as [| p l IH]; intros st.
  - exists st. split; reflexivity.
  - simpl for_each. unfold bind at 1, modify at 1.
    destruct (IH (emit (EvNotifyNewString p key) st)) as (st' & Hrun & Hev).
    exists st'. split; [exact Hrun |]. rewrite Hev. simpl.
    rewrite <- app_assoc. reflexivity.
Qed.

Lemma quiet_sync_frame st0 :
  quiet_frame (fun st => untouched_by_sync st0 st /\ events st = events st0).
Proof.
  unfold quiet_frame, untouched_by_sync, same_identity.
  repeat split; intros; simpl;
    match goal with H : _ /\ _ |- _ => decompose [and] H end; assumption.
Qed.

Lemma notifications_same s s' :
  same_identity s s' -> notifications s' = notifications s.
Proof.
  intros (Hpk & Hsp & Hl & _). unfold notifications. rewrite Hpk, Hsp, Hl. reflexivity.
Qed.

(** What a processing run adds to the effect log: nothing, or the
    notifications, and these only after the index reported a new string. *)
Lemma resync_events request st :
  exists sent,
    events (exec (resync request) st) = (sent ++ events st)%list
    /\ (sent = []
        \/ (sent = notifications (self st)
            /\ index_found_new st)).
Proof.
  set (I := fun st1 => untouched_by_sync st st1 /\ events st1 = events st).
  assert (HQ : quiet_frame I) by apply quiet_sync_frame.
  assert (H0 : I st).
  { unfold I, untouched_by_sync, same_identity. repeat split. }
  assert (Hstop : forall st1, I st1 ->
            exists sent, events st1 = (sent ++ events st)%list
              /\ (sent = []
                  \/ (sent = notifications (self st)
                      /\ index_found_new st))).
  { intros st1 (_ & Hev). exists []. split; [exact Hev | left; reflexivity]. }
  unfold resync, exec. unfold bind at 1, gets at 1. unfold bind at 1, gets at 1.
  unfold bind at 1.
  destruct (get_store st) as [store st2 | e st2] eqn:E2;
    [| apply Hstop; apply (keeps_raised _ _ _ _ _ (keeps_get_store _ HQ) E2 H0)].
  pose proof (keeps_ok _ _ _ _ _ (keeps_get_store _ HQ) E2 H0) as H2.
  pose proof (get_store_self _ _ _ E2) as S2.
  unfold bind at 1.
  destruct (get_template_store st2) as [tstore st3 | e st3] eqn:E3;
    [| apply Hstop; apply (keeps_raised _ _ _ _ _ (keeps_get_template_store _) E3 H2)].
  pose proof (get_template_store_self _ _ _ E3) as S3. subst st3.
  unfold bind at 1.
  match goal with |- context [sync_units store tstore ?o st2] =>
    set (oldunits := o) end.
  destruct (sync_units store tstore oldunits st2) as [[[was_new pos] old] st4 | e st4] eqn:E4;
    [| apply Hstop; apply (keeps_raised _ _ _ _ _ (keeps_sync_units _ _ _ _ HQ) E4 H2)].
  pose proof (keeps_ok _ _ _ _ _ (keeps_sync_units _ _ _ _ HQ) E4 H2) as H4.
  unfold bind at 1.
  destruct (delete_unused old st4) as [[] st5 | e st5] eqn:E5;
    [| apply Hstop; apply (keeps_raised _ _ _ _ _ (keeps_delete_unused _ _ HQ) E5 H4)].
  pose proof (keeps_ok _ _ _ _ _ (keeps_delete_unused _ _ HQ) E5 H4) as H5.
  unfold bind at 1.
  destruct (update_stats st5) as [[] st6 | e st6] eqn:E6;
    [| apply Hstop; apply (keeps_raised _ _ _ _ _ (keeps_update_stats _ HQ) E6 H5)].
  pose proof (keeps_ok _ _ _ _ _ (keeps_update_stats _ HQ) E6 H5) as H6.
  unfold bind at 1.
  destruct (Change_create ACTION_UPDATE (option_map request_user request) st6)
    as [[] st7 | e st7] eqn:E7;
    [| apply Hstop;
       apply (keeps_raised _ _ _ _ _ (keeps_Change_create _ _ _ HQ) E7 H6)].
  pose proof (keeps_ok _ _ _ _ _ (keeps_Change_create _ _ _ HQ) E7 H6) as H7.
  destruct was_new; [| apply Hstop, H7].
  destruct (notify_new_string_events st7) as (st8 & Hrun & Hev). rewrite Hrun.
  destruct H7 as ((_ & _ & Hid) & Hev7).
  exists (notifications (self st)). split.
  - rewrite Hev, Hev7, (notifications_same _ _ Hid). reflexivity.
  - right. split; [reflexivity |].
    exists store, tstore, st2, pos, old, st4.
    split; [exact E2 |]. split; [exact E3 |]. exact E4.
Qed.

Lemma update_from_blob_events force request st :
  exists sent,
    events (exec (update_from_blob force request) st) = (sent ++ events st)%list
    /\ (sent = []
        \/ (sent = notifications (self st)
            /\ index_found_new st)).
Proof.
  unfold update_from_blob, exec, bind at 1. rewrite get_git_blob_hash_ok.
  destruct (blob_hash_of (self st) (repo st)) as [h |];
    [| exists []; split; [reflexivity | left; reflexivity]].
  unfold bind at 1, gets at 1.
  destruct (negb (String.eqb (revision (self st)) h)); [apply resync_events |].
  destruct force; [apply resync_events |].
  exists []; split; [reflexivity | left; reflexivity].
Qed.

(** One round of the index loop sets the flag only on such a report. *)
Lemma sync_unit_was_new unit template_unit was_new pos old st was_new' pos' old' st' :
  sync_unit unit template_unit (was_new, pos, old) st = Ok (was_new', pos', old') st' ->
  was_new' = true ->
  was_new = true
  \/ reports_new_untranslated (update_from_unit (self st) unit pos template_unit (db st)).
Proof.
  unfold sync_unit, bind, Unit_update_from_unit, ret, reports_new_untranslated.
  destruct (update_from_unit (self st) unit pos template_unit (db st))
    as [[newunit is_new] d'] eqn:E.
  intros H Hnew. injection H as Hw _ _ _. rewrite Hnew in Hw. simpl.
  destruct was_new; [left; reflexivity | right]. simpl in Hw.
  apply Bool.andb_true_iff in Hw. destruct Hw as [Hn Ht].
  apply Bool.negb_true_iff in Ht. split; assumption.
Qed.

(** If the index loop ends with the flag set, one of its rounds set it:
    the loop got through the units before that round, and the index, asked
    with the position and the database of that moment, reported a new and
    untranslated unit. *)
Lemma index_loop_was_new {A} (xs : list A) (pick : A -> bool)
    (args : A -> option StoreUnit * option StoreUnit) :
  forall acc st acc' st',
    for_fold xs acc
      (fun acc x => if negb (pick x) then ret acc
                    else sync_unit (fst (args x)) (snd (args x)) acc) st
    = Ok acc' st' ->
    fst (fst acc') = true ->
    fst (fst acc) = true
    \/ exists pre x post was_new pos old st_i,
         xs = (pre ++ x :: post)%list
         /\ pick x = true
         /\ for_fold pre acc
              (fun acc x => if negb (pick x) then ret acc
                            else sync_unit (fst (args x)) (snd (args x)) acc) st
            = Ok (was_new, pos, old) st_i
         /\ reports_new_untranslated
              (update_from_unit (self st_i) (fst (args x)) pos (snd (args x)) (db st_i)).
Proof.
  induction xs as [| x xs IH]; intros acc st acc' st' Hrun Hnew.
  - inversion Hrun; subst. left; exact Hnew.
  - simpl in Hrun. apply bind_ok_inv in Hrun.
    destruct Hrun as (acc1 & st1 & Hx & Hrest).
    destruct (IH _ _ _ _ Hrest Hnew) as [H1 | H1].
    + destruct (pick x) eqn:Hpick; simpl in Hx.
      * destruct acc as [[was_new pos] old]. destruct acc1 as [[was_new1 pos1] old1].
        simpl in H1.
        destruct (sync_unit_was_new _ _ _ _ _ _ _ _ _ _ Hx H1) as [H | H].
        -- left; exact H.
        -- right. exists [], x, xs, was_new, pos, old, st.
           split; [reflexivity |]. split; [exact Hpick |].
           split; [reflexivity | exact H].
      * inversion Hx; subst. left; exact H1.
    + right.
      destruct H1 as (pre & y & post & w & pos & old & st_i & Hxs & Hpick & Hpre & Hrep).
      exists (x :: pre), y, post, w, pos, old, st_i.
      split; [rewrite Hxs; reflexivity |]. split; [exact Hpick |].
      split; [| exact Hrep].
      simpl. erewrite bind_ok; [| exact Hx]. exact Hpre.
Qed.

Lemma sync_prefix_self store tstore pre oldunits st acc st' :
  sync_prefix store tstore pre oldunits st = Ok acc st' -> self st' = self st.
Proof.
  unfold sync_prefix. destruct tstore as [t |]; apply sync_units_self.
Qed.

Lemma sync_units_was_new store tstore oldunits st pos' old' st' :
  sync_units store tstore oldunits st = Ok (true, pos', old') st' ->
  exists pre x post was_new pos old st_i,
    loop_units store tstore = (pre ++ x :: post)%list
    /\ is_translatable x = true
    /\ sync_prefix store tstore pre oldunits st = Ok (was_new, pos, old) st_i
    /\ reports_new_untranslated
         (update_from_unit (self st_i) (loop_unit store tstore x) pos
            (loop_template tstore x) (db st_i)).
Proof.
  unfold sync_units. destruct tstore as [t |]; intros H.
  - apply (index_loop_was_new _ is_translatable
             (fun template_unit =>
                (match findid store (tu_id template_unit) with
                 | Some i => nth_error (store_units store) i
                 | None => None
                 end, Some template_unit))) in H;
      [| reflexivity].
    destruct H as [H | H]; [discriminate H | exact H].
  - apply (index_loop_was_new _ is_translatable
             (fun unit => (Some unit, None))) in H;
      [| reflexivity].
    destruct H as [H | H]; [discriminate H | exact H].
Qed.

(** X6. All that a reconcile adds to the effect log are notifications of a
    new string: whether [update_from_blob] returns or raises, it triggers
    no push, takes no git lock, does not sleep and drops no cache entry; it
    either notifies nobody or tells every subscriber of the project and
    language once, naming this translation. *)
Theorem update_from_blob_only_notifies :
  forall (force : bool) (request : option Request) (st : State),
    events (exec (update_from_blob force request) st) = events st
    \/ events (exec (update_from_blob force request) st)
       = (notifications (self st) ++ events st)%list.
Proof.
  intros force request st.
  destruct (update_from_blob_events force request st) as (sent & Hev & [-> | [-> _]]).
  - left. exact Hev.
  - right. exact Hev.
Qed.

(** X7. A reconcile notifies the subscribers only of strings that are new
    and not translated: if the effect log has grown, then the call loaded
    the file (and the template, if any), its index loop got through some
    units [pre] of its list and came to a translatable unit [x], and there
    [Unit.objects.update_from_unit], called for this translation with the
    unit and template unit of [x], the position the loop had reached and
    the database as the loop had left it, reported the unit as newly
    created and untranslated. *)
Theorem notification_needs_new_untranslated_unit :
  forall (force : bool) (request : option Request) (st : State),
    events (exec (update_from_blob force request) st) <> events st ->
    exists store tstore st1 pre x post was_new pos old st_i,
      get_store st = Ok store st1
      /\ get_template_store st1 = Ok tstore st1
      /\ loop_units store tstore = (pre ++ x :: post)%list
      /\ is_translatable x = true
      /\ sync_prefix store tstore pre (indexed_ids st) st1 = Ok (was_new, pos, old) st_i
      /\ reports_new_untranslated
           (update_from_unit (self st) (loop_unit store tstore x) pos
              (loop_template tstore x) (db st_i)).
Proof.
  intros force request st Hgrown.
  destruct (update_from_blob_events force request st) as (sent & Hev & [-> | [_ Hsync]]).
  - contradiction.
  - destruct Hsync as (store & tstore & st1 & pos' & old' & st4 & Hstore & Htpl & Hrun).
    destruct (sync_units_was_new _ _ _ _ _ _ _ Hrun)
      as (pre & x & post & w & pos & old & st_i & Hxs & Hpick & Hpre & Hrep).
    exists store, tstore, st1, pre, x, post, w, pos, old, st_i.
    split; [exact Hstore |]. split; [exact Htpl |]. split; [exact Hxs |].
    split; [exact Hpick |]. split; [exact Hpre |].
    rewrite <- (get_store_self _ _ _ Hstore), <- (sync_prefix_self _ _ _ _ _ _ _ Hpre).
    exact Hrep.
Qed.

(** ** Queries and updates of the soft lock *)

Lemma same_but_lock_refl st : same_but_lock st st.
Proof. unfold same_but_lock. repeat split. Qed.

(** What a query of the user lock returns and leaves. *)
Lemma is_user_locked_multi_spec :
  forall (request : option Request) (st : State),
  exists usr_lock own_lock st',
    is_user_locked_multi request st = Ok (usr_lock, own_lock) st'
    /\ lock_user (self st') = lock_holder st
    /\ lock_holder st' = lock_holder st
    /\ usr_lock && own_lock = false
    /\ match lock_holder st with
       | Some u => own_lock = asked_by request u /\ usr_lock = negb (asked_by request u)
       | None => usr_lock = false /\ own_lock = false
       end
    /\ same_but_lock st st'
    /\ (lock_user (self st) = lock_holder st -> st' = st)
    /\ (lock_user (self st) <> lock_holder st ->
          lock_time (self st') = clock st
          /\ In (self st') (db_translations (db st'))
          /\ row_saved st st').
Proof.
  intros request st. unfold is_user_locked_multi, lock_holder.
  unfold bind at 1, gets at 1. unfold bind at 1, gets at 1.
  destruct (lock_user (self st)) as [holder |] eqn:Hu.
  - destruct (Z.ltb_spec (lock_time (self st)) (clock st)) as [Hlt | Hge].
    + unfold create_lock, bind, gets, modify, save, ret. simpl.
      do 3 eexists. split; [reflexivity |]. simpl.
      split; [reflexivity |]. split; [reflexivity |]. split; [reflexivity |].
      split; [split; reflexivity |].
      split; [unfold same_but_lock; simpl; repeat split |].
      split; [intros H; discriminate H |].
      intros _. split; [reflexivity |]. split; [apply save_row_has | reflexivity].
    + assert (Hnlt : (lock_time (self st) <? clock st) = false) by (apply Z.ltb_ge, Hge).
      destruct request as [q |]; simpl.
      * destruct (user_eqb holder (request_user q)) eqn:Eq;
          do 3 eexists; (split; [reflexivity |]); rewrite Hu, Hnlt;
          repeat split; try reflexivity; try apply same_but_lock_refl;
          congruence.
      * do 3 eexists. split; [reflexivity |]. rewrite Hu, Hnlt.
        repeat split; try reflexivity; try apply same_but_lock_refl;
          congruence.
  - do 3 eexists. split; [reflexivity |]. rewrite Hu.
    repeat split; try reflexivity; try apply same_but_lock_refl;
      congruence.
Qed.

(** X8. Expiry is lazy and a query enforces it: [is_user_locked] leaves the
    holder in place exactly when the lock has not expired, and otherwise
    clears it, stamps the time of the query and saves the row. Its two flags
    are never both set; one of them is set exactly when a live lock
    remains, and "own" exactly when the request comes from the holder, so
    that without a request every live lock counts as somebody else's.
    Nothing at all changes when there was no stale lock. When one is
    cleared, the object changes in its lock fields only, and the database
    in the row of the object only, which [save()] rewrites with every
    field of the object; the other rows and tables, the cached store, the
    repositories, the clock and the effect log stay. *)
Theorem is_user_locked_enforces_expiry :
  forall (request : option Request) (st : State),
  exists usr_lock own_lock st',
    is_user_locked_multi request st = Ok (usr_lock, own_lock) st'
    /\ lock_user (self st') = lock_holder st
    /\ lock_holder st' = lock_holder st
    /\ usr_lock && own_lock = false
    /\ match lock_holder st with
       | Some u => own_lock = asked_by request u /\ usr_lock = negb (asked_by request u)
       | None => usr_lock = false /\ own_lock = false
       end
    /\ same_but_lock st st'
    /\ (lock_user (self st) = lock_holder st -> st' = st)
    /\ (lock_user (self st) <> lock_holder st ->
          lock_time (self st') = clock st
          /\ In (self st') (db_translations (db st'))
          /\ row_saved st st').
Proof. exact is_user_locked_multi_spec. Qed.

(** What [is_locked] answers and leaves. *)
Lemma is_locked_spec :
  forall (request : option Request) (st : State),
  exists st',
    is_locked request st
    = Ok (locked (subproject (self st))
          || match lock_holder st with
             | Some u => negb (asked_by request u)
             | None => false
             end) st'
    /\ st' = exec (is_user_locked_multi request) st
    /\ lock_user (self st') = lock_holder st.
Proof.
  intros request st.
  destruct (is_user_locked_multi_spec request st)
    as (usr & own & st' & Hrun & Hu & _ & _ & Hflags & _).
  exists st'. unfold is_locked, is_locked_multi, exec.
  unfold bind at 1. unfold bind at 1, gets at 1. unfold bind at 1.
  rewrite Hrun. unfold ret. simpl.
  split; [| split; [reflexivity | exact Hu]].
  f_equal. f_equal.
  destruct (lock_holder st) as [u |]; destruct Hflags as [H1 H2]; assumption.
Qed.

(** X9. A translation is locked for a request when the whole subproject is
    locked or somebody else holds a live lock; the holder's own requests
    are not locked out. The user lock is queried whatever the project lock
    says, so a stale lock is cleared even on a locked subproject: the state
    left is that of [is_user_locked]. *)
Theorem is_locked_project_or_other_user :
  forall (request : option Request) (st : State),
  exists st',
    is_locked request st
    = Ok (locked (subproject (self st))
          || match lock_holder st with
             | Some u => negb (asked_by request u)
             | None => false
             end) st'
    /\ st' = exec (is_user_locked_multi request) st
    /\ lock_user (self st') = lock_holder st.
Proof. exact is_locked_spec. Qed.

Lemma create_lock_ok user explicit st :
  create_lock (Some user) explicit st = Ok tt (lock_taken user explicit st).
Proof.
  unfold create_lock, update_lock_time, lock_taken, lock_seconds.
  unfold bind, gets, modify, save, ret.
  destruct st as [s c d r k e]. destruct s. simpl.
  destruct lock_user0 as [holder |]; simpl; [| reflexivity].
  match goal with |- context [?a <? ?b] => destruct (Z.ltb_spec a b) as [Hlt | Hge] end.
  - rewrite Z.max_r by lia. reflexivity.
  - rewrite Z.max_l by lia. reflexivity.
Qed.

(** X10. Taking a lock hands it to the user without asking who held it, and
    never shortens it: the new expiry is at least the duration from now
    (the explicit or the automatic one) and, on a translation that had a
    holder, at least the old expiry; it is the later of the two. The
    object changes in its lock fields only and is saved: its row in the
    table of translations is rewritten with every field of the object, the
    other rows and tables, the cached store, the repositories, the clock
    and the effect log stay. *)
Theorem create_lock_takes_over_and_never_shortens :
  forall (user : User) (explicit : bool) (st : State),
  exists st',
    create_lock (Some user) explicit st = Ok tt st'
    /\ lock_user (self st') = Some user
    /\ clock st + lock_seconds explicit <= lock_time (self st')
    /\ (lock_user (self st) <> None ->
          lock_time (self st')
          = Z.max (lock_time (self st)) (clock st + lock_seconds explicit))
    /\ (lock_user (self st) = None ->
          lock_time (self st') = clock st + lock_seconds explicit)
    /\ In (self st') (db_translations (db st'))
    /\ same_but_lock st st'
    /\ row_saved st st'.
Proof.
  intros user explicit st. rewrite create_lock_ok. eexists. split; [reflexivity |].
  unfold lock_taken. simpl. split; [reflexivity |].
  split; [destruct (lock_user (self st)); lia |].
  split; [destruct (lock_user (self st)); [reflexivity | congruence] |].
  split; [intros ->; reflexivity |].
  split; [apply save_row_has |].
  split; [unfold same_but_lock; simpl; repeat split |].
  reflexivity.
Qed.

Lemma same_but_lock_trans st1 st2 st3 :
  same_but_lock st1 st2 -> same_but_lock st2 st3 -> same_but_lock st1 st3.
Proof.
  unfold same_but_lock.
  intros (A1 & A2 & A3 & A4 & A5 & A6) (B1 & B2 & B3 & B4 & B5 & B6).
  repeat split; congruence.
Qed.

Lemma same_but_lock_taken user explicit st :
  same_but_lock st (lock_taken user explicit st).
Proof. unfold same_but_lock, lock_taken. simpl. repeat split. Qed.

(** Saving an object twice is saving its last version. *)
Lemma save_row_twice t1 t2 rows :
  pk t1 = pk t2 -> save_row t2 (save_row t1 rows) = save_row t2 rows.
Proof.
  intros Hpk. unfold save_row. rewrite Hpk.
  destruct (existsb (fun r => pk r =? pk t2) rows) eqn:E.
  - assert (E' : existsb (fun r => pk r =? pk t2)
                   (map (fun r => if pk r =? pk t2 then t1 else r) rows) = true).
    { apply existsb_exists in E. destruct E as (r & Hin & Hr).
      apply existsb_exists. exists t1. split.
      - apply in_map_iff. exists r. rewrite Hr. split; [reflexivity | exact Hin].
      - rewrite Hpk. apply Z.eqb_refl. }
    rewrite E'. rewrite map_map. apply map_ext. intros r.
    destruct (pk r =? pk t2) eqn:Er; [| rewrite Er; reflexivity].
    rewrite Hpk, Z.eqb_refl. reflexivity.
  - assert (E' : existsb (fun r => pk r =? pk t2) (rows ++ [t1]) = true).
    { rewrite existsb_app. simpl. rewrite Hpk, Z.eqb_refl, E. reflexivity. }
    rewrite E'. rewrite map_app. simpl. rewrite Hpk, Z.eqb_refl. f_equal.
    clear E'. induction rows as [| r rows IH]; [reflexivity |].
    simpl in E. apply Bool.orb_false_iff in E. destruct E as [Er Erows].
    simpl. rewrite Er, (IH Erows). reflexivity.
Qed.

Lemma same_but_lock_pk st st' : same_but_lock st st' -> pk (self st') = pk (self st).
Proof.
  intros (_ & _ & _ & _ & Hs & _).
  apply (f_equal pk) in Hs. exact Hs.
Qed.

(** A save after a save, or after nothing, is one save. *)
Lemma row_saved_after st st1 st' :
  st1 = st \/ row_saved st st1 ->
  same_but_lock st1 st' ->
  row_saved st1 st' ->
  row_saved st st'.
Proof.
  intros [-> | H1] Hsame H2; [exact H2 |].
  unfold row_saved in *. rewrite H2, H1.
  apply save_row_twice. symmetry. apply same_but_lock_pk. exact Hsame.
Qed.

(** X11. A touch never changes who holds a live lock, whoever touches: it
    resets the holder's expiry to the automatic duration from now. Only
    when nobody holds a live lock can the touching user get one, and then
    only under [AUTO_LOCK], for the automatic duration; without
    [AUTO_LOCK] the translation stays unlocked. A touch of a translation
    without a recorded holder and without [AUTO_LOCK] changes nothing at
    all. Every other touch changes the lock fields of the object and saves
    it: the row of the object is rewritten with every field of the object,
    and the other rows and tables, the cached store, the repositories, the
    clock and the effect log stay. *)
Theorem update_lock_keeps_live_holder :
  forall (request : Request) (st : State),
  exists st',
    update_lock request st = Ok tt st'
    /\ match lock_holder st with
       | Some u =>
           lock_user (self st') = Some u
           /\ lock_time (self st') = clock st + AUTO_LOCK_TIME appsettings
       | None =>
           if AUTO_LOCK appsettings
           then lock_user (self st') = Some (request_user request)
                /\ lock_time (self st') = clock st + AUTO_LOCK_TIME appsettings
           else lock_user (self st') = None
       end
    /\ same_but_lock st st'
    /\ (lock_user (self st) = None -> AUTO_LOCK appsettings = false -> st' = st)
    /\ (lock_user (self st) <> None \/ AUTO_LOCK appsettings = true -> row_saved st st').
Proof.
  intros request st.
  unfold update_lock, is_user_locked.
  unfold bind at 1. unfold bind at 1.
  destruct (is_user_locked_multi_spec None st)
    as (usr & own & st1 & Hrun & Hu1 & _ & _ & Hflags & Hsame & Hfix & Hclear).
  rewrite Hrun. unfold ret at 1. simpl fst.
  assert (Hclock : clock st1 = clock st) by apply Hsame.
  assert (Hfirst : st1 = st \/ row_saved st st1).
  { destruct (lock_user (self st)) as [h |] eqn:Hu.
    - destruct (lock_holder st) as [h' |] eqn:Hh.
      + left. apply Hfix. unfold lock_holder in Hh. rewrite Hu in Hh.
        destruct (lock_time (self st) <? clock st); [discriminate Hh | exact Hh].
      + right. apply Hclear. discriminate.
    - left. apply Hfix. unfold lock_holder. rewrite Hu. reflexivity. }
  destruct (lock_holder st) as [holder |] eqn:Hh.
  - destruct Hflags as [_ ->]. unfold asked_by. cbn [fst negb]. cbv beta iota.
    unfold update_lock_time, bind, gets, modify, save, ret. simpl.
    eexists. split; [reflexivity |]. simpl.
    split; [split; [exact Hu1 | rewrite Hclock; reflexivity] |].
    assert (Hlast : same_but_lock st1
              (with_db (with_translations
                          (save_row (set_lock_time (clock st1 + AUTO_LOCK_TIME appsettings)
                                       (self st1))))
                 (with_self (set_lock_time (clock st1 + AUTO_LOCK_TIME appsettings)) st1))).
    { unfold same_but_lock. simpl. repeat split. }
    split; [exact (same_but_lock_trans _ _ _ Hsame Hlast) |].
    split.
    + intros Hnone. exfalso. unfold lock_holder in Hh. rewrite Hnone in Hh.
      discriminate Hh.
    + intros _. apply (row_saved_after st st1); [exact Hfirst | exact Hlast |].
      reflexivity.
  - destruct Hflags as [-> _]. cbn [fst]. cbv beta iota.
    destruct (AUTO_LOCK appsettings) eqn:Hauto; cbv beta iota.
    + rewrite create_lock_ok. eexists. split; [reflexivity |].
      split; [unfold lock_taken; simpl; rewrite Hu1, Hclock; split; reflexivity |].
      split; [apply (same_but_lock_trans _ _ _ Hsame), same_but_lock_taken |].
      split; [intros _ H; discriminate H |].
      intros _. apply (row_saved_after st st1);
        [exact Hfirst | apply same_but_lock_taken | reflexivity].
    + eexists. split; [reflexivity |]. split; [exact Hu1 |]. split; [exact Hsame |].
      split.
      * intros Hnone _. apply Hfix. exact Hnone.
      * intros [Hsome | H]; [| discriminate H].
        apply Hclear. exact Hsome.
Qed.

(** ** Invariants kept by commits *)

Lemma keeps_quiet {A} (I : State -> Prop) (m : M A) :
  (forall st, exec m st = st) -> keeps I m.
Proof. intros Hq st H. rewrite Hq. exact H. Qed.

Lemma keeps_configure_git ok okr I section key expected :
  frame ok okr I -> commit_ops okr -> keeps I (__configure_git section key expected).
Proof.
  intros (_ & Hr & _) (Hc & _). unfold __configure_git.
  apply keeps_bind; [apply keeps_gets | intros s].
  apply keeps_bind; [apply keeps_gets | intros value].
  destruct (opt_string_eqb value (Some expected)); [apply keeps_ret |].
  apply keeps_modify. intros st H. apply Hr; [apply Hc | exact H].
Qed.

Lemma keeps_configure_committer ok okr I :
  frame ok okr I -> commit_ops okr -> keeps I __configure_committer.
Proof.
  intros HI Hc. unfold __configure_committer.
  apply keeps_bind; [apply keeps_gets | intros s].
  apply keeps_bind; [| intros _]; apply (keeps_configure_git ok okr); assumption.
Qed.

Lemma keeps_get_commit_message I : keeps I get_commit_message.
Proof. apply keeps_quiet. intros st. unfold exec. rewrite get_commit_message_ok. reflexivity. Qed.

Lemma keeps_git_cmd_commit ok okr I p author date msg :
  frame ok okr I -> commit_ops okr -> keeps I (git_cmd_commit p author date msg).
Proof.
  intros (_ & Hr & _) (_ & Hpop & Hrec) st H. unfold exec, git_cmd_commit.
  destruct (repo_busy (repo st)) as [| [|] rest]; apply Hr; auto.
Qed.

Lemma frame_quiet ok okr I : frame ok okr I -> quiet_frame I.
Proof. intros (HQ & _). exact HQ. Qed.

Lemma keeps_git_commit_inner ok okr I author timestamp sync :
  frame ok okr I -> commit_ops okr -> keeps I (__git_commit author timestamp sync).
Proof.
  intros HI Hc. unfold __git_commit.
  apply keeps_bind; [apply (keeps_configure_committer ok okr); assumption | intros _].
  apply keeps_bind; [apply keeps_get_commit_message | intros msg].
  apply keeps_bind; [apply keeps_gets | intros s].
  apply keeps_bind; [destruct timestamp; [apply keeps_ret | apply keeps_raise] | intros date].
  apply keeps_bind; [apply (keeps_git_cmd_commit ok okr); assumption | intros _].
  destruct sync; [apply keeps_store_hash, (frame_quiet _ _ _ HI) | apply keeps_ret].
Qed.

Lemma keeps_git_needs_commit I : keeps I git_needs_commit.
Proof. apply keeps_quiet. intros st. unfold exec. rewrite git_needs_commit_ok. reflexivity. Qed.

Lemma keeps_emit ok okr I e :
  frame ok okr I -> ok e = true -> keeps I (modify (emit e)).
Proof. intros (_ & _ & He) Hok. apply keeps_modify. intros st H. apply He; assumption. Qed.

Lemma keeps_git_commit ok okr (F : Z -> State -> Prop)
    author timestamp force sync skip :
  (forall n, frame ok okr (F n)) -> commit_ops okr -> lockable F ->
  ok EvSleep = true -> (forall sp, ok (EvPush sp) = true) ->
  forall n, keeps (F n) (git_commit author timestamp force sync skip).
Proof.
  intros HF Hc HL Hsleep Hpush n. unfold git_commit.
  apply keeps_bind; [apply keeps_git_needs_commit | intros needs].
  destruct (negb needs); [apply keeps_ret |].
  destruct (negb force && LAZY_COMMITS appsettings); [apply keeps_ret |].
  apply keeps_bind.
  - apply HL. intros m. apply keeps_try_except.
    + apply (keeps_git_commit_inner ok okr); [apply HF | exact Hc].
    + apply keeps_bind; [apply (keeps_emit ok okr); [apply HF | exact Hsleep] | intros _].
      apply (keeps_git_commit_inner ok okr); [apply HF | exact Hc].
  - intros _. apply keeps_bind; [apply keeps_gets | intros s].
    apply keeps_bind; [| intros _; apply keeps_ret].
    destruct (push_on_commit (project (subproject s)) && negb skip); [| apply keeps_ret].
    unfold do_push. apply keeps_bind; [apply keeps_gets | intros s'].
    apply (keeps_emit ok okr); [apply HF | apply Hpush].
Qed.

Lemma keeps_get_author_name I user email : keeps I (get_author_name user email).
Proof.
  apply keeps_quiet. intros st. unfold exec, get_author_name.
  destruct user; [destruct (negb email) |]; reflexivity.
Qed.

Lemma keeps_get_last_author I email : keeps I (get_last_author email).
Proof.
  unfold get_last_author.
  apply keeps_bind; [apply keeps_gets | intros [| change rest]]; [apply keeps_ret |].
  apply keeps_bind; [apply keeps_get_author_name | intros name; apply keeps_ret].
Qed.

Lemma keeps_get_last_change I : keeps I get_last_change.
Proof.
  unfold get_last_change.
  apply keeps_bind; [apply keeps_gets | intros [| change rest]]; apply keeps_ret.
Qed.

Lemma keeps_commit_pending ok okr (F : Z -> State -> Prop) author skip :
  (forall n, frame ok okr (F n)) -> commit_ops okr -> lockable F ->
  ok EvSleep = true -> (forall sp, ok (EvPush sp) = true) ->
  forall n, keeps (F n) (commit_pending author skip).
Proof.
  intros HF Hc HL Hsleep Hpush n. unfold commit_pending.
  apply keeps_bind; [apply keeps_get_last_author | intros [last |]]; [| apply keeps_ret].
  destruct (opt_string_eqb author (Some last)); [apply keeps_ret |].
  apply keeps_bind; [apply keeps_get_last_change | intros timestamp].
  apply keeps_bind; [| intros _; apply keeps_ret].
  apply (keeps_git_commit ok okr F); assumption.
Qed.

Lemma lockable_balance : lockable (fun n st => lock_balance (events st) = n).
Proof. intros A body. apply with_git_lock_balanced. Qed.


Lemma balance_frame n :
  frame not_git_lock (fun _ => True) (fun st => lock_balance (events st) = n).
Proof.
  unfold frame, quiet_frame. repeat split; intros; simpl; try assumption.
  destruct e; simpl; try assumption; discriminate.
Qed.

Lemma commit_ops_any : commit_ops (fun _ => True).
Proof. unfold commit_ops. repeat split. Qed.

Lemma frame_sync ok okr I :
  frame ok okr I -> (forall p t, ok (EvNotifyNewString p t) = true) -> sync_frame I.
Proof.
  intros (HQ & _ & He) Hn. split; [exact HQ |].
  intros st p t H. apply He; [apply Hn | exact H].
Qed.

Lemma keeps_store_save ok okr I store :
  frame ok okr I -> (forall p s, okr (set_worktree p s)) -> keeps I (store_save store).
Proof.
  intros (_ & Hr & _) Hw. unfold store_save.
  apply keeps_bind; [apply keeps_gets | intros s].
  apply keeps_modify. intros st H. apply Hr; [apply Hw | exact H].
Qed.

Lemma keeps_merge_store ok okr (F : Z -> State -> Prop)
    author store2 overwrite merge_header add_fuzzy :
  (forall n, frame ok okr (F n)) -> commit_ops okr ->
  (forall p s, okr (set_worktree p s)) -> lockable F ->
  ok EvSleep = true -> (forall sp, ok (EvPush sp) = true) ->
  (forall p t, ok (EvNotifyNewString p t) = true) ->
  forall n, keeps (F n) (merge_store author store2 overwrite merge_header add_fuzzy).
Proof.
  intros HF Hc Hw HL Hsleep Hpush Hnotify. unfold merge_store.
  apply HL. intros n.
  pose proof (frame_quiet _ _ _ (HF n)) as HQ.
  apply keeps_bind; [apply keeps_get_store, HQ | intros store1].
  apply keeps_bind; [apply keeps_modify; intros st H; apply HQ, H | intros _].
  apply keeps_bind; [apply (keeps_commit_pending ok okr F); assumption | intros _].
  apply keeps_bind; [apply (keeps_store_save ok okr); [apply HF | exact Hw] | intros _].
  apply keeps_bind; [apply keeps_gets | intros now].
  apply keeps_bind; [apply (keeps_git_commit ok okr F); assumption | intros ret_].
  apply keeps_bind; [| intros _; apply keeps_ret].
  unfold check_sync. apply keeps_update_from_blob.
  apply (frame_sync ok okr); [apply HF | exact Hnotify].
Qed.

Lemma keeps_invalidate_cache ok okr I cache_type :
  frame ok okr I -> (forall sp code rqtype, ok (EvCacheDelete sp code rqtype) = true) ->
  keeps I (invalidate_cache cache_type).
Proof.
  intros HI Hcache. unfold invalidate_cache.
  apply keeps_bind; [apply keeps_gets | intros s].
  apply keeps_for_each. intros rqtype. apply (keeps_emit ok okr); [exact HI | apply Hcache].
Qed.

Lemma keeps_merge_suggestions ok okr I request store :
  frame ok okr I -> (forall sp code rqtype, ok (EvCacheDelete sp code rqtype) = true) ->
  keeps I (merge_suggestions request store).
Proof.
  intros HI Hcache. pose proof (frame_quiet _ _ _ HI) as (Hdb & _).
  unfold merge_suggestions.
  apply keeps_bind; [| intros ret_].
  - apply keeps_for_fold. intros acc unit.
    destruct (tu_header unit || negb (is_translated unit)); [apply keeps_ret |].
    apply keeps_bind; [apply keeps_gets | intros s].
    apply keeps_bind; [| intros _; apply keeps_ret].
    apply keeps_modify. intros st H. apply Hdb, H.
  - apply keeps_bind; [| intros _; apply keeps_ret].
    destruct ret_; [apply (keeps_invalidate_cache ok okr); assumption | apply keeps_ret].
Qed.

Lemma keeps_load_upload I fileobj : keeps I (load_upload fileobj).
Proof.
  apply keeps_quiet. intros st. unfold exec, load_upload.
  destruct (ttkit_fileobj fileobj None); [reflexivity |].
  unfold bind, gets.
  destruct (ttkit_fileobj fileobj (Some (file_format (subproject (self st))))); reflexivity.
Qed.

Lemma keeps_merge_upload ok okr (F : Z -> State -> Prop)
    request fileobj overwrite author merge_header method :
  (forall n, frame ok okr (F n)) -> commit_ops okr ->
  (forall p s, okr (set_worktree p s)) -> lockable F ->
  (forall n st s c, F n st <-> F n (set_store_cache c (with_self (fun _ => s) st))) ->
  ok EvSleep = true -> (forall sp, ok (EvPush sp) = true) ->
  (forall p t, ok (EvNotifyNewString p t) = true) ->
  (forall sp code rqtype, ok (EvCacheDelete sp code rqtype) = true) ->
  forall n, keeps (F n) (merge_upload request fileobj overwrite author merge_header method).
Proof.
  intros HF Hc Hw HL Hobj Hsleep Hpush Hnotify Hcache n. unfold merge_upload.
  apply keeps_bind; [apply keeps_load_upload | intros store].
  apply keeps_bind;
    [destruct author; [apply keeps_ret | apply keeps_get_author_name] | intros name].
  apply keeps_bind; [apply keeps_gets | intros s].
  apply keeps_bind; [apply keeps_gets | intros d].
  destruct (String.eqb method "" || String.eqb method "fuzzy").
  - apply keeps_for_fold. intros acc translation.
    apply keeps_bind; [| intros r; apply keeps_ret].
    apply keeps_call_on; [apply Hobj |].
    apply (keeps_merge_store ok okr F); assumption.
  - apply (keeps_merge_suggestions ok okr); [apply HF | exact Hcache].
Qed.

(** X12. Whoever takes the git lock gives it back: on every path through
    [git_commit], [commit_pending], [merge_store] and [merge_upload],
    whether they return or raise, whether git refuses or the file cannot be
    read, the acquisitions and releases recorded in the effect log balance
    out, nested blocks included. *)
Theorem git_lock_always_released :
  forall (st : State),
    (forall author timestamp force sync skip,
       lock_balance (events (exec (git_commit author timestamp force sync skip) st))
       = lock_balance (events st))
    /\ (forall author skip,
          lock_balance (events (exec (commit_pending author skip) st))
          = lock_balance (events st))
    /\ (forall author store2 overwrite merge_header add_fuzzy,
          lock_balance
            (events (exec (merge_store author store2 overwrite merge_header add_fuzzy) st))
          = lock_balance (events st))
    /\ (forall request fileobj overwrite author merge_header method,
          lock_balance
            (events (exec (merge_upload request fileobj overwrite author
                                        merge_header method) st))
          = lock_balance (events st)).
Proof.
  intros st.
  assert (Hany : forall p s, (fun _ : Repo -> Repo => True) (set_worktree p s))
    by (intros; exact I).
  repeat split; intros.
  - apply (keeps_git_commit not_git_lock (fun _ => True)
             (fun n st => lock_balance (events st) = n));
      auto using balance_frame, commit_ops_any, lockable_balance.
  - apply (keeps_commit_pending not_git_lock (fun _ => True)
             (fun n st => lock_balance (events st) = n));
      auto using balance_frame, commit_ops_any, lockable_balance.
  - apply (keeps_merge_store not_git_lock (fun _ => True)
             (fun n st => lock_balance (events st) = n));
      auto using balance_frame, commit_ops_any, lockable_balance.
  - apply (keeps_merge_upload not_git_lock (fun _ => True)
             (fun n st => lock_balance (events st) = n));
      auto using balance_frame, commit_ops_any, lockable_balance.
    intros n st0 s c. simpl. split; intros H; exact H.
Qed.

(** ** The effect log of a commit *)

(** A commit without a timestamp fails on [timestamp.isoformat()], after
    the committer was configured and before git is called. *)
Lemma git_commit_no_timestamp author force sync skip st :
  deferred force st = false ->
  git_commit author None force sync skip st
  = Raise AttributeError
      (emit (EvGitLockRelease (subproject_pk (subproject (self st))))
         (with_repo (configure_repo (self st))
            (emit (EvGitLockAcquire (subproject_pk (subproject (self st)))) st))).
Proof.
  unfold deferred, git_commit. intros H.
  rewrite (bind_ok _ _ _ _ _ (git_needs_commit_ok st)).
  destruct (needs_commit st); simpl in H; [| discriminate].
  rewrite H. simpl.
  unfold with_git_lock, bind at 1. unfold bind at 1, gets at 1.
  unfold bind at 1, modify at 1, finally, try_except.
  unfold __git_commit.
  rewrite (bind_ok _ _ _ _ _ (configure_committer_ok _)).
  rewrite (bind_ok _ _ _ _ _ (get_commit_message_ok _)).
  unfold bind, gets, raise. simpl. reflexivity.
Qed.

Lemma finish_commit_events sync skip st :
  events (exec (fun st0 => finish_commit sync skip st0) st)
  = ((if match finish_commit sync skip st with
          | Ok _ _ => push_on_commit (project (subproject (self st))) && negb skip
          | Raise _ _ => false
          end
      then [EvPush (subproject_pk (subproject (self st)))] else [])
     ++ EvGitLockRelease (subproject_pk (subproject (self st))) :: events st)%list.
Proof.
  unfold exec, finish_commit. destruct sync.
  - destruct (blob_hash_of (self st) (repo st)) as [h |]; [| reflexivity]. simpl.
    destruct (push_on_commit (project (subproject (self st))) && negb skip); reflexivity.
  - simpl.
    destruct (push_on_commit (project (subproject (self st))) && negb skip); reflexivity.
Qed.

(** X13. What a commit leaves in the effect log. A deferred commit (nothing
    to commit, or lazy commits without force) changes nothing and answers
    no. Any other call takes the git lock and releases it, sleeps in
    between exactly when git refused the first attempt, answers yes if it
    returns at all, and triggers the push only after the release, only when
    it returned, and only if the project pushes on commit and the caller
    did not ask to skip it. *)
Theorem git_commit_effect_log :
  forall (author : string) (timestamp : option Z) (force sync skip : bool) (st : State),
    (deferred force st = true ->
       git_commit author timestamp force sync skip st = Ok false st)
    /\ (deferred force st = false ->
          (forall b st', git_commit author timestamp force sync skip st = Ok b st' ->
                         b = true)
          /\ events (exec (git_commit author timestamp force sync skip) st)
             = commit_log (subproject_pk (subproject (self st)))
                 (match timestamp with
                  | Some _ => hd false (repo_busy (repo st))
                  | None => false
                  end)
                 (match git_commit author timestamp force sync skip st with
                  | Ok _ _ => push_on_commit (project (subproject (self st))) && negb skip
                  | Raise _ _ => false
                  end)
                 (events st)).
Proof.
  intros author timestamp force sync skip st.
  split; [apply git_commit_deferred |]. intros Hd.
  destruct timestamp as [date |].
  - destruct (busy_cases (repo_busy (repo st)))
      as [Hfree | [(rest & Hb & Hrest) | (rest & Hb)]].
    + pose proof (git_commit_free author date force sync skip st Hd Hfree) as Hrun.
      unfold exec. rewrite Hrun, Hfree.
      split; [intros b st' Hok; apply finish_commit_ok in Hok; apply Hok |].
      pose proof (finish_commit_events sync skip
                    (committed author date
                       (emit (EvGitLockAcquire (subproject_pk (subproject (self st)))) st)))
        as Hev.
      unfold exec in Hev. rewrite Hev. reflexivity.
    + pose proof (git_commit_retry author date force sync skip st rest Hd Hb Hrest) as Hrun.
      unfold exec. rewrite Hrun, Hb.
      split; [intros b st' Hok; apply finish_commit_ok in Hok; apply Hok |].
      match type of Hrun with _ = finish_commit _ _ ?X =>
        pose proof (finish_commit_events sync skip X) as Hev end.
      unfold exec in Hev. rewrite Hev. reflexivity.
    + pose proof (git_commit_refused_twice author date force sync skip st rest Hd Hb) as Hrun.
      unfold exec. rewrite Hrun, Hb.
      split; [intros b st' Hok; discriminate Hok | reflexivity].
  - unfold exec. rewrite (git_commit_no_timestamp author force sync skip st Hd).
    split; [intros b st' Hok; discriminate Hok | reflexivity].
Qed.

(** ** A merge, from the file to the index *)

Lemma get_store_inv st s st' :
  get_store st = Ok s st' ->
  loaded_store st = Some s
  /\ _store st' = Some s /\ self st' = self st /\ db st' = db st
  /\ repo st' = repo st /\ clock st' = clock st /\ events st' = events st.
Proof.
  unfold get_store, loaded_store, bind at 1, gets at 1.
  destruct (_store st) as [cached |] eqn:Ec.
  - intros H; inversion H; subst. repeat split. exact Ec.
  - unfold bind, gets, ttkit_file, modify, ret.
    destruct (repo_worktree (repo st) (get_filename (self st))) as [file |];
      intros H; inversion H; subst. repeat split.
Qed.

Lemma finally_ok_inv {A} (body : M A) f st r st' :
  finally body f st = Ok r st' -> exists st1, body st = Ok r st1 /\ st' = f st1.
Proof.
  unfold finally. destruct (body st) as [a st1 | e st1]; intros H; inversion H; subst.
  exists st1. split; reflexivity.
Qed.









(** ** The merge loop as a whole *)

Lemma Forall2_set_nth {A B} (R : A -> B -> Prop) l l' i x' y :
  Forall2 R l l' ->
  nth_error l' i = Some x' ->
  (forall x, R x x' -> R x y) ->
  Forall2 R l (set_nth i y l').
Proof.
  intros H. revert i. induction H as [| a b l l' Hab Hl IH]; intros i Hi Hstep.
  - destruct i; discriminate Hi.
  - destruct i as [| i]; simpl in *.
    + inversion Hi; subst. constructor; [apply Hstep, Hab | exact Hl].
    + constructor; [exact Hab | apply IH; assumption].
Qed.

Lemma merged_from_refl store2 add_fuzzy us :
  Forall2 (merged_from store2 add_fuzzy) us us.
Proof.
  induction us as [| u us IH]; constructor; [| exact IH].
  unfold merged_from. repeat split. left; reflexivity.
Qed.

Lemma merge_unit_structure store2 overwrite merge_header add_fuzzy us store unit2 :
  merge_header && store_poheader store = false ->
  In unit2 (store_units store2) ->
  Forall2 (merged_from store2 add_fuzzy) us (store_units store) ->
  store_poheader (merge_unit store2 overwrite merge_header add_fuzzy store unit2)
  = store_poheader store
  /\ Forall2 (merged_from store2 add_fuzzy) us
       (store_units (merge_unit store2 overwrite merge_header add_fuzzy store unit2)).
Proof.
  intros Hhead Hin Hall. unfold merge_unit.
  destruct (is_translated unit2) eqn:Et; simpl negb; cbv iota; [| split; [reflexivity | exact Hall]].
  destruct (tu_header unit2) eqn:Eh.
  - rewrite Hhead. split; [reflexivity | exact Hall].
  - destruct (locate store unit2) as [i |]; [| split; [reflexivity | exact Hall]].
    destruct (nth_error (store_units store) i) as [unit1 |] eqn:Ei;
      [| split; [reflexivity | exact Hall]].
    destruct (negb overwrite && istranslated unit1); [split; [reflexivity | exact Hall] |].
    split; [reflexivity |]. simpl store_units.
    apply (Forall2_set_nth _ _ _ _ unit1); [exact Hall | exact Ei |].
    intros u (Hid & Hsrc & Hctx & Hhd & Hcm & _).
    unfold merged_from.
    destruct add_fuzzy; simpl; (repeat split; try assumption);
      right; exists unit2; repeat split; assumption.
Qed.

Lemma merge_loop_structure store2 overwrite merge_header add_fuzzy us units2 :
  (forall unit2, In unit2 units2 -> In unit2 (store_units store2)) ->
  forall store,
    merge_header && store_poheader store = false ->
    Forall2 (merged_from store2 add_fuzzy) us (store_units store) ->
    store_poheader
      (fold_left (merge_unit store2 overwrite merge_header add_fuzzy) units2 store)
    = store_poheader store
    /\ Forall2 (merged_from store2 add_fuzzy) us
         (store_units
            (fold_left (merge_unit store2 overwrite merge_header add_fuzzy) units2 store)).
Proof.
  induction units2 as [| unit2 units2 IH]; intros Hsub store Hhead Hall.
  - split; [reflexivity | exact Hall].
  - simpl fold_left.
    destruct (merge_unit_structure store2 overwrite merge_header add_fuzzy us store unit2
                Hhead (Hsub unit2 (or_introl eq_refl)) Hall) as (Hpo & Hall1).
    destruct (IH (fun u H => Hsub u (or_intror H))
                 (merge_unit store2 overwrite merge_header add_fuzzy store unit2))
      as (Hpo2 & Hall2); [rewrite Hpo; exact Hhead | exact Hall1 |].
    split; [rewrite Hpo2; exact Hpo | exact Hall2].
Qed.

(** X15. A merge changes translations and nothing else. Unless headers are
    merged (the caller asked for it and the file has a PO header), the
    store that [merge_store] writes has the units of the file, one for one
    and in the same order, each with its id, source, context, comments and
    header flag; a unit is either as it was or carries the target text of
    some translated, non-header unit of the upload, and then it is fuzzy
    whenever [add_fuzzy] is set. The merge adds no unit and drops none. *)
Theorem merged_store_keeps_structure :
  forall (store2 : Store) (overwrite merge_header add_fuzzy : bool) (store1 : Store),
    merge_header && store_poheader store1 = false ->
    store_poheader (merged_store store2 overwrite merge_header add_fuzzy store1)
    = store_poheader store1
    /\ List.length (store_units (merged_store store2 overwrite merge_header add_fuzzy store1))
       = List.length (store_units store1)
    /\ Forall2 (merged_from store2 add_fuzzy) (store_units store1)
         (store_units (merged_store store2 overwrite merge_header add_fuzzy store1)).
Proof.
  intros store2 overwrite merge_header add_fuzzy store1 Hhead.
  destruct (merge_loop_structure store2 overwrite merge_header add_fuzzy
              (store_units store1) (store_units store2) (fun _ H => H) store1 Hhead
              (merged_from_refl _ _ _)) as (Hpo & Hall).
  split; [exact Hpo |]. split; [| exact Hall].
  symmetry. apply (Forall2_length Hall).
Qed.

(** ** Uploads as suggestions *)

Lemma suggestions_loop request units :
  forall acc st,
  exists st',
    for_fold units acc
      (fun ret_ unit =>
         if tu_header unit || negb (is_translated unit) then ret ret_
         else
           s <- gets self ;;
           let checksum := msg_checksum (tu_source unit) (tu_context unit) in
           modify (with_db (with_suggestions (fun rows => (rows ++
             [ {| dep_project := project (subproject s);
                  dep_language := Some (language s);
                  dep_checksum := checksum;
                  dep_payload := tu_target unit;
                  dep_user := Some (request_user request) |} ])%list))) ;;
           ret true) st
    = Ok (acc || existsb suggested units) st'
    /\ db_suggestions (db st')
       = (db_suggestions (db st)
          ++ map (suggestion_of request (self st)) (filter suggested units))%list
    /\ events st' = events st
    /\ same_but_suggestions st st'.
Proof.
  induction units as [| unit units IH]; intros acc st.
  - exists st. simpl. rewrite Bool.orb_false_r, app_nil_r.
    unfold same_but_suggestions. repeat split.
  - simpl for_fold. simpl existsb. simpl filter.
    destruct (tu_header unit || negb (is_translated unit)) eqn:E;
      (assert (Hs : suggested unit = negb (tu_header unit || negb (is_translated unit)))
         by reflexivity);
      rewrite E in Hs; rewrite Hs; simpl negb; cbv iota.
    + unfold bind at 1, ret at 1. simpl orb. apply IH.
    + erewrite bind_ok; [| reflexivity]. cbv beta.
      match goal with |- context [for_fold units true _ ?X] =>
        destruct (IH true X) as (st' & Hrun & Hsug & Hev & Hsame) end.
      exists st'. simpl orb. rewrite Bool.orb_true_r.
      split; [exact Hrun |].
      split; [rewrite Hsug; simpl; rewrite <- app_assoc; reflexivity |].
      split; [exact Hev |].
      destruct Hsame as (H1 & H2 & H3 & H4 & H5).
      unfold same_but_suggestions. simpl in *. repeat split; assumption.
Qed.

(** X16. An upload taken as suggestions cannot fail and touches neither the
    file nor the index: every translated unit of the upload that is no
    header becomes one suggestion of the requesting user for this project
    and language, appended in file order after the suggestions there were,
    none of which is changed or dropped. The answer says whether any
    suggestion was added, and exactly then the cached suggestion counts of
    the translation are dropped. *)
Theorem merge_suggestions_only_appends :
  forall (request : Request) (store : Store) (st : State),
  exists st',
    merge_suggestions request store st
    = Ok (existsb suggested (store_units store)) st'
    /\ db_suggestions (db st')
       = (db_suggestions (db st)
          ++ map (suggestion_of request (self st))
                 (filter suggested (store_units store)))%list
    /\ events st'
       = ((if existsb suggested (store_units store)
           then [EvCacheDelete (subproject_pk (subproject (self st)))
                               (lang_code (language (self st))) "suggestions"]
           else []) ++ events st)%list
    /\ same_but_suggestions st st'.
Proof.
  intros request store st.
  unfold merge_suggestions.
  destruct (suggestions_loop request (store_units store) false st)
    as (st1 & Hrun & Hsug & Hev & Hsame).
  erewrite bind_ok; [| exact Hrun]. cbv beta. simpl orb.
  destruct (existsb suggested (store_units store)).
  - unfold invalidate_cache, bind, gets, modify, ret. simpl.
    eexists. split; [reflexivity |]. simpl.
    destruct Hsame as (H1 & H2 & H3 & H4 & H5).
    split; [exact Hsug |]. split; [rewrite Hev, H1; reflexivity |].
    unfold same_but_suggestions. simpl. repeat split; assumption.
  - unfold bind, ret. exists st1.
    split; [reflexivity |]. split; [exact Hsug |]. split; [exact Hev | exact Hsame].
Qed.

(** ** Uploads that cannot be read, and uploads as suggestions *)

Lemma load_upload_cases fileobj st :
  load_upload fileobj st
  = match ttkit_fileobj fileobj None with
    | Some store => Ok store st
    | None =>
        match ttkit_fileobj fileobj (Some (file_format (subproject (self st)))) with
        | Some store => Ok store st
        | None => Raise ValueError st
        end
    end.
Proof.
  unfold load_upload. destruct (ttkit_fileobj fileobj None); [reflexivity |].
  unfold bind, gets.
  destruct (ttkit_fileobj fileobj (Some (file_format (subproject (self st))))); reflexivity.
Qed.

Lemma upload_author_ok request author st :
  exists name,
    match author with
    | None => get_author_name (Some (request_user request)) true
    | Some a => ret a
    end st = Ok name st.
Proof.
  destruct author as [a |]; [exists a; reflexivity |].
  unfold get_author_name. simpl. eexists. reflexivity.
Qed.

Lemma merge_upload_suggests request fileobj overwrite author merge_header method st :
  String.eqb method "" || String.eqb method "fuzzy" = false ->
  merge_upload request fileobj overwrite author merge_header method st
  = match load_upload fileobj st with
    | Ok store st1 => merge_suggestions request store st1
    | Raise e st1 => Raise e st1
    end.
Proof.
  intros Hm. unfold merge_upload, bind at 1. rewrite load_upload_cases.
  destruct (upload_author_ok request author st) as (name & Hn).
  destruct (ttkit_fileobj fileobj None) as [store |].
  - rewrite (bind_ok _ _ _ _ _ Hn). unfold bind, gets. rewrite Hm. reflexivity.
  - destruct (ttkit_fileobj fileobj (Some (file_format (subproject (self st)))))
      as [store |]; [| reflexivity].
    rewrite (bind_ok _ _ _ _ _ Hn). unfold bind, gets. rewrite Hm. reflexivity.
Qed.

(** X17. An upload is parsed first with the format left to detection; if
    that succeeds its result is the store. Only if it fails is the file
    parsed with the format of the subproject, and then that result is the
    store: the merge goes on with it exactly as it would with a detected
    store. When both fail, the parse and with it [merge_upload] raise
    [ValueError] before anything is written, whatever the method. And when
    the method is neither empty nor ["fuzzy"], the upload only makes
    suggestions from the parsed store: the overwrite flag, the author and
    the header flag given by the caller have no influence on the result or
    on the state. *)
Theorem merge_upload_parse_and_suggestion_mode :
  forall (request : Request) (fileobj : string) (method : string) (st : State),
    (forall store, ttkit_fileobj fileobj None = Some store ->
                   load_upload fileobj st = Ok store st)
    /\ (forall store,
          ttkit_fileobj fileobj None = None ->
          ttkit_fileobj fileobj (Some (file_format (subproject (self st)))) = Some store ->
          load_upload fileobj st = Ok store st)
    /\ (ttkit_fileobj fileobj None = None ->
        ttkit_fileobj fileobj (Some (file_format (subproject (self st)))) = None ->
        load_upload fileobj st = Raise ValueError st
        /\ forall overwrite author merge_header,
             merge_upload request fileobj overwrite author merge_header method st
             = Raise ValueError st)
    /\ (String.eqb method "" || String.eqb method "fuzzy" = false ->
        (forall store, load_upload fileobj st = Ok store st ->
           forall overwrite author merge_header,
             merge_upload request fileobj overwrite author merge_header method st
             = merge_suggestions request store st)
        /\ forall overwrite author merge_header overwrite' author' merge_header',
             merge_upload request fileobj overwrite author merge_header method st
             = merge_upload request fileobj overwrite' author' merge_header' method st).
Proof.
  intros request fileobj method st. split; [| split; [| split]].
  - intros store H. rewrite load_upload_cases, H. reflexivity.
  - intros store H1 H2. rewrite load_upload_cases, H1, H2. reflexivity.
  - intros H1 H2. split; [rewrite load_upload_cases, H1, H2; reflexivity |].
    intros overwrite author merge_header. unfold merge_upload, bind at 1.
    rewrite load_upload_cases, H1, H2. reflexivity.
  - intros Hm. split.
    + intros store Hload overwrite author merge_header.
      rewrite (merge_upload_suggests _ _ _ _ _ _ _ Hm), Hload. reflexivity.
    + intros overwrite author merge_header overwrite' author' merge_header'.
      rewrite !(merge_upload_suggests _ _ _ _ _ _ _ Hm). reflexivity.
Qed.

(** ** The cached store *)

(** X18. The store of a translation is read once. A first [get_store]
    reads the file and keeps the result; from then on the answer is the
    kept store and the state does not change, whatever is written to the
    repository in between, so an object that lives across a change of its
    file goes on working with the old content. A file that cannot be read
    raises [IOError] and leaves nothing cached. *)
Theorem get_store_reads_once :
  forall (st : State),
    match get_store st with
    | Ok store st' =>
        loaded_store st = Some store
        /\ _store st' = Some store
        /\ (forall f : Repo -> Repo,
              get_store (with_repo f st') = Ok store (with_repo f st'))
        /\ self st' = self st /\ db st' = db st /\ repo st' = repo st
        /\ clock st' = clock st /\ events st' = events st
    | Raise e st' =>
        e = IOError /\ st' = st /\ _store st = None
        /\ repo_worktree (repo st) (get_filename (self st)) = None
    end.
Proof.
  intros st. destruct (get_store st) as [store st' | e st'] eqn:E.
  - destruct (get_store_inv _ _ _ E) as (Hl & Hc & Hs & Hd & Hr & Hk & He).
    split; [exact Hl |]. split; [exact Hc |].
    split; [| repeat split; assumption].
    intros f. unfold get_store, bind, gets. cbn [_store with_repo]. rewrite Hc. reflexivity.
  - unfold get_store, bind at 1, gets at 1 in E.
    destruct (_store st) as [cached |]; [discriminate E |].
    unfold bind, gets, ttkit_file, modify, ret in E.
    destruct (repo_worktree (repo st) (get_filename (self st))); inversion E; subst.
    repeat split.
Qed.

(** ** The upload view *)

(** X19. What the upload view answers, case by case. A request that fails
    a decorator is sent to the login page and changes nothing. Every other
    request first queries the lock, which changes nothing unless it clears
    a stale lock; then the object changes in its lock fields only and is
    saved, its row rewritten with every field of the object. The request is
    denied exactly when the subproject is locked, somebody else holds a
    live lock, or it is no POST; a denied request and one with an invalid
    form change nothing beyond the lock query. Only a valid, allowed
    request on a translation that is not locked for the user reaches
    [merge_upload], with the overwrite flag and the author the permissions
    let through, and is answered by what the merge returned. An exception
    of the merge is caught and reported with its text; the view itself
    raises in one case only, when that text cannot be made
    ([unicode(e)] raises in the handler). The git lock balance is kept in
    every case. *)
Theorem upload_translation_answers_and_guards :
  forall (request : UploadRequest) (st : State),
    let st1 := exec (is_user_locked_multi (Some (upload_request request))) st in
    lock_balance (events (exec (upload_translation request) st))
    = lock_balance (events st)
    /\ (upload_allowed request = false ->
        upload_translation request st = Ok RedirectToLogin st)
    /\ same_but_lock st st1
    /\ (lock_user (self st) = lock_holder st -> st1 = st)
    /\ (lock_user (self st) <> lock_holder st -> row_saved st st1)
    /\ (upload_allowed request = true ->
        upload_denied request st = true ->
        upload_translation request st
        = Ok (RedirectToTranslation MsgAccessDenied) st1)
    /\ (upload_allowed request = true ->
        upload_denied request st = false ->
        form_is_valid (upload_form (request_user (upload_request request))) request
        = false ->
        upload_translation request st
        = Ok (RedirectToTranslation MsgFormErrors) st1)
    /\ (upload_allowed request = true ->
        upload_denied request st = false ->
        form_is_valid (upload_form (request_user (upload_request request))) request
        = true ->
        upload_translation request st
        = match merge_upload (upload_request request) (upload_file request)
                  (upload_overwrite request) (upload_author request)
                  (post_merge_header request) (post_method request) st1 with
          | Ok true st2 => Ok (RedirectToTranslation MsgMerged) st2
          | Ok false st2 => Ok (RedirectToTranslation MsgNoNewStrings) st2
          | Raise e st2 =>
              match unicode_text e with
              | Some text => Ok (RedirectToTranslation (MsgMergeFailed text)) st2
              | None => Raise UnicodeDecodeError st2
              end
          end).
Proof.
  intros request st st1.
  destruct (is_locked_spec (Some (upload_request request)) st) as (st1' & Hrun & Hst1 & _).
  destruct (is_user_locked_multi_spec (Some (upload_request request)) st)
    as (usr & own & st1'' & Hrun1 & _ & _ & _ & _ & Hsame & Hfix & Hclear).
  assert (Hst1' : st1' = st1) by exact Hst1. subst st1'.
  assert (Hst1'' : st1'' = st1) by (unfold st1, exec; rewrite Hrun1; reflexivity).
  subst st1''.
  assert (Hbal1 : lock_balance (events st1) = lock_balance (events st)).
  { destruct Hsame as (_ & _ & _ & Hev & _). rewrite Hev. reflexivity. }
  set (m := merge_upload (upload_request request) (upload_file request)
              (upload_overwrite request) (upload_author request)
              (post_merge_header request) (post_method request)).
  assert (Hbal : lock_balance (events (exec m st1)) = lock_balance (events st1)).
  { apply (keeps_merge_upload not_git_lock (fun _ => True)
             (fun n st => lock_balance (events st) = n));
      auto using balance_frame, commit_ops_any, lockable_balance.
    intros n st0 s c. simpl. split; intros H; exact H. }
  assert (Hview :
    upload_translation request st
    = if negb (upload_allowed request) then Ok RedirectToLogin st
      else if upload_denied request st
      then Ok (RedirectToTranslation MsgAccessDenied) st1
      else if negb (form_is_valid (upload_form (request_user (upload_request request)))
                      request)
      then Ok (RedirectToTranslation MsgFormErrors) st1
      else match m st1 with
           | Ok true st2 => Ok (RedirectToTranslation MsgMerged) st2
           | Ok false st2 => Ok (RedirectToTranslation MsgNoNewStrings) st2
           | Raise e st2 =>
               match unicode_text e with
               | Some text => Ok (RedirectToTranslation (MsgMergeFailed text)) st2
               | None => Raise UnicodeDecodeError st2
               end
           end).
  { unfold upload_translation, upload_allowed, upload_denied. cbv zeta.
    destruct (is_authenticated (request_user (upload_request request)));
      cbn [negb andb]; cbv iota; [| reflexivity].
    destruct (has_perm (request_user (upload_request request)) "trans.upload_translation");
      cbn [negb andb]; cbv iota; [| reflexivity].
    rewrite (bind_ok _ _ _ _ _ Hrun).
    match goal with |- context [if ?c then ret (RedirectToTranslation MsgAccessDenied) else _] =>
      destruct c end; [reflexivity |].
    destruct (form_is_valid (upload_form (request_user (upload_request request))) request);
      cbn [negb]; cbv iota; [| reflexivity].
    unfold try_except_all, bind. fold m. fold st1.
    destruct (m st1) as [[|] st2 | e st2]; try reflexivity.
    destruct (unicode_text e); reflexivity. }
  split.
  - unfold exec at 1. rewrite Hview. unfold exec in Hbal.
    destruct (negb (upload_allowed request)); [reflexivity |].
    destruct (upload_denied request st); [exact Hbal1 |].
    destruct (negb (form_is_valid _ request)); [exact Hbal1 |].
    destruct (m st1) as [[|] st2 | e st2]; try (rewrite <- Hbal1; exact Hbal).
    destruct (unicode_text e); rewrite <- Hbal1; exact Hbal.
  - split; [intros Ha; rewrite Hview, Ha; reflexivity |].
    split; [exact Hsame |]. split; [exact Hfix |].
    split; [intros H; apply Hclear; exact H |].
    split; [intros Ha Hd; rewrite Hview, Ha, Hd; reflexivity |].
    split; [intros Ha Hd Hv; rewrite Hview, Ha, Hd, Hv; reflexivity |].
    intros Ha Hd Hv. rewrite Hview, Ha, Hd, Hv. reflexivity.
Qed.

(** X20. Posted fields that the user's permissions do not cover have no
    effect. Two uploads by the same user with the same method, file, header
    flag and merge method, which differ at most in an overwrite flag posted
    without the permission to overwrite and in an author posted without the
    permission to name one, and whose forms are both valid or both invalid,
    get the same answer and leave the same state. *)
Theorem upload_ignores_fields_without_permission :
  forall (request request' : UploadRequest) (st : State),
    agree_where_permitted request request' ->
    form_is_valid (upload_form (request_user (upload_request request))) request'
    = form_is_valid (upload_form (request_user (upload_request request))) request ->
    upload_translation request' st = upload_translation request st.
Proof.
  intros request request' st (Hreq & Hm & Hf & Hh & Hmeth & How & Hauth) Hvalid.
  assert (Ho : upload_overwrite request' = upload_overwrite request).
  { unfold upload_overwrite. rewrite Hreq.
    destruct (has_perm (request_user (upload_request request))
                "trans.overwrite_translation"); [apply How; reflexivity | reflexivity]. }
  assert (Ha : upload_author request' = upload_author request).
  { unfold upload_author. rewrite Hreq.
    destruct (has_perm (request_user (upload_request request))
                "trans.author_translation"); [| reflexivity].
    destruct (Hauth eq_refl) as [-> ->]. reflexivity. }
  unfold upload_translation. rewrite Ho, Ha, Hreq, Hm, Hf, Hh, Hmeth, Hvalid.
  reflexivity.
Qed.

(** ** The committer's identity *)

Lemma set_if_needed_config sp name v r sp' key :
  repo_config (set_if_needed sp name v r) sp' key
  = if (sp =? sp') && String.eqb name key then Some v else repo_config r sp' key.
Proof.
  unfold set_if_needed.
  destruct (opt_string_eqb (repo_config r sp name) (Some v)) eqn:E; [| reflexivity].
  destruct (Z.eqb_spec sp sp') as [<- |]; [| reflexivity].
  destruct (String.eqb_spec name key) as [<- |]; [| reflexivity].
  simpl. apply opt_string_eqb_eq in E. exact E.
Qed.

(** X23. Before every commit the committer of the project is made the
    identity of the repository: after [__configure_committer] the keys
    [user.name] and [user.email] of the subproject's repository hold the
    committer name and e-mail of the project, whatever they held; no other
    key and no other repository's configuration is changed, nor are the
    trees, the log or anything outside the repositories. Configuring again
    changes nothing. *)
Theorem configure_committer_sets_identity :
  forall (st : State),
  exists st',
    __configure_committer st = Ok tt st'
    /\ repo_config (repo st') (subproject_pk (subproject (self st))) "user.name"
       = Some (committer_name (project (subproject (self st))))
    /\ repo_config (repo st') (subproject_pk (subproject (self st))) "user.email"
       = Some (committer_email (project (subproject (self st))))
    /\ (forall sp key,
          sp <> subproject_pk (subproject (self st))
          \/ (key <> "user.name" /\ key <> "user.email") ->
          repo_config (repo st') sp key = repo_config (repo st) sp key)
    /\ repo_tree (repo st') = repo_tree (repo st)
    /\ repo_worktree (repo st') = repo_worktree (repo st)
    /\ repo_commits (repo st') = repo_commits (repo st)
    /\ repo_busy (repo st') = repo_busy (repo st)
    /\ self st' = self st /\ _store st' = _store st /\ db st' = db st
    /\ clock st' = clock st /\ events st' = events st
    /\ __configure_committer st' = Ok tt st'.
Proof.
  intros st. rewrite configure_committer_ok. eexists. split; [reflexivity |].
  destruct (configure_repo_frame (self st) (repo st)) as (Ht & Hw & Hc & Hb).
  simpl. unfold configure_repo at 1 2 3.
  split; [| split; [| split]].
  - rewrite !set_if_needed_config, Z.eqb_refl. reflexivity.
  - rewrite !set_if_needed_config, Z.eqb_refl. reflexivity.
  - intros sp key Hother. rewrite !set_if_needed_config.
    destruct (Z.eqb_spec (subproject_pk (subproject (self st))) sp) as [<- | Hsp];
      [| reflexivity].
    destruct Hother as [Hne | [Hname Hemail]]; [contradiction |].
    destruct (String.eqb_spec "user.email" key) as [<- | _]; [contradiction |].
    destruct (String.eqb_spec "user.name" key) as [<- | _]; [contradiction |].
    reflexivity.
  - repeat (split; [assumption || reflexivity |]).
    rewrite configure_committer_ok. unfold with_repo. simpl.
    rewrite configure_repo_idem. reflexivity.
Qed.

(** ** Filter lists *)

Lemma in_offer key label cnt result e :
  In e (offer key label cnt result)
  <-> In e result \/ (0 < cnt /\ e = (key, label, Some cnt)).
Proof.
  unfold offer. destruct (Z.ltb_spec 0 cnt) as [Hpos | Hle].
  - rewrite in_app_iff. simpl. split.
    + intros [H | [H | []]]; [left; exact H | right; split; [exact Hpos | symmetry; exact H]].
    + intros [H | [_ H]]; [left; exact H | right; left; symmetry; exact H].
  - split; [intros H; left; exact H | intros [H | [Hpos _]]; [exact H | lia]].
Qed.

Lemma in_offer_checks flag s d e :
  forall checks result,
    In e (fold_left
            (fun result check =>
               if negb (flag (check_of check)) then result
               else offer check (check_description (check_of check))
                          (count_type check s d) result)
            checks result)
    <-> In e result
        \/ exists check,
             In check checks /\ flag (check_of check) = true
             /\ 0 < count_type check s d
             /\ e = (check, check_description (check_of check),
                     Some (count_type check s d)).
Proof.
  induction checks as [| check checks IH]; intros result; simpl.
  - split; [intros H; left; exact H | intros [H | (c & [] & _)]; exact H].
  - rewrite IH. destruct (flag (check_of check)) eqn:Ef; simpl negb; cbv iota.
    + rewrite in_offer. split.
      * intros [[H | [Hpos He]] | (c & Hin & Hf & Hpos & He)].
        -- left; exact H.
        -- right. exists check. repeat split; auto.
        -- right. exists c. repeat split; auto.
      * intros [H | (c & [<- | Hin] & Hf & Hpos & He)].
        -- left; left; exact H.
        -- left; right. split; assumption.
        -- right. exists c. repeat split; auto.
    + split.
      * intros [H | (c & Hin & Hf & Hpos & He)]; [left; exact H |].
        right. exists c. repeat split; auto.
      * intros [H | (c & [<- | Hin] & Hf & Hpos & He)]; [left; exact H | congruence |].
        right. exists c. repeat split; auto.
Qed.

(** X24. The filter lists never offer an empty filter. Both
    [get_source_checks] and [get_translation_checks] read only, start with
    the filter [all], and hold after it exactly the filters that match at
    least one string, each with its count: of the fixed filters of the
    list, and of the registered checks only those that are source checks
    for the first list and target checks for the second. *)
Theorem filter_lists_offer_what_matches :
  forall (st : State),
    (exists result,
       get_source_checks st = Ok (("all", "All strings", None) :: result) st
       /\ forall e,
            In e result
            <-> offered [("sourcechecks", "Strings with any failing checks");
                         ("sourcecomments", "Strings with comments")]
                        check_source (self st) (db st) e)
    /\ (exists result,
          get_translation_checks st = Ok (("all", "All strings", None) :: result) st
          /\ forall e,
               In e result
               <-> offered [("untranslated", "Untranslated strings");
                            ("fuzzy", "Fuzzy strings");
                            ("suggestions", "Strings with suggestions");
                            ("allchecks", "Strings with any failing checks");
                            ("targetcomments", "Strings with comments")]
                           check_target (self st) (db st) e).
Proof.
  intros st.
  assert (Hhead : forall key label cnt (result : list FilterEntry) e0,
            offer key label cnt (e0 :: result) = e0 :: offer key label cnt result).
  { intros. unfold offer. destruct (0 <? cnt); reflexivity. }
  assert (Hhead2 : forall flag s d checks (result : list FilterEntry) e0,
            fold_left
              (fun result check =>
                 if negb (flag (check_of check)) then result
                 else offer check (check_description (check_of check))
                            (count_type check s d) result)
              checks (e0 :: result)
            = e0 :: fold_left
                      (fun result check =>
                         if negb (flag (check_of check)) then result
                         else offer check (check_description (check_of check))
                                    (count_type check s d) result)
                      checks result).
  { intros flag s d checks. induction checks as [| c checks IH]; intros result e0;
      simpl; [reflexivity |].
    destruct (negb (flag (check_of c))); [apply IH |]. rewrite Hhead. apply IH. }
  split.
  - eexists. split.
    + unfold get_source_checks, bind, gets, ret, offer_checks.
      rewrite !Hhead, Hhead2, Hhead. reflexivity.
    + intros [[key label] cnt]. unfold offered.
      rewrite in_offer, in_offer_checks, in_offer. simpl In. split.
      * intros [[[[] | [Hpos He]] | (c & Hin & Hf & Hpos & He)] | [Hpos He]];
          inversion He; subst; repeat split; auto.
      * intros (-> & Hpos & [[He | [He | []]] | (Hin & Hf & ->)]).
        -- inversion He; subst. left; left; right. split; [exact Hpos | reflexivity].
        -- inversion He; subst. right. split; [exact Hpos | reflexivity].
        -- left; right. exists key. repeat split; auto.
  - eexists. split.
    + unfold get_translation_checks, bind, gets, ret, offer_checks.
      rewrite !Hhead, Hhead2, Hhead. reflexivity.
    + intros [[key label] cnt]. unfold offered.
      rewrite in_offer, in_offer_checks, !in_offer. simpl In. split.
      * intros [[[[[[[] | [Hpos He]] | [Hpos He]] | [Hpos He]] | [Hpos He]]
                 | (c & Hin & Hf & Hpos & He)] | [Hpos He]];
          inversion He; subst; repeat split; auto 10.
      * intros (-> & Hpos & [[He | [He | [He | [He | [He | []]]]]] | (Hin & Hf & ->)]).
        -- inversion He; subst. left; left; left; left; left; right.
           split; [exact Hpos | reflexivity].
        -- inversion He; subst. left; left; left; left; right.
           split; [exact Hpos | reflexivity].
        -- inversion He; subst. left; left; left; right.
           split; [exact Hpos | reflexivity].
        -- inversion He; subst. left; left; right.
           split; [exact Hpos | reflexivity].
        -- inversion He; subst. right. split; [exact Hpos | reflexivity].
        -- left; right. exists key. repeat split; auto.
Qed.

(** ** Editing a unit *)

Lemma keeps_find_pounit I store edit : keeps I (find_pounit store edit).
Proof.
  unfold find_pounit.
  apply keeps_bind; [apply keeps_gets | intros s].
  destruct (has_template (subproject s)).
  - destruct (findid store (edit_context edit)); [apply keeps_ret |].
    apply keeps_bind; [apply keeps_get_template_store | intros [tstore |]];
      [| apply keeps_ret].
    destruct (findid tstore (edit_context edit)); apply keeps_ret.
  - destruct (findunits store (edit_source edit)); apply keeps_ret.
Qed.

Lemma keeps_update_unit ok okr (F : Z -> State -> Prop) edit request :
  (forall n, frame ok okr (F n)) -> commit_ops okr ->
  (forall p s, okr (set_worktree p s)) -> lockable F ->
  ok EvSleep = true -> (forall sp, ok (EvPush sp) = true) ->
  forall n, keeps (F n) (update_unit edit request).
Proof.
  intros HF Hc Hw HL Hsleep Hpush. unfold update_unit.
  apply HL. intros n.
  pose proof (frame_quiet _ _ _ (HF n)) as HQ.
  assert (Hcache : forall c, keeps (F n) (modify (set_store_cache c))).
  { intros c. apply keeps_modify. intros st H. apply HQ, H. }
  apply keeps_bind; [apply keeps_get_store, HQ | intros store].
  apply keeps_bind; [apply keeps_find_pounit | intros [l |]]; [| apply keeps_ret].
  destruct (edit_changes edit (located_unit l)); [| apply keeps_ret].
  apply keeps_bind; [apply Hcache | intros _].
  apply keeps_bind; [apply keeps_get_author_name | intros author].
  apply keeps_bind; [apply keeps_gets | intros s].
  apply keeps_bind; [apply keeps_gets | intros now].
  apply keeps_bind; [apply Hcache | intros _].
  apply keeps_bind; [apply (keeps_commit_pending ok okr F); assumption | intros _].
  apply keeps_bind; [apply (keeps_store_save ok okr); [apply HF | exact Hw] | intros _].
  apply keeps_bind; [apply keeps_gets | intros now'].
  apply keeps_bind; [apply (keeps_git_commit ok okr F); assumption | intros _].
  apply keeps_ret.
Qed.

Lemma find_pounit_inv store edit st found st' :
  find_pounit store edit st = Ok found st' -> st' = st.
Proof.
  unfold find_pounit, bind at 1, gets at 1.
  destruct (has_template (subproject (self st))).
  - destruct (findid store (edit_context edit)); [intros H; inversion H; reflexivity |].
    unfold bind. destruct (get_template_store st) as [tstore st1 | e st1] eqn:Et;
      [| discriminate].
    apply get_template_store_self in Et. subst st1.
    destruct tstore as [tstore |]; [| intros H; inversion H; reflexivity].
    destruct (findid tstore (edit_context edit)); intros H; inversion H; reflexivity.
  - destruct (findunits store (edit_source edit)); intros H; inversion H; reflexivity.
Qed.

(** X25. An edit that changes nothing writes nothing. [update_unit] gives
    the git lock back whatever happens. When it answers that nothing
    needed saving, either it found no unit of the file for the edit, or the
    unit it found already has the target text and fuzzy state of the edit;
    the repositories, the database, the object and the clock are then as
    before, and the effect log shows the git lock taken and released and
    nothing else. *)
Theorem update_unit_without_change_writes_nothing :
  forall (edit : UnitEdit) (request : Request) (st : State),
    lock_balance (events (exec (update_unit edit request) st))
    = lock_balance (events st)
    /\ forall found st',
         update_unit edit request st = Ok (false, found) st' ->
         repo st' = repo st /\ db st' = db st /\ self st' = self st
         /\ clock st' = clock st
         /\ events st'
            = EvGitLockRelease (subproject_pk (subproject (self st)))
              :: EvGitLockAcquire (subproject_pk (subproject (self st)))
              :: events st
         /\ (forall pounit, found = Some pounit ->
               tu_target pounit = edit_target edit
               /\ tu_fuzzy pounit = edit_fuzzy edit).
Proof.
  intros edit request st. split.
  - apply (keeps_update_unit not_git_lock (fun _ => True)
             (fun n st => lock_balance (events st) = n));
      auto using balance_frame, commit_ops_any, lockable_balance.
  - intros found st' H. unfold update_unit, with_git_lock in H.
    apply bind_ok_inv in H. destruct H as (s & st0 & Hs & H).
    inversion Hs; subst s st0; clear Hs.
    apply bind_ok_inv in H. destruct H as ([] & st1 & Hacq & H).
    inversion Hacq; subst st1; clear Hacq.
    apply finally_ok_inv in H. destruct H as (st9 & H & ->).
    apply bind_ok_inv in H. destruct H as (store & st2 & Hget & H).
    apply bind_ok_inv in H. destruct H as (l & st3 & Hfind & H).
    apply find_pounit_inv in Hfind. subst st3.
    destruct (get_store_inv _ _ _ Hget) as (_ & _ & Hself & Hdb & Hrepo & Hclock & Hev).
    simpl in Hself, Hdb, Hrepo, Hclock, Hev.
    assert (Hdone : forall r, ret (A := bool * option StoreUnit) r st2 = Ok (false, found) st9 ->
              r = (false, found) /\ st9 = st2).
    { intros r Hr. inversion Hr. split; reflexivity. }
    destruct l as [l |].
    + destruct (edit_changes edit (located_unit l)) eqn:Ech.
      * exfalso.
        repeat (apply bind_ok_inv in H; destruct H as (? & ? & _ & H)).
        inversion H.
      * destruct (Hdone _ H) as (Hr & ->). inversion Hr; subst found.
        simpl. repeat split; try assumption.
        -- rewrite Hev. reflexivity.
        -- inversion H0; subst pounit. unfold edit_changes in Ech.
           apply Bool.orb_false_iff in Ech. destruct Ech as [Ht _].
           apply Bool.negb_false_iff, String.eqb_eq in Ht. symmetry. exact Ht.
        -- inversion H0; subst pounit. unfold edit_changes in Ech.
           apply Bool.orb_false_iff in Ech. destruct Ech as [_ Hf].
           apply Bool.negb_false_iff, Bool.eqb_prop in Hf. symmetry. exact Hf.
    + destruct (Hdone _ H) as (Hr & ->). inversion Hr; subst found.
      simpl. repeat split; try assumption; try discriminate.
      rewrite Hev. reflexivity.
Qed.





End Weblate.

(* ================================================================== *)
(** * The general statements at work *)
(* ================================================================== *)

(** C1. Lock extension is not monotone for explicit locks. With the default
    settings Alice locks the German translation explicitly at time 0, which
    sets the expiry to 900; her touch at time 10, well before expiry, goes
    through [update_lock_time()] with the default [is_new=True] and moves
    the expiry back to 70. *)
Theorem touch_shortens_explicit_lock :
  exists st1 st2,
    create_lock default_settings (Some alice) true fresh_state = Ok tt st1
    /\ lock_time (self st1) = 900
    /\ touch_at default_settings {| request_user := alice |} 10 st1 = Ok tt st2
    /\ lock_user (self st2) = Some alice
    /\ lock_time (self st2) = 70
    /\ lock_time (self st2) < lock_time (self st1).
Proof.
  eexists; eexists.
  split; [lazy; reflexivity |].
  split; [reflexivity |].
  split; [lazy; reflexivity |].
  split; [reflexivity |].
  split; [reflexivity |].
  reflexivity.
Qed.

Lemma demo_recheck_is_local : rechecks_local demo_unit_check.
Proof.
  intros u rows c Hne. unfold demo_unit_check.
  induction rows as [| r rows IH]; simpl; [reflexivity |].
  destruct (String.eqb (dep_checksum r) (unit_checksum u)) eqn:E; simpl.
  - apply String.eqb_eq in E.
    assert (Hc : String.eqb (dep_checksum r) c = false) by (rewrite E; exact Hne).
    destruct (String.eqb (dep_payload r) "inconsistent"); simpl; rewrite ?Hc; exact IH.
  - destruct (String.eqb (dep_checksum r) c); rewrite IH; reflexivity.
Qed.

(** One translated string of three is 33.3 percent, an empty translation
    is at the integer 0, and a count of 2^63 is not wrapped: of a total of
    one it is 922337203685477580800 percent. *)
Lemma percent_accessors_at_work :
  get_translated_percent (with_self (set_counts 3 0 1) fresh_state)
    = Ok (PyFloat 0x1.0a66666666666p+5%float) (with_self (set_counts 3 0 1) fresh_state)
  /\ get_fuzzy_percent fresh_state = Ok (PyInt 0) fresh_state
  /\ get_fuzzy_percent (with_self (set_counts 1 (2 ^ 63) 0) fresh_state)
     = Ok (PyFloat 0x1.9p+69%float) (with_self (set_counts 1 (2 ^ 63) 0) fresh_state)
  /\ float_of_Z 922337203685477580800 = 0x1.9p+69%float.
Proof.
  assert (Hrange : forall z, (Z.abs z <? 2 ^ 1024 - 2 ^ 970) = true -> float_range z).
  { intros z H. apply Z.ltb_lt. exact H. }
  destruct (percent_accessors_guard_empty_translation demo_count_type
              (with_self (set_counts 3 0 1) fresh_state) "same")
    as (_ & Hsome & _); try (apply Hrange; vm_compute; reflexivity).
  destruct (percent_accessors_guard_empty_translation demo_count_type
              fresh_state "same")
    as (Hzero & _ & _); try (apply Hrange; vm_compute; reflexivity).
  destruct (percent_accessors_guard_empty_translation demo_count_type
              (with_self (set_counts 1 (2 ^ 63) 0) fresh_state) "same")
    as (_ & Hbig & _); try (apply Hrange; vm_compute; reflexivity).
  split; [| split; [| split]].
  - destruct Hsome as (_ & Ht & _); [vm_compute; discriminate |].
    rewrite Ht. vm_compute. reflexivity.
  - destruct Hzero as (Hf & _); [reflexivity | exact Hf].
  - destruct Hbig as (Hf & _); [vm_compute; discriminate |].
    rewrite Hf. vm_compute. reflexivity.
  - vm_compute. reflexivity.
Defined.

(** Bob's edit waits in the working tree while lazy commits are on; Alice's
    forced commit is what commits the file, once. *)
Lemma git_commit_gating_at_work :
  git_commit default_settings demo_hexsha bob_name (Some 100) false true false
    (edited_state []) = Ok false (edited_state [])
  /\ exists st', git_commit default_settings demo_hexsha alice_name (Some 100)
                   true true false (edited_state []) = Ok true st'
                 /\ List.length (repo_commits (repo st')) = 1%nat.
Proof.
  destruct (git_commit_gating default_settings demo_hexsha bob_name 100 false true false
              (edited_state [])) as (Hdefer & _).
  destruct (git_commit_gating default_settings demo_hexsha alice_name 100 true true false
              (edited_state [])) as (_ & _ & Hforce & _).
  split; [apply Hdefer; vm_compute; reflexivity |].
  destruct Hforce as (Hone & Hret); [vm_compute; reflexivity |].
  destruct Hret as (st' & Hrun).
  - intros rest H; discriminate H.
  - intros _. split.
    + eexists; vm_compute; reflexivity.
    + intros H; vm_compute in H; discriminate H.
  - exists st'. split; [exact Hrun |].
    destruct (Hone true st' Hrun) as (_ & Hlog & _). rewrite Hlog. reflexivity.
Defined.

(** Git refuses Alice's commit once: the retry makes it. *)
Lemma git_commit_retries_once_at_work :
  exists st1 st2,
    git_commit default_settings demo_hexsha alice_name (Some 100) true true false
      (with_repo (set_busy []) (edited_state [true])) = Ok true st1
    /\ git_commit default_settings demo_hexsha alice_name (Some 100) true true false
         (edited_state [true]) = Ok true st2
    /\ same_but_slept st1 st2.
Proof.
  pose (st1 := exec (git_commit default_settings demo_hexsha alice_name (Some 100)
                       true true false)
                    (with_repo (set_busy []) (edited_state [true]))).
  assert (H1 : git_commit default_settings demo_hexsha alice_name (Some 100)
                 true true false (with_repo (set_busy []) (edited_state [true]))
               = Ok true st1).
  { vm_compute. reflexivity. }
  destruct (git_commit_retries_once default_settings demo_hexsha alice_name 100
              true true false (edited_state [true]) []) as (Hretry & _).
  - vm_compute. reflexivity.
  - reflexivity.
  - destruct (Hretry eq_refl true st1 H1) as (st2 & H2 & _ & Hrel & _).
    exists st1, st2. split; [exact H1 |]. split; [exact H2 | exact Hrel].
Defined.


(** The German file lost a string; the first reconcile processes it, the
    second finds the stored revision current and does nothing. *)
Lemma update_from_blob_idempotent_at_work :
  exists st1,
    update_from_blob demo_hexsha demo_is_translatable demo_update_from_unit
      demo_unit_check demo_subscribers false None shrunk_state = Ok tt st1
    /\ st1 <> shrunk_state
    /\ update_from_blob demo_hexsha demo_is_translatable demo_update_from_unit
         demo_unit_check demo_subscribers false None st1 = Ok tt st1.
Proof.
  pose (st1 := exec (update_from_blob demo_hexsha demo_is_translatable
                       demo_update_from_unit demo_unit_check demo_subscribers
                       false None) shrunk_state).
  assert (H1 : update_from_blob demo_hexsha demo_is_translatable demo_update_from_unit
                 demo_unit_check demo_subscribers false None shrunk_state = Ok tt st1).
  { vm_compute. reflexivity. }
  exists st1. split; [exact H1 |]. split.
  - intros H. apply (f_equal (fun s => revision (self s))) in H.
    vm_compute in H. discriminate H.
  - apply (update_from_blob_idempotent demo_hexsha demo_is_translatable
             demo_update_from_unit demo_unit_check demo_subscribers
             false None None shrunk_state st1 H1).
Defined.

(** The German greeting is deleted while the French one stays: the German
    rows go, the source-level ones stay. *)
Lemma cleanup_rule_by_language_at_work :
  In "Hello|" (deleted_checksums [1] (edited_state []))
  /\ exists st',
       delete_unused demo_unit_check [1] (edited_state []) = Ok tt st'
       /\ language_refs hello_de "Hello|" (db st') = false
       /\ project_refs hello_de "Hello|" (db st') = true
       /\ rows_for hello_project (Some german) "Hello|" (db_suggestions (db st')) = []
       /\ rows_for hello_project (Some german) "Hello|" (db_comments (db st')) = []
       /\ rows_for hello_project None "Hello|" (db_comments (db st'))
          = [hello_row None "context?"].
Proof.
  assert (Hin : In "Hello|" (deleted_checksums [1] (edited_state []))).
  { vm_compute. left. reflexivity. }
  split; [exact Hin |].
  destruct (cleanup_rule_by_language demo_unit_check [1] (edited_state []) "Hello|" Hin)
    as (st' & Hrun & _ & Hs & Hc & Hn & _).
  assert (Hst : st' = exec (delete_unused demo_unit_check [1]) (edited_state [])).
  { unfold exec. rewrite Hrun. reflexivity. }
  assert (Hl : language_refs hello_de "Hello|" (db st') = false).
  { rewrite Hst. vm_compute. reflexivity. }
  assert (Hp : project_refs hello_de "Hello|" (db st') = true).
  { rewrite Hst. vm_compute. reflexivity. }
  exists st'. split; [exact Hrun |]. split; [exact Hl |]. split; [exact Hp |].
  change (self (edited_state [])) with hello_de in Hs, Hc, Hn.
  rewrite Hl in Hs, Hc. rewrite Hp in Hn.
  split; [exact Hs |]. split; [exact Hc |].
  etransitivity; [exact Hn |]. vm_compute. reflexivity.
Defined.

(** C2, as stated, fails. The claim has the language-scoped rows deleted
    exactly when no unit of the project, in any language, has the checksum.
    Here the German unit of the greeting is deleted and the French unit of
    the same project still has the checksum, yet the German suggestion is
    deleted. *)
Lemma cleanup_ignores_other_languages :
  rows_for hello_project (Some german) "Hello|"
    (db_suggestions (db (edited_state []))) = [hello_row (Some german) "Servus"]
  /\ rows_for hello_project (Some german) "Hello|"
       (db_suggestions (db (exec (delete_unused demo_unit_check [1]) (edited_state []))))
     = []
  /\ spec_language_rows_deleted hello_de "Hello|"
       (db (exec (delete_unused demo_unit_check [1]) (edited_state []))) = false
  /\ ~ (rows_for hello_project (Some german) "Hello|"
          (db_suggestions (db (exec (delete_unused demo_unit_check [1])
                                    (edited_state [])))) = []
        <-> spec_language_rows_deleted hello_de "Hello|"
              (db (exec (delete_unused demo_unit_check [1]) (edited_state []))) = true).
Proof.
  split; [vm_compute; reflexivity |].
  split; [vm_compute; reflexivity |].
  split; [vm_compute; reflexivity |].
  intros [H _].
  assert (Hgone : rows_for hello_project (Some german) "Hello|"
            (db_suggestions (db (exec (delete_unused demo_unit_check [1])
                                      (edited_state [])))) = []).
  { vm_compute. reflexivity. }
  specialize (H Hgone). vm_compute in H. discriminate H.
Qed.

(** The reconcile of the German file that lost its greeting: the indexing
    phase leaves the id of the German greeting over, the deletion takes the
    unit out, and with the French unit still there the German rows under
    the greeting's checksum are gone while the source-level rows are all
    still in place. *)
Lemma reconcile_cleans_last_referent_at_work :
  exists st' st_mid,
    resync demo_hexsha demo_is_translatable demo_update_from_unit demo_unit_check
      demo_subscribers None shrunk_state = Ok tt st'
    /\ index_phase demo_is_translatable demo_update_from_unit shrunk_state
       = Ok (true, 2, [1]) st_mid
    /\ deleted_checksums [1] st_mid = ["Hello|"]
    /\ map unit_id (db_units (db st_mid)) = [1; 2; 3]
    /\ map unit_id (db_units (db st')) = [2; 3]
    /\ rows_for hello_project (Some german) "Hello|" (db_checks (db st_mid))
       = [hello_row (Some german) "same"]
    /\ rows_for hello_project (Some german) "Hello|" (db_checks (db st')) = []
    /\ rows_for hello_project (Some german) "Hello|" (db_suggestions (db st')) = []
    /\ rows_for hello_project (Some german) "Hello|" (db_comments (db st')) = []
    /\ rows_for hello_project None "Hello|" (db_comments (db st'))
       = [hello_row None "context?"]
    /\ rows_for hello_project None "Hello|" (db_checks (db st'))
       = [hello_row None "plurals"].
Proof.
  pose (st' := exec (resync demo_hexsha demo_is_translatable demo_update_from_unit
                       demo_unit_check demo_subscribers None) shrunk_state).
  pose (st_i := exec (index_phase demo_is_translatable demo_update_from_unit)
                  shrunk_state).
  assert (Hrun : resync demo_hexsha demo_is_translatable demo_update_from_unit
                   demo_unit_check demo_subscribers None shrunk_state = Ok tt st').
  { vm_compute. reflexivity. }
  assert (Hindex : index_phase demo_is_translatable demo_update_from_unit shrunk_state
                   = Ok (true, 2, [1]) st_i).
  { vm_compute. reflexivity. }
  destruct (reconcile_cleans_last_referent demo_hexsha demo_is_translatable
              demo_update_from_unit demo_unit_check demo_subscribers
              None shrunk_state st' demo_recheck_is_local Hrun)
    as (was_new & pos & oldunits & st_mid & st_del
        & Hphase & _ & _ & _ & _ & _ & Hrule).
  rewrite Hindex in Hphase.
  injection Hphase as Hw Hp Ho Hs. subst was_new pos oldunits st_mid.
  destruct (Hrule "Hello|") as ((Hck & Hsg & Hcm) & Hsrc).
  { vm_compute. left. reflexivity. }
  { vm_compute. reflexivity. }
  destruct (Hsrc {| unit_id := 2; unit_translation := hello_fr;
                    unit_checksum := "Hello|"; unit_position := 1;
                    unit_translated := true; unit_fuzzy := false |})
    as (Hsrc_cm & Hsrc_ck).
  { vm_compute. left. reflexivity. }
  { vm_compute. reflexivity. }
  { vm_compute. reflexivity. }
  exists st', st_i.
  split; [exact Hrun |]. split; [exact Hindex |].
  split; [vm_compute; reflexivity |].
  split; [vm_compute; reflexivity |].
  split; [vm_compute; reflexivity |].
  split; [vm_compute; reflexivity |].
  split; [exact Hck |]. split; [exact Hsg |]. split; [exact Hcm |].
  split.
  - change (project (subproject (self shrunk_state))) with hello_project in Hsrc_cm.
    rewrite Hsrc_cm. vm_compute. reflexivity.
  - change (project (subproject (self shrunk_state))) with hello_project in Hsrc_ck.
    rewrite Hsrc_ck. vm_compute. reflexivity.
Defined.

(** An uploaded greeting meets a translated one: kept without overwrite,
    replaced with it, and marked fuzzy on request. *)
Lemma merge_unit_overwrite_policy_at_work :
  merge_unit demo_istranslated demo_mergeheaders upload_store false true false
    de_store (hello_unit "Servus" false "uploaded") = de_store
  /\ exists merged,
       nth_error (store_units
                    (merge_unit demo_istranslated demo_mergeheaders upload_store
                       true true true de_store (hello_unit "Servus" false "uploaded")))
                 0 = Some merged
       /\ tu_target merged = "Servus"
       /\ tu_fuzzy merged = true
       /\ tu_comments merged = ["greeting"].
Proof.
  destruct (merge_unit_overwrite_policy demo_istranslated demo_mergeheaders upload_store
              false true false de_store (hello_unit "Servus" false "uploaded")
              (hello_unit "Hallo" false "greeting") 0
              eq_refl eq_refl eq_refl eq_refl eq_refl) as (Hkeep & _ & _).
  destruct (merge_unit_overwrite_policy demo_istranslated demo_mergeheaders upload_store
              true true true de_store (hello_unit "Servus" false "uploaded")
              (hello_unit "Hallo" false "greeting") 0
              eq_refl eq_refl eq_refl eq_refl eq_refl) as (_ & Hover & _).
  split; [exact (Hkeep eq_refl) |].
  destruct (Hover eq_refl) as (merged & Hm & Ht & Hf & Hc & _).
  exists merged. repeat split; assumption.
Defined.

(** An upload without a method on the German translation of the main
    component is merged into the German files of the main component and of
    the documentation, each committed on its own, and not into the web
    site's, which takes no part in the propagation; the object the request
    was made on is as it was. An upload with method "suggest" goes to
    [merge_suggestions] alone. *)
Lemma merge_upload_dispatch_at_work :
  load_upload demo_ttkit "upload.po" components_state = Ok upload_store components_state
  /\ map pk (upload_targets hello_de (db components_state)) = [1; 3]
  /\ (exists st',
        merge_upload default_settings demo_hexsha demo_checksum demo_istranslated
          demo_is_translatable demo_update_from_unit demo_unit_check demo_ttkit
          demo_mergeheaders demo_is_content demo_subscribers ["same"; "inconsistent"]
          {| request_user := alice |} "upload.po" false None true "" components_state
        = Ok true st'
        /\ repo_worktree (repo st') (1, "po/de.po")
           = Some {| store_units := [hello_unit "Hallo" false "greeting";
                                     bye_unit "Servus"];
                     store_poheader := true |}
        /\ repo_worktree (repo st') (2, "po/de.po")
           = Some {| store_units := [bye_unit "Servus"]; store_poheader := true |}
        /\ repo_worktree (repo st') (3, "po/de.po") = Some bye_store
        /\ map commit_path (repo_commits (repo st')) = [(2, "po/de.po"); (1, "po/de.po")]
        /\ map commit_author (repo_commits (repo st')) = [alice_name; alice_name]
        /\ map revision (db_translations (db st'))
           = ["hello=Hallo;bye=Servus;"; ""; "bye=Servus;"; ""]
        /\ self st' = hello_de)
  /\ merge_upload default_settings demo_hexsha demo_checksum demo_istranslated
       demo_is_translatable demo_update_from_unit demo_unit_check demo_ttkit
       demo_mergeheaders demo_is_content demo_subscribers ["same"; "inconsistent"]
       {| request_user := alice |} "upload.po" false None true "suggest" (edited_state [])
     = merge_suggestions demo_checksum demo_istranslated ["same"; "inconsistent"]
         {| request_user := alice |} upload_store (edited_state []).
Proof.
  assert (Hload : load_upload demo_ttkit "upload.po" components_state
                  = Ok upload_store components_state).
  { reflexivity. }
  assert (Hload' : load_upload demo_ttkit "upload.po" (edited_state [])
                   = Ok upload_store (edited_state [])).
  { reflexivity. }
  split; [exact Hload |].
  split; [vm_compute; reflexivity |].
  destruct (merge_upload_dispatch default_settings demo_hexsha demo_checksum
              demo_istranslated demo_is_translatable demo_update_from_unit
              demo_unit_check demo_ttkit demo_mergeheaders demo_is_content
              demo_subscribers ["same"; "inconsistent"]
              {| request_user := alice |} "upload.po" false None true ""
              components_state upload_store Hload) as (_ & Hmerge & _).
  destruct (merge_upload_dispatch default_settings demo_hexsha demo_checksum
              demo_istranslated demo_is_translatable demo_update_from_unit
              demo_unit_check demo_ttkit demo_mergeheaders demo_is_content
              demo_subscribers ["same"; "inconsistent"]
              {| request_user := alice |} "upload.po" false None true "suggest"
              (edited_state []) upload_store Hload') as (_ & _ & Hother).
  split.
  - destruct Hmerge as (Hall & _); [left; reflexivity |].
    pose (st' := exec (spec_merge_all default_settings demo_hexsha demo_istranslated
                         demo_is_translatable demo_update_from_unit demo_unit_check
                         demo_mergeheaders demo_is_content demo_subscribers
                         (upload_targets hello_de (db components_state))
                         alice_name upload_store false true false) components_state).
    exists st'. split.
    + rewrite Hall. vm_compute. reflexivity.
    + vm_compute. repeat split.
  - apply Hother; intros H; discriminate H.
Defined.

(** The reconcile of the German file that lost its greeting leaves one unit,
    the untranslated farewell, and the statistics say so. *)
Lemma resync_statistics_consistent_at_work :
  exists st',
    resync demo_hexsha demo_is_translatable demo_update_from_unit demo_unit_check
      demo_subscribers None shrunk_state = Ok tt st'
    /\ total (self st') = 1 /\ translated (self st') = 0
    /\ total (self st') = Z.of_nat (List.length (unit_set (self st') (db st')))
    /\ In (self st') (db_translations (db st')).
Proof.
  pose (st' := exec (resync demo_hexsha demo_is_translatable demo_update_from_unit
                       demo_unit_check demo_subscribers None) shrunk_state).
  assert (Hrun : resync demo_hexsha demo_is_translatable demo_update_from_unit
                   demo_unit_check demo_subscribers None shrunk_state = Ok tt st').
  { vm_compute. reflexivity. }
  exists st'. split; [exact Hrun |].
  split; [vm_compute; reflexivity |]. split; [vm_compute; reflexivity |].
  destruct (resync_statistics_consistent demo_hexsha demo_is_translatable
              demo_update_from_unit demo_unit_check demo_subscribers
              None shrunk_state st' Hrun) as (Htotal & _ & _ & _ & _ & Hin & _).
  split; [exact Htotal | exact Hin].
Defined.

(** Alice asks for the same reconcile at time 100: the audit trail starts
    with her update. *)
Lemma resync_records_update_at_work :
  exists st' older,
    resync demo_hexsha demo_is_translatable demo_update_from_unit demo_unit_check
      demo_subscribers (Some {| request_user := alice |}) shrunk_state = Ok tt st'
    /\ db_changes (db st')
       = {| change_translation := 1; change_action := ACTION_UPDATE;
            change_user := Some alice; change_timestamp := 100 |} :: older.
Proof.
  pose (st' := exec (resync demo_hexsha demo_is_translatable demo_update_from_unit
                       demo_unit_check demo_subscribers
                       (Some {| request_user := alice |})) shrunk_state).
  assert (Hrun : resync demo_hexsha demo_is_translatable demo_update_from_unit
                   demo_unit_check demo_subscribers
                   (Some {| request_user := alice |}) shrunk_state = Ok tt st').
  { vm_compute. reflexivity. }
  destruct (resync_records_update demo_hexsha demo_is_translatable
              demo_update_from_unit demo_unit_check demo_subscribers
              (Some {| request_user := alice |}) shrunk_state st' Hrun) as (older & Hch).
  exists st', older. split; [exact Hrun | exact Hch].
Defined.

(** The farewell is new to the German index and has no translation: the
    subscriber is told, and what the index reported is the farewell, first
    unit of the file, at position 1 and on the database of the start. *)
Lemma notification_needs_new_untranslated_unit_at_work :
  events (exec (update_from_blob demo_hexsha demo_is_translatable demo_update_from_unit
                  demo_unit_check demo_subscribers false None) shrunk_state)
  = [EvNotifyNewString 7 1]
  /\ reports_new_untranslated
       (demo_update_from_unit hello_de (Some (bye_unit "")) 1 None indexed_db).
Proof.
  split; [vm_compute; reflexivity |].
  destruct (notification_needs_new_untranslated_unit demo_hexsha demo_is_translatable
              demo_update_from_unit demo_unit_check demo_subscribers false None
              shrunk_state)
    as (store & tstore & st1 & pre & x & post & was_new & pos & old & st_i
        & Hstore & Htpl & Hxs & Hpick & Hpre & Hrep).
  { vm_compute. intros H. discriminate H. }
  vm_compute in Hstore. injection Hstore as <- <-.
  vm_compute in Htpl. injection Htpl as <-.
  change ([bye_unit ""] = (pre ++ x :: post)%list) in Hxs.
  destruct pre as [| y pre].
  - injection Hxs as <- _.
    vm_compute in Hpre. injection Hpre as _ <- _ <-.
    exact Hrep.
  - injection Hxs as _ Hxs. destruct pre; discriminate Hxs.
Defined.

(** A translation whose file is not in HEAD, and one whose file is in HEAD
    but has gone from disk: the first reconcile stops with [KeyError], the
    second with [IOError], and neither changes anything. *)
Lemma update_from_blob_fails_before_writing_at_work :
  update_from_blob demo_hexsha demo_is_translatable demo_update_from_unit
    demo_unit_check demo_subscribers false None fresh_state
  = Raise KeyError fresh_state
  /\ update_from_blob demo_hexsha demo_is_translatable demo_update_from_unit
       demo_unit_check demo_subscribers false None
       (with_repo (fun r => set_busy [] {| repo_tree := repo_tree r;
                                           repo_worktree := fun _ => None;
                                           repo_config := repo_config r;
                                           repo_commits := repo_commits r;
                                           repo_busy := repo_busy r |}) shrunk_state)
     = Raise IOError
         (with_repo (fun r => set_busy [] {| repo_tree := repo_tree r;
                                             repo_worktree := fun _ => None;
                                             repo_config := repo_config r;
                                             repo_commits := repo_commits r;
                                             repo_busy := repo_busy r |}) shrunk_state).
Proof.
  split.
  - apply (update_from_blob_fails_before_writing demo_hexsha demo_is_translatable
             demo_update_from_unit demo_unit_check demo_subscribers false None fresh_state).
    reflexivity.
  - apply (update_from_blob_fails_before_writing demo_hexsha demo_is_translatable
             demo_update_from_unit demo_unit_check demo_subscribers false None
             (with_repo (fun r => set_busy [] {| repo_tree := repo_tree r;
                                                 repo_worktree := fun _ => None;
                                                 repo_config := repo_config r;
                                                 repo_commits := repo_commits r;
                                                 repo_busy := repo_busy r |}) shrunk_state))
      with (h := "bye=;").
    + vm_compute. reflexivity.
    + right. vm_compute. intros H. discriminate H.
    + reflexivity.
    + reflexivity.
Defined.


(* ================================================================== *)
(** * Properties of the registry of checks *)
(* ================================================================== *)

Lemma rfind_absent c s pos : occurs c s = false -> rfind_from c s pos = -1.
Proof.
  revert pos. induction s as [| a s IH]; intros pos H; simpl in *; [reflexivity |].
  apply Bool.orb_false_iff in H. destruct H as [Ha Hs].
  rewrite (IH (pos + 1) Hs), Ha. reflexivity.
Qed.

Lemma rfind_last c (m a : string) pos :
  0 <= pos -> occurs c a = false ->
  rfind_from c (m ++ String c a) pos = pos + Z.of_nat (String.length m).
Proof.
  revert pos. induction m as [| x m IH]; intros pos Hpos Ha.
  - simpl. rewrite (rfind_absent c a (pos + 1) Ha). simpl.
    rewrite Ascii.eqb_refl. lia.
  - simpl String.append. simpl rfind_from. rewrite (IH (pos + 1)) by (lia || exact Ha).
    destruct (Z.leb_spec 0 (pos + 1 + Z.of_nat (String.length m))) as [_ | Hneg]; [| lia].
    simpl String.length. lia.
Qed.

Lemma substring_all (s : string) : substring 0 (String.length s) s = s.
Proof. induction s as [| a s IH]; simpl; [reflexivity | rewrite IH; reflexivity]. Qed.

Lemma substring_prefix (m r : string) : substring 0 (String.length m) (m ++ r) = m.
Proof.
  induction m as [| a m IH]; simpl.
  - destruct r; reflexivity.
  - rewrite IH. reflexivity.
Qed.

Lemma substring_suffix (m r : string) :
  substring (String.length m) (String.length r) (m ++ r) = r.
Proof.
  induction m as [| a m IH]; simpl; [apply substring_all | exact IH].
Qed.

Lemma length_append (m r : string) :
  String.length (m ++ r) = (String.length m + String.length r)%nat.
Proof. induction m as [| a m IH]; simpl; [reflexivity | rewrite IH; reflexivity]. Qed.

(** X21. A dotted path is split at its last dot: for a module name and an
    attribute name without a dot, the path [module.attr] gives back
    exactly the two. A path without any dot is not rejected: [rfind]
    answers -1, so the module is the path without its last character and
    the attribute is the whole path. *)
Theorem split_path_at_last_dot :
  (forall module attr : string,
     occurs "."%char attr = false ->
     split_path (module ++ String "."%char attr) = (module, attr))
  /\ (forall path : string,
        occurs "."%char path = false ->
        split_path path = (substring 0 (String.length path - 1) path, path)).
Proof.
  split.
  - intros module attr Hattr. unfold split_path, rfind.
    rewrite (rfind_last _ module attr 0) by (lia || exact Hattr).
    unfold slice_to, slice_from, slice_index.
    rewrite length_append. simpl String.length.
    destruct (Z.ltb_spec (0 + Z.of_nat (String.length module)) 0) as [Hneg | _]; [lia |].
    destruct (Z.ltb_spec (0 + Z.of_nat (String.length module) + 1) 0) as [Hneg | _]; [lia |].
    replace (Z.to_nat (Z.max 0 (Z.min (Z.of_nat (String.length module + S (String.length attr)))
                                      (0 + Z.of_nat (String.length module)))))
      with (String.length module) by lia.
    replace (Z.to_nat (Z.max 0 (Z.min (Z.of_nat (String.length module + S (String.length attr)))
                                      (0 + Z.of_nat (String.length module) + 1))))
      with (String.length (module ++ ".")) by (rewrite length_append; simpl; lia).
    rewrite substring_prefix.
    replace (String.length module + S (String.length attr) - String.length (module ++ "."))%nat
      with (String.length attr) by (rewrite length_append; simpl; lia).
    replace (module ++ String "."%char attr)%string with ((module ++ ".") ++ attr)%string.
    + rewrite substring_suffix. reflexivity.
    + clear. induction module as [| a m IH]; simpl; [reflexivity | rewrite IH; reflexivity].
  - intros path Hpath. unfold split_path, rfind.
    rewrite (rfind_absent _ path 0 Hpath).
    unfold slice_to, slice_from, slice_index.
    change (-1 + 1) with 0. change (-1 <? 0) with true. change (0 <? 0) with false.
    cbv iota.
    replace (Z.to_nat (Z.max 0 (Z.min (Z.of_nat (String.length path))
                                      (Z.of_nat (String.length path) + -1))))
      with (String.length path - 1)%nat by lia.
    replace (Z.to_nat (Z.max 0 (Z.min (Z.of_nat (String.length path)) 0)))
      with 0%nat by lia.
    rewrite Nat.sub_0_r, substring_all. reflexivity.
Qed.

Lemma load_checks_resolve_all importer check_list :
  forall CHECKS,
    load_checks importer check_list CHECKS
    = match resolve_all importer check_list with
      | inl e => inl e
      | inr classes =>
          inr (rev (map (fun cls => (check_id cls, cls)) classes) ++ CHECKS)%list
      end.
Proof.
  induction check_list as [| path rest IH]; intros CHECKS; simpl; [reflexivity |].
  destruct (resolve importer path) as [e | cls]; [reflexivity |].
  rewrite IH. destruct (resolve_all importer rest) as [e | classes]; [reflexivity |].
  simpl. rewrite <- app_assoc. reflexivity.
Qed.

Lemma registry_get_rev id classes :
  registry_get id (rev (map (fun cls => (check_id cls, cls)) classes))
  = find (fun cls => String.eqb (check_id cls) id) (rev classes).
Proof.
  rewrite <- map_rev. induction (rev classes) as [| cls l IH]; simpl; [reflexivity |].
  destruct (String.eqb (check_id cls) id); [reflexivity | exact IH].
Qed.

(** X22. Loading the registry is all or nothing, and the last word counts.
    If some path of [CHECK_LIST] cannot be resolved, loading stops with the
    error of the first such path and there is no registry. Otherwise every
    path was resolved, and the registry answers an id with the class of the
    last path in the list whose class has that id; an id that no class has
    is not in the registry. *)
Theorem load_checks_all_or_nothing :
  forall (importer : string -> option (string -> option CheckClass))
         (check_list : list string),
    match load_checks importer check_list [] with
    | inl e =>
        exists before path after,
          check_list = (before ++ path :: after)%list
          /\ resolve importer path = inl e
          /\ exists classes, resolve_all importer before = inr classes
    | inr CHECKS =>
        exists classes,
          resolve_all importer check_list = inr classes
          /\ List.length classes = List.length check_list
          /\ forall id,
               registry_get id CHECKS
               = find (fun cls => String.eqb (check_id cls) id) (rev classes)
    end.
Proof.
  intros importer check_list. rewrite load_checks_resolve_all.
  induction check_list as [| path rest IH]; simpl.
  - exists []. repeat split.
  - destruct (resolve importer path) as [e | cls] eqn:Er.
    + exists [], path, rest. split; [reflexivity |]. split; [exact Er |].
      exists []. reflexivity.
    + destruct (resolve_all importer rest) as [e | classes].
      * destruct IH as (before & p & after & -> & Hp & (cs & Hcs)).
        exists (path :: before), p, after. split; [reflexivity |]. split; [exact Hp |].
        exists (cls :: cs). simpl. rewrite Er, Hcs. reflexivity.
      * destruct IH as (cs & Hcs & Hlen & _). inversion Hcs; subst cs.
        exists (cls :: classes). split; [reflexivity |].
        split; [simpl; rewrite Hlen; reflexivity |].
        intros id. rewrite app_nil_r.
        apply (registry_get_rev id (cls :: classes)).
Qed.

(** The upload merged into the German file without merging headers: both
    units are still there, the greeting with its note, and both carry the
    uploaded text. *)
Lemma merged_store_keeps_structure_at_work :
  map tu_id (store_units (merged_store demo_istranslated demo_mergeheaders
                            upload_store true false false de_store))
  = map tu_id (store_units de_store)
  /\ List.length (store_units (merged_store demo_istranslated demo_mergeheaders
                                 upload_store true false false de_store)) = 2%nat
  /\ Forall2 (merged_from demo_istranslated upload_store false) (store_units de_store)
       (store_units (merged_store demo_istranslated demo_mergeheaders
                       upload_store true false false de_store)).
Proof.
  split; [vm_compute; reflexivity |].
  destruct (merged_store_keeps_structure demo_istranslated demo_mergeheaders
              upload_store true false false de_store eq_refl) as (_ & Hlen & Hall).
  split; [exact Hlen | exact Hall].
Defined.

(** Bob may upload but neither overwrite nor name an author: whether he
    posts the overwrite flag and an author or not, the answer and the state
    are the same. *)
Lemma upload_ignores_fields_without_permission_at_work :
  upload_translation default_settings demo_hexsha demo_checksum demo_istranslated
    demo_is_translatable demo_update_from_unit demo_unit_check demo_ttkit
    demo_mergeheaders demo_is_content demo_subscribers ["same"] (fun _ => false)
    (fun _ => true) (fun _ perm => String.eqb perm "trans.upload_translation")
    (fun _ _ => true) (fun _ => Some "error")
    {| upload_request := {| request_user := bob |}; upload_http_method := "POST";
       upload_file := "upload.po"; post_overwrite := true;
       post_author_name := "Mallory"; post_author_email := "mallory@example.org";
       post_merge_header := true; post_method := "" |}
    (edited_state [])
  = upload_translation default_settings demo_hexsha demo_checksum demo_istranslated
      demo_is_translatable demo_update_from_unit demo_unit_check demo_ttkit
      demo_mergeheaders demo_is_content demo_subscribers ["same"] (fun _ => false)
      (fun _ => true) (fun _ perm => String.eqb perm "trans.upload_translation")
      (fun _ _ => true) (fun _ => Some "error")
      {| upload_request := {| request_user := bob |}; upload_http_method := "POST";
         upload_file := "upload.po"; post_overwrite := false;
         post_author_name := ""; post_author_email := "";
         post_merge_header := true; post_method := "" |}
      (edited_state []).
Proof.
  apply (upload_ignores_fields_without_permission default_settings demo_hexsha
           demo_checksum demo_istranslated demo_is_translatable demo_update_from_unit
           demo_unit_check demo_ttkit demo_mergeheaders demo_is_content
           demo_subscribers ["same"] (fun _ => false) (fun _ => true)
           (fun _ perm => String.eqb perm "trans.upload_translation")
           (fun _ _ => true) (fun _ => Some "error")).
  - unfold agree_where_permitted. simpl.
    repeat split; try reflexivity; congruence.
  - reflexivity.
Defined.

(** A file whose format is not detected is read with the format of the
    subproject; a file that cannot be read either way stops the upload with
    [ValueError] and nothing is written. *)
Lemma merge_upload_parse_and_suggestion_mode_at_work :
  load_upload demo_ttkit_by_format "upload.txt" (edited_state [])
  = Ok upload_store (edited_state [])
  /\ merge_upload default_settings demo_hexsha demo_checksum demo_istranslated
       demo_is_translatable demo_update_from_unit demo_unit_check demo_ttkit_by_format
       demo_mergeheaders demo_is_content demo_subscribers ["same"]
       {| request_user := alice |} "notes.txt" true None true "" (edited_state [])
     = Raise ValueError (edited_state []).
Proof.
  destruct (merge_upload_parse_and_suggestion_mode default_settings demo_hexsha
              demo_checksum demo_istranslated demo_is_translatable demo_update_from_unit
              demo_unit_check demo_ttkit_by_format demo_mergeheaders demo_is_content
              demo_subscribers ["same"] {| request_user := alice |} "upload.txt" ""
              (edited_state [])) as (_ & Hfallback & _).
  destruct (merge_upload_parse_and_suggestion_mode default_settings demo_hexsha
              demo_checksum demo_istranslated demo_is_translatable demo_update_from_unit
              demo_unit_check demo_ttkit_by_format demo_mergeheaders demo_is_content
              demo_subscribers ["same"] {| request_user := alice |} "notes.txt" ""
              (edited_state [])) as (_ & _ & Hfail & _).
  split.
  - apply Hfallback; reflexivity.
  - destruct Hfail as (_ & Hmerge); [reflexivity | reflexivity |]. apply Hmerge.
Defined.

(** A query of the stale lock: Bob is no longer the holder, the expiry is
    the time of the query, and the row of the translation now has the five
    strings of the object, while the French row and the other tables are
    as they were. *)
Lemma is_user_locked_enforces_expiry_at_work :
  exists st',
    is_user_locked_multi default_settings None stale_state = Ok (false, false) st'
    /\ self st' = set_counts 5 0 0 (set_lock_time 100 hello_de)
    /\ db_translations (db st') = [set_counts 5 0 0 (set_lock_time 100 hello_de); hello_fr]
    /\ db_units (db st') = db_units indexed_db.
Proof.
  destruct (is_user_locked_enforces_expiry default_settings None stale_state)
    as (usr & own & st' & Hrun & _ & _ & _ & _ & Hsame & _ & Hclear).
  destruct Hclear as (_ & _ & Hsaved); [vm_compute; intros H; discriminate H |].
  assert (Hst : is_user_locked_multi default_settings None stale_state
                = Ok (false, false) (exec (is_user_locked_multi default_settings None) stale_state)).
  { vm_compute. reflexivity. }
  rewrite Hst in Hrun. injection Hrun as _ _ Hst'.
  exists st'. rewrite <- Hst' in *.
  split; [exact Hst |].
  split; [vm_compute; reflexivity |].
  split; [rewrite Hsaved; vm_compute; reflexivity |].
  vm_compute. reflexivity.
Defined.

(** Alice takes the lock that Bob holds until 2000: she is the holder, and
    the expiry is not shortened to the 1000 her explicit lock would run to. *)
Lemma create_lock_takes_over_and_never_shortens_at_work :
  exists st',
    create_lock default_settings (Some alice) true
      (with_self (fun s => set_lock_time 2000 (set_lock_user (Some bob) s))
         (edited_state []))
    = Ok tt st'
    /\ lock_user (self st') = Some alice
    /\ lock_time (self st') = 2000
    /\ db_translations (db st') = [self st'; hello_fr].
Proof.
  destruct (create_lock_takes_over_and_never_shortens default_settings alice true
              (with_self (fun s => set_lock_time 2000 (set_lock_user (Some bob) s))
                 (edited_state [])))
    as (st' & Hrun & Huser & _ & Hmax & _ & _ & _ & Hsaved).
  assert (Hst : create_lock default_settings (Some alice) true
                  (with_self (fun s => set_lock_time 2000 (set_lock_user (Some bob) s))
                     (edited_state []))
                = Ok tt (exec (create_lock default_settings (Some alice) true)
                           (with_self (fun s => set_lock_time 2000
                                                  (set_lock_user (Some bob) s))
                              (edited_state [])))).
  { vm_compute. reflexivity. }
  rewrite Hst in Hrun. injection Hrun as Hst'.
  exists st'. split; [rewrite <- Hst'; exact Hst |]. split; [exact Huser |]. split.
  - rewrite Hmax; [reflexivity | intros H; discriminate H].
  - rewrite Hsaved. rewrite <- Hst'. vm_compute. reflexivity.
Defined.

(** Alice touches the translation whose lock Bob has let run out: the stale
    lock is cleared and, with automatic locks on, she holds the lock for a
    minute; the object is saved with the five strings it has counted. *)
Lemma update_lock_keeps_live_holder_at_work :
  exists st',
    update_lock default_settings {| request_user := alice |} stale_state = Ok tt st'
    /\ lock_user (self st') = Some alice
    /\ lock_time (self st') = 160
    /\ map total (db_translations (db st')) = [5; 0]
    /\ map lock_user (db_translations (db st')) = [Some alice; None].
Proof.
  destruct (update_lock_keeps_live_holder default_settings {| request_user := alice |}
              stale_state)
    as (st' & Hrun & Hlock & Hsame & _ & Hsaved).
  change (lock_holder stale_state) with (@None User) in Hlock.
  change (AUTO_LOCK default_settings) with true in Hlock.
  destruct Hlock as (Huser & Htime).
  assert (Hrow : row_saved stale_state st').
  { apply Hsaved. left. intros H. discriminate H. }
  assert (Hst : update_lock default_settings {| request_user := alice |} stale_state
                = Ok tt (exec (update_lock default_settings {| request_user := alice |})
                           stale_state)).
  { vm_compute. reflexivity. }
  rewrite Hst in Hrun. injection Hrun as Hst'.
  exists st'. split; [rewrite <- Hst'; exact Hst |].
  split; [exact Huser |]. split; [exact Htime |].
  unfold row_saved in Hrow. rewrite Hrow. rewrite <- Hst'.
  split; vm_compute; reflexivity.
Defined.

(** Alice, who may do everything, uploads a file that cannot be read. If
    the text of the [ValueError] can be made, she is told that the merge
    failed; if it cannot, the view raises. A request that is no POST is
    denied, and the lock query it made on the way has cleared Bob's stale
    lock. *)
Lemma upload_translation_answers_and_guards_at_work :
  upload_translation default_settings demo_hexsha demo_checksum demo_istranslated
    demo_is_translatable demo_update_from_unit demo_unit_check demo_ttkit
    demo_mergeheaders demo_is_content demo_subscribers ["same"] (fun _ => false)
    (fun _ => true) (fun _ _ => true) (fun _ _ => true) (fun _ => Some "unreadable")
    {| upload_request := {| request_user := alice |}; upload_http_method := "POST";
       upload_file := "notes.txt"; post_overwrite := false;
       post_author_name := ""; post_author_email := "";
       post_merge_header := true; post_method := "" |}
    (edited_state [])
  = Ok (RedirectToTranslation (MsgMergeFailed "unreadable")) (edited_state [])
  /\ upload_translation default_settings demo_hexsha demo_checksum demo_istranslated
       demo_is_translatable demo_update_from_unit demo_unit_check demo_ttkit
       demo_mergeheaders demo_is_content demo_subscribers ["same"] (fun _ => false)
       (fun _ => true) (fun _ _ => true) (fun _ _ => true) (fun _ => None)
       {| upload_request := {| request_user := alice |}; upload_http_method := "POST";
          upload_file := "notes.txt"; post_overwrite := false;
          post_author_name := ""; post_author_email := "";
          post_merge_header := true; post_method := "" |}
       (edited_state [])
     = Raise UnicodeDecodeError (edited_state [])
  /\ exists st1,
       upload_translation default_settings demo_hexsha demo_checksum demo_istranslated
         demo_is_translatable demo_update_from_unit demo_unit_check demo_ttkit
         demo_mergeheaders demo_is_content demo_subscribers ["same"] (fun _ => false)
         (fun _ => true) (fun _ _ => true) (fun _ _ => true) (fun _ => None)
         {| upload_request := {| request_user := alice |}; upload_http_method := "GET";
            upload_file := "upload.po"; post_overwrite := false;
            post_author_name := ""; post_author_email := "";
            post_merge_header := true; post_method := "" |}
         stale_state
       = Ok (RedirectToTranslation MsgAccessDenied) st1
       /\ lock_user (self st1) = None
       /\ map total (db_translations (db st1)) = [5; 0].
Proof.
  pose proof (upload_translation_answers_and_guards default_settings demo_hexsha
                demo_checksum demo_istranslated demo_is_translatable
                demo_update_from_unit demo_unit_check demo_ttkit demo_mergeheaders
                demo_is_content demo_subscribers ["same"] (fun _ => false)
                (fun _ => true) (fun _ _ => true) (fun _ _ => true)
                (fun _ => Some "unreadable")
                {| upload_request := {| request_user := alice |};
                   upload_http_method := "POST";
                   upload_file := "notes.txt"; post_overwrite := false;
                   post_author_name := ""; post_author_email := "";
                   post_merge_header := true; post_method := "" |}
                (edited_state [])) as Htold.
  pose proof (upload_translation_answers_and_guards default_settings demo_hexsha
                demo_checksum demo_istranslated demo_is_translatable
                demo_update_from_unit demo_unit_check demo_ttkit demo_mergeheaders
                demo_is_content demo_subscribers ["same"] (fun _ => false)
                (fun _ => true) (fun _ _ => true) (fun _ _ => true)
                (fun _ => None)
                {| upload_request := {| request_user := alice |};
                   upload_http_method := "POST";
                   upload_file := "notes.txt"; post_overwrite := false;
                   post_author_name := ""; post_author_email := "";
                   post_merge_header := true; post_method := "" |}
                (edited_state [])) as Hraised.
  pose proof (upload_translation_answers_and_guards default_settings demo_hexsha
                demo_checksum demo_istranslated demo_is_translatable
                demo_update_from_unit demo_unit_check demo_ttkit demo_mergeheaders
                demo_is_content demo_subscribers ["same"] (fun _ => false)
                (fun _ => true) (fun _ _ => true) (fun _ _ => true)
                (fun _ => None)
                {| upload_request := {| request_user := alice |};
                   upload_http_method := "GET";
                   upload_file := "upload.po"; post_overwrite := false;
                   post_author_name := ""; post_author_email := "";
                   post_merge_header := true; post_method := "" |}
                stale_state) as Hdenied.
  cbv zeta in Htold, Hraised, Hdenied.
  destruct Htold as (_ & _ & _ & _ & _ & _ & _ & Htold).
  destruct Hraised as (_ & _ & _ & _ & _ & _ & _ & Hraised).
  destruct Hdenied as (_ & _ & _ & _ & _ & Hdenied & _).
  split; [| split].
  - rewrite Htold; [vm_compute; reflexivity | reflexivity | reflexivity | reflexivity].
  - rewrite Hraised; [vm_compute; reflexivity | reflexivity | reflexivity | reflexivity].
  - eexists. split; [apply Hdenied; reflexivity |].
    split; vm_compute; reflexivity.
Defined.

